(** * The extension gallery of vscoffline (server.py, vsc.py)

    A shallow embedding of the catalogue engine of [VSCGallery]: loading an
    extension directory into a record, rebuilding and publishing the
    snapshot, the cache freshness test, and the query engine (filter,
    fallback, sort, response envelope).

    Python values are modelled as follows.
    - A [dict] is an insertion-ordered association list: iteration order
      of a Python dict is insertion order, and the order in which
      [_apply_criteria] walks the snapshot decides the order of the result.
    - JSON documents are records over the members the code reads; every
      member is an [option], absent when the document does not have it, and
      reading an absent member with [d[k]] raises [KeyError].
    - [self.extensions] holds what the code last assigned to it: the dict of
      records, or the JSON scalar a cache file deserialised to. A cache file
      that holds an array, or an object whose values are not extension
      documents, is outside the typed documents.
    - A Python exception is the [Raise] case of [result]; the state that was
      mutated before the exception is kept by the caller.
    - Numbers (install counts, timestamps) are integers; only their order
      is used. *)

From Stdlib Require Import List String Ascii ZArith Bool Arith Lia.
From Stdlib Require Import Permutation Sorting.Sorted.
Import ListNotations.

Local Open Scope string_scope.
Local Open Scope list_scope.

(** ** Exceptions and results *)

Inductive exn : Type :=
| KeyError
| IndexError
| OSError
| InvalidVersion
| ValueError
| AttributeError
| TypeError.

Inductive result (A : Type) : Type :=
| Ok (a : A)
| Raise (e : exn).

Arguments Ok {A} a.
Arguments Raise {A} e.

Definition bind {A B : Type} (r : result A) (k : A -> result B) : result B :=
  match r with
  | Ok a => k a
  | Raise e => Raise e
  end.

Notation "x <- r ;; k" := (bind r (fun x => k))
  (at level 61, r at next level, right associativity).

(** [d[k]] on an optional member: absent raises [KeyError]. *)
Definition member {A : Type} (o : option A) : result A :=
  match o with
  | Some a => Ok a
  | None => Raise KeyError
  end.

Fixpoint mapM {A B : Type} (f : A -> result B) (l : list A) : result (list B) :=
  match l with
  | [] => Ok []
  | x :: l' =>
      y <- f x ;;
      ys <- mapM f l' ;;
      Ok (y :: ys)
  end.

(** ** Python strings *)

Module Str.

(** [str.lower()] on the ASCII range. *)
Definition lower_ascii (c : ascii) : ascii :=
  let n := nat_of_ascii c in
  if (65 <=? n)%nat && (n <=? 90)%nat then ascii_of_nat (n + 32) else c.

Fixpoint lower (s : string) : string :=
  match s with
  | EmptyString => EmptyString
  | String c s' => String (lower_ascii c) (lower s')
  end.

(** [sub in s]: [sub] occurs in [s] as a contiguous substring. *)
Fixpoint contains (sub s : string) : bool :=
  if String.prefix sub s then true
  else match s with
       | EmptyString => false
       | String _ s' => contains sub s'
       end.

End Str.

(** ** Python dicts: insertion-ordered, keys unique *)

Section Dict.

Context {V : Type}.

Definition dict := list (string * V).

Fixpoint dict_get (k : string) (d : dict) : option V :=
  match d with
  | [] => None
  | (k', v) :: d' => if String.eqb k k' then Some v else dict_get k d'
  end.

(** [d[k] = v]: an existing key keeps its position, a new key goes last. *)
Fixpoint dict_set (k : string) (v : V) (d : dict) : dict :=
  match d with
  | [] => [(k, v)]
  | (k', v') :: d' =>
      if String.eqb k k' then (k', v) :: d' else (k', v') :: dict_set k v d'
  end.

(** [d.update(b)]: the items of [b] are assigned in [b]'s order. *)
Definition dict_update (d b : dict) : dict :=
  fold_left (fun acc kv => dict_set (fst kv) (snd kv) acc) b d.

Definition dict_values (d : dict) : list V := map snd d.

Definition dict_keys (d : dict) : list string := map fst d.

End Dict.

Arguments dict V : clear implicits.

(** ** [sorted] and [list.sort]: stable, with [key=] and [reverse=] *)

Section Sort.

Context {T : Type}.
Variable le : T -> T -> bool.

Fixpoint insert_sorted (x : T) (l : list T) : list T :=
  match l with
  | [] => [x]
  | y :: l' => if le x y then x :: y :: l' else y :: insert_sorted x l'
  end.

(** Stable ascending sort: an element is placed before the elements that
    followed it in the input and are not smaller. *)
Fixpoint stable_sort (l : list T) : list T :=
  match l with
  | [] => []
  | x :: l' => insert_sorted x (stable_sort l')
  end.

(** [reverse=True] keeps stability: CPython reverses the list, sorts it
    ascending and stably, and reverses the outcome. *)
Definition list_sort (reverse : bool) (l : list T) : list T :=
  if reverse then rev (stable_sort (rev l)) else stable_sort l.

(** Two elements the order does not tell apart. *)
Definition tied (a b : T) : bool := le a b && le b a.

End Sort.

Section SortedBy.

Context {A K : Type}.
Variable key : A -> result K.
Variable le : K -> K -> bool.

Definition decorate (a : A) : result (K * A) :=
  k <- key a ;; Ok (k, a).

Definition le_fst (p q : K * A) : bool := le (fst p) (fst q).

(** [sorted(l, key=key, reverse=reverse)]: every key is computed before
    any element moves; a key that raises aborts the sort. *)
Definition sorted_by (reverse : bool) (l : list A) : result (list A) :=
  dl <- mapM decorate l ;;
  Ok (map snd (list_sort le_fst reverse dl)).

(** [a] may stand before [b] in the sorted list: ascending keys without
    [reverse], descending keys with it. *)
Definition key_le (reverse : bool) (a b : A) : Prop :=
  exists ka kb, key a = Ok ka /\ key b = Ok kb /\
                (if reverse then le kb ka else le ka kb) = true.

(** The key of [a] is tied with [k]. *)
Definition key_tied (k : K) (a : A) : bool :=
  match key a with
  | Ok ka => tied le k ka
  | Raise _ => false
  end.

End SortedBy.

(** ** Documents: [latest.json], [extension.json] and the records built
       from them *)

(** Members of a JSON object that the code never reads, in a canonical
    (key-sorted) serialisation, so that equality of records is equality of
    the Python dicts. *)
Definition members : Type := list (string * string).

Record Asset : Type := {
  assetType : option string;
  source : option string;
  asset_rest : members
}.

Record VersionRecord : Type := {
  version : option string;
  targetPlatform : option string;
  files : option (list Asset);
  assetUri : option string;
  fallbackAssetUri : option string;
  version_rest : members
}.

(** A statistic: the members [statisticName] and [value]. *)
Record Statistic : Type := {
  statisticName : option string;
  statisticValue : option Z
}.

Record Publisher : Type := {
  publisherName : option string
}.

Record ExtensionRecord : Type := {
  identity : option string;
  versions : option (list VersionRecord);
  statistics : option (list Statistic);
  stats : option (dict Z);
  extensionId : option string;
  displayName : option string;
  shortDescription : option string;
  recommended : option bool;      (* truthiness of the stored value *)
  publisher : option Publisher;
  lastUpdated : option string;
  publishedDate : option string;
  extension_rest : members
}.

Definition members_eq_dec (a b : members) : {a = b} + {a <> b}.
Proof. repeat decide equality. Defined.

Definition Asset_eq_dec (a b : Asset) : {a = b} + {a <> b}.
Proof.
  decide equality;
    try apply members_eq_dec; decide equality; apply string_dec.
Defined.

(** [==] on two version dicts. *)
Definition VersionRecord_eq_dec (a b : VersionRecord) : {a = b} + {a <> b}.
Proof.
  decide equality;
    try apply members_eq_dec;
    try (decide equality; apply string_dec);
    try (decide equality; apply list_eq_dec; apply Asset_eq_dec).
Defined.

Definition set_versions (e : ExtensionRecord) (vs : list VersionRecord)
  : ExtensionRecord :=
  {| identity := identity e;
     versions := Some vs;
     statistics := statistics e;
     stats := stats e;
     extensionId := extensionId e;
     displayName := displayName e;
     shortDescription := shortDescription e;
     recommended := recommended e;
     publisher := publisher e;
     lastUpdated := lastUpdated e;
     publishedDate := publishedDate e;
     extension_rest := extension_rest e |}.

Definition set_stats (e : ExtensionRecord) (s : dict Z) : ExtensionRecord :=
  {| identity := identity e;
     versions := versions e;
     statistics := statistics e;
     stats := Some s;
     extensionId := extensionId e;
     displayName := displayName e;
     shortDescription := shortDescription e;
     recommended := recommended e;
     publisher := publisher e;
     lastUpdated := lastUpdated e;
     publishedDate := publishedDate e;
     extension_rest := extension_rest e |}.

(** ** The storage tree *)

(** A file the loader may open: missing, present but not openable
    ([open] raises [OSError]), or present with the outcome of
    [vsc.Utility.load_json] on it ([None]: the empty list it returns for a
    directory, an empty document or a decoding error). *)
Inductive file_state (A : Type) : Type :=
| Absent
| Unreadable
| Loaded (doc : option A).

Arguments Absent {A}.
Arguments Unreadable {A}.
Arguments Loaded {A} doc.

(** An entry of an extension directory, as [os.scandir] yields it. *)
Record version_dir : Type := {
  vd_name : string;
  vd_is_dir : bool;
  vd_extension_json : file_state ExtensionRecord
}.

(** An entry of the extensions root. [ed_stat] is [entry.stat().st_mtime]
    ([None]: it raises [OSError]); [ed_updated_json] is the marker file
    ([None]: missing, [Some None]: [getmtime] raises [OSError]);
    [ed_entries] is the listing of the directory ([None]: [os.scandir]
    raises [OSError]). *)
Record ext_dir : Type := {
  ed_path : string;
  ed_is_dir : bool;
  ed_stat : option Z;
  ed_updated_json : option (option Z);
  ed_latest_json : file_state ExtensionRecord;
  ed_entries : option (list version_dir)
}.

(** A JSON value that is neither an object nor an array. *)
Inductive scalar : Type :=
| JNull
| JBool (b : bool)
| JNumber (n : Z)
| JString (s : string).

(** What [self.extensions] holds: the dict of records, or the scalar a
    cache file deserialised to. *)
Inductive snapshot : Type :=
| Records (d : dict ExtensionRecord)
| Scalar (v : scalar).

(** The items of the snapshot when it is the dict of records. *)
Definition records_of (s : snapshot) : dict ExtensionRecord :=
  match s with
  | Records d => d
  | Scalar _ => []
  end.

(** [len(self.extensions)]. *)
Definition snapshot_len (s : snapshot) : result nat :=
  match s with
  | Records d => Ok (List.length d)
  | Scalar (JString t) => Ok (String.length t)
  | Scalar _ => Raise TypeError
  end.

(** [self.extensions.copy()]. *)
Definition snapshot_copy (s : snapshot) : result (dict ExtensionRecord) :=
  match s with
  | Records d => Ok d
  | Scalar _ => Raise AttributeError
  end.

(** [self.extensions.update(batch)]: the dict is mutated in place. *)
Definition snapshot_update (s : snapshot) (batch : dict ExtensionRecord)
  : result snapshot :=
  match s with
  | Records d => Ok (Records (dict_update d batch))
  | Scalar _ => Raise AttributeError
  end.

(** The cache file: its modification time and what [json.load] makes of it
    ([None]: opening or decoding it raises). *)
Record cache_file : Type := {
  cache_mtime : Z;
  cache_data : option snapshot
}.

Record filesystem : Type := {
  fs_extensions : option (list ext_dir);   (* [None]: [os.scandir] raises *)
  fs_cache : option cache_file
}.

Definition path_exists {A : Type} (f : file_state A) : bool :=
  match f with
  | Absent => false
  | _ => true
  end.

Definition load_json {A : Type} (f : file_state A) : result (option A) :=
  match f with
  | Absent => Ok None
  | Unreadable => Raise OSError
  | Loaded doc => Ok doc
  end.

Definition os_call {A : Type} (o : option A) : result A :=
  match o with
  | Some a => Ok a
  | None => Raise OSError
  end.

(** ** The metadata loader *)

Definition URLROOT : string := "https://update.code.visualstudio.com".

(** [asset['source'] = f"{asseturi}/{asset['assetType']}"]. *)
Definition resolve_asset (asseturi : string) (asset : Asset) : result Asset :=
  t <- member (assetType asset) ;;
  Ok {| assetType := assetType asset;
        source := Some (asseturi ++ "/" ++ t)%string;
        asset_rest := asset_rest asset |}.

(** The body of [for version in extension["versions"]]. *)
Definition resolve_version (base_uri : string) (v : VersionRecord)
  : result VersionRecord :=
  ver <- member (version v) ;;
  let asseturi :=
    match targetPlatform v with
    | Some tp => (base_uri ++ "/" ++ ver ++ "/" ++ tp)%string
    | None => (base_uri ++ "/" ++ ver)%string
    end in
  assets <- member (files v) ;;
  assets <- mapM (resolve_asset asseturi) assets ;;
  Ok {| version := version v;
        targetPlatform := targetPlatform v;
        files := Some assets;
        assetUri := Some asseturi;
        fallbackAssetUri := Some asseturi;
        version_rest := version_rest v |}.

Definition default_stats : dict Z :=
  [("averagerating", 0%Z); ("install", 0%Z); ("weightedRating", 0%Z)].

(** [extension_statistics[statistic['statisticName']] = statistic['value']]:
    the value is read first. *)
Definition statistic_item (statistic : Statistic) : result (string * Z) :=
  v <- member (statisticValue statistic) ;;
  n <- member (statisticName statistic) ;;
  Ok (n, v).

Definition named_statistics (l : list Statistic) : result (dict Z) :=
  items <- mapM statistic_item l ;;
  Ok (dict_update [] items).

Definition process_loaded_extension (extension : ExtensionRecord)
    (extensiondir : string) : result ExtensionRecord :=
  _ <- member (identity extension) ;;
  let base_uri := (URLROOT ++ extensiondir)%string in
  vs <- member (versions extension) ;;
  vs <- mapM (resolve_version base_uri) vs ;;
  let extension := set_versions extension vs in
  stats <-
    match statistics extension with
    | None | Some [] => Ok default_stats
    | Some l =>
        extension_statistics <- named_statistics l ;;
        Ok (dict_update default_stats extension_statistics)
    end ;;
  Ok (set_stats extension stats).

(** The body of the loop over the entries of an extension directory. The
    outcome is the versions list as mutated so far, and the exception that
    ended the loop, if any. *)
Fixpoint scan_versions (extensiondir : string) (latestversion : VersionRecord)
    (entries : list version_dir) (acc : list VersionRecord)
  : list VersionRecord * option exn :=
  match entries with
  | [] => (acc, None)
  | entry :: rest =>
      if vd_is_dir entry && negb (vd_name entry =? ".")%string then
        if negb (path_exists (vd_extension_json entry)) then
          scan_versions extensiondir latestversion rest acc
        else
          match load_json (vd_extension_json entry) with
          | Raise e => (acc, Some e)
          | Ok None => scan_versions extensiondir latestversion rest acc
          | Ok (Some vers) =>
              match process_loaded_extension vers extensiondir with
              | Raise e => (acc, Some e)
              | Ok vers =>
                  match versions vers with
                  | None => (acc, Some KeyError)
                  | Some [] => (acc, Some IndexError)
                  | Some (v0 :: _) =>
                      if VersionRecord_eq_dec latestversion v0 then
                        scan_versions extensiondir latestversion rest acc
                      else
                        scan_versions extensiondir latestversion rest
                          (acc ++ [v0])
                  end
              end
          end
      else scan_versions extensiondir latestversion rest acc
  end.

(** [try: with os.scandir(extensiondir) ... except OSError: pass]. *)
Definition other_versions (extensiondir : string)
    (latestversion : VersionRecord) (listing : option (list version_dir))
    (vs : list VersionRecord) : result (list VersionRecord) :=
  match listing with
  | None => Ok vs
  | Some entries =>
      match scan_versions extensiondir latestversion entries vs with
      | (vs', None) => Ok vs'
      | (vs', Some OSError) => Ok vs'
      | (_, Some e) => Raise e
      end
  end.

Section Loader.

(** [packaging.version.Version]: the parser ([None]: [InvalidVersion])
    and the order [<=] of parsed versions. *)
Context {V : Type}.
Variable Version : string -> option V.
Variable Vle : V -> V -> bool.

Definition version_key (k : VersionRecord) : result V :=
  s <- member (version k) ;;
  match Version s with
  | Some v => Ok v
  | None => Raise InvalidVersion
  end.

(** Everything inside the outer [try] of [process_single_extension],
    after the early validation; the second component is the versions
    list in discovery order, before it is sorted. *)
Definition discover_versions (d : ext_dir)
  : result (option (ExtensionRecord * list VersionRecord)) :=
  latest <- load_json (ed_latest_json d) ;;
  match latest with
  | None => Ok None
  | Some latest =>
      match identity latest, versions latest with
      | Some _, Some (_ :: _) =>
          latest <- process_loaded_extension latest (ed_path d) ;;
          vs <- member (versions latest) ;;
          match vs with
          | [] => Raise IndexError
          | latestversion :: _ =>
              vs' <- other_versions (ed_path d) latestversion
                       (ed_entries d) vs ;;
              Ok (Some (latest, vs'))
          end
      | _, _ => Ok None
      end
  end.

Definition process_single_extension (d : ext_dir) : option ExtensionRecord :=
  match
    (found <- discover_versions d ;;
     match found with
     | None => Ok None
     | Some (latest, vs) =>
         sorted <- sorted_by version_key Vle true vs ;;
         Ok (Some (set_versions latest sorted))
     end)
  with
  | Ok r => r
  | Raise _ => None          (* [except Exception: return None] *)
  end.

End Loader.

(** ** The gallery object and the cache store *)

Inductive Stage : Type := idle | scanning | processing | caching.

Record Progress : Type := {
  current : nat;
  total : nat;
  stage : Stage
}.

(** The fields of [VSCGallery] that a rebuild or a query touches:
    [extensions] is the published snapshot, [loaded] and [indexing] are the
    two [Event]s. *)
Record VSCGallery : Type := {
  extensions : snapshot;
  loaded : bool;
  indexing : bool;
  indexing_progress : Progress
}.

Definition set_extensions (g : VSCGallery) (m : snapshot) : VSCGallery :=
  {| extensions := m;
     loaded := loaded g;
     indexing := indexing g;
     indexing_progress := indexing_progress g |}.

Definition set_loaded (g : VSCGallery) (b : bool) : VSCGallery :=
  {| extensions := extensions g;
     loaded := b;
     indexing := indexing g;
     indexing_progress := indexing_progress g |}.

Definition set_indexing (g : VSCGallery) (b : bool) : VSCGallery :=
  {| extensions := extensions g;
     loaded := loaded g;
     indexing := b;
     indexing_progress := indexing_progress g |}.

Definition set_progress (g : VSCGallery) (p : Progress) : VSCGallery :=
  {| extensions := extensions g;
     loaded := loaded g;
     indexing := indexing g;
     indexing_progress := p |}.

Definition set_current (g : VSCGallery) (n : nat) : VSCGallery :=
  set_progress g
    {| current := n;
       total := total (indexing_progress g);
       stage := stage (indexing_progress g) |}.

(** A modification time, or [float('inf')]. *)
Inductive mtime : Type :=
| Finite (t : Z)
| Infinity.

(** [cache_mtime > extensions_mtime] for a finite left operand. *)
Definition newer_than (t : Z) (m : mtime) : bool :=
  match m with
  | Finite u => (u <? t)%Z
  | Infinity => false
  end.

Definition get_cache_mtime (fs : filesystem) : Z :=
  match fs_cache fs with
  | Some c => cache_mtime c
  | None => 0%Z
  end.

(** The loop of [get_extensions_mtime] over the entries of the root. *)
Fixpoint scan_mtime (entries : list ext_dir) (max_mtime : Z) : result Z :=
  match entries with
  | [] => Ok max_mtime
  | entry :: rest =>
      if ed_is_dir entry then
        dir_mtime <- os_call (ed_stat entry) ;;
        let max_mtime := Z.max max_mtime dir_mtime in
        match ed_updated_json entry with
        | None => scan_mtime rest max_mtime
        | Some marker =>
            t <- os_call marker ;;
            scan_mtime rest (Z.max max_mtime t)
        end
      else scan_mtime rest max_mtime
  end.

(** Every exception raised inside the [try] is an [OSError]. *)
Definition get_extensions_mtime (fs : filesystem) : mtime :=
  match (entries <- os_call (fs_extensions fs) ;; scan_mtime entries 0%Z) with
  | Ok t => Finite t
  | Raise _ => Infinity
  end.

Definition cache_exists (fs : filesystem) : bool :=
  match fs_cache fs with
  | Some _ => true
  | None => false
  end.

(** The snapshot is assigned as soon as the file is decoded; the log line
    that follows takes [len(self.extensions)], and [except Exception] turns
    a failure of either into the answer [False]. *)
Definition load_cache (fs : filesystem) (g : VSCGallery) : VSCGallery * bool :=
  let cache_mtime := get_cache_mtime fs in
  let extensions_mtime := get_extensions_mtime fs in
  if newer_than cache_mtime extensions_mtime && cache_exists fs then
    match fs_cache fs with
    | Some {| cache_data := Some cached_data |} =>
        let g := set_extensions g cached_data in
        match snapshot_len (extensions g) with
        | Ok _ => (g, true)
        | Raise _ => (g, false)
        end
    | _ => (g, false)
    end
  else (g, false).

(** [save_cache]: a copy of the snapshot is written to a temporary file
    that is then renamed over the cache file. [written cache_data] is the
    file this leaves, with the modification time it gets and what
    [json.load] will make of what [json.dump] wrote; [None] when writing or
    renaming raises. Every exception is logged and dropped. *)
Definition save_cache (written : dict ExtensionRecord -> option cache_file)
    (fs : filesystem) (g : VSCGallery) : filesystem :=
  match snapshot_copy (extensions g) with
  | Ok cache_data =>
      match written cache_data with
      | Some c => {| fs_extensions := fs_extensions fs; fs_cache := Some c |}
      | None => fs
      end
  | Raise _ => fs
  end.

(** ** The catalog builder *)

Inductive outcome : Type :=
| Returned
| Raised (e : exn).

Definition World : Type := (filesystem * VSCGallery)%type.

(** The local variables of the completion loop of [update_state]. *)
Record Locals : Type := {
  processed_count : nat;
  new_extensions : dict ExtensionRecord;
  batch_extensions : dict ExtensionRecord
}.

Definition batch_size : nat := 100.

Definition eligible (entry : ext_dir) : bool :=
  ed_is_dir entry && path_exists (ed_latest_json entry).

Section Builder.

Context {V : Type}.
Variable Version : string -> option V.
Variable Vle : V -> V -> bool.

(** The order in which [as_completed] yields the submitted futures, and
    the cache file [save_cache] leaves for a snapshot. *)
Variable as_completed : list ext_dir -> list ext_dir.
Variable written : dict ExtensionRecord -> option cache_file.

(** One iteration of [for future in as_completed(future_to_dir)]. *)
Definition complete_one (total_extensions : nat) (g : VSCGallery)
    (L : Locals) (future : ext_dir) : VSCGallery * Locals :=
  let count := S (processed_count L) in
  let g := set_current g count in
  let skip :=
    (g, {| processed_count := count;
           new_extensions := new_extensions L;
           batch_extensions := batch_extensions L |}) in
  match process_single_extension Version Vle future with
  | Some latest =>
      match identity latest with
      | Some name =>
          let accumulated := dict_set name latest (new_extensions L) in
          let batch := dict_set name latest (batch_extensions L) in
          let pending :=
            (g, {| processed_count := count;
                   new_extensions := accumulated;
                   batch_extensions := batch |}) in
          if (batch_size <=? List.length batch)%nat
             || (count =? total_extensions)%nat
          then
            match snapshot_update (extensions g) batch with
            | Ok merged =>
                (set_extensions g merged,
                 {| processed_count := count;
                    new_extensions := accumulated;
                    batch_extensions := [] |})
            | Raise _ => pending   (* [except Exception]: warning *)
            end
          else pending
      | None => skip               (* [except Exception]: warning *)
      end
  | None => skip
  end.

Definition complete_all (total_extensions : nat) (futures : list ext_dir)
    (g : VSCGallery) (L : Locals) : VSCGallery * Locals :=
  fold_left (fun s future => complete_one total_extensions (fst s) (snd s) future)
    futures (g, L).

Definition start_locals : Locals :=
  {| processed_count := 0; new_extensions := []; batch_extensions := [] |}.

Definition publish (total_extensions : nat) (g : VSCGallery) (L : Locals)
  : VSCGallery :=
  set_progress (set_extensions g (Records (new_extensions L)))
    {| current := total_extensions; total := total_extensions;
       stage := caching |}.

Definition finish (g : VSCGallery) : VSCGallery :=
  set_indexing
    (set_progress g {| current := 0; total := 0; stage := idle |}) false.

Definition update_state (w : World) : World * outcome :=
  let (fs, g) := w in
  let (g, hit) := load_cache fs g in
  if hit then ((fs, g), Returned)
  else
    let g := set_indexing g true in
    match fs_extensions fs with
    | None => ((fs, g), Raised OSError)
    | Some entries =>
        let extension_dirs := filter eligible entries in
        let total_extensions := List.length extension_dirs in
        let g := set_progress g {| current := 0; total := total_extensions;
                                   stage := scanning |} in
        let g := set_progress g {| current := 0; total := total_extensions;
                                   stage := processing |} in
        let (g, L) := complete_all total_extensions
                        (as_completed extension_dirs) g start_locals in
        let g := publish total_extensions g L in
        let fs := save_cache written fs g in
        ((fs, finish g), Returned)
    end.

(** The item was built by this rebuild: its record is what
    [process_single_extension] returned for one of the futures, stored
    under the record's identity. *)
Definition built_by (futures : list ext_dir)
    (item : string * ExtensionRecord) : Prop :=
  exists d, In d futures /\
            process_single_extension Version Vle d = Some (snd item) /\
            identity (snd item) = Some (fst item).

(** *** The rebuild as a sequence of atomic steps

    A step is a stretch of [update_state] in which the published map is
    assigned or mutated at most once (under [extensions_lock]); between
    two steps another thread may read the gallery. *)
Inductive pc : Type :=
| AtLoadCache
| AtScan
| AtCompletion (total_extensions : nat) (futures : list ext_dir) (L : Locals)
| AtPublish (total_extensions : nat) (L : Locals)
| AtSaveCache
| Finished (o : outcome).

Definition step (w : World) (p : pc) : World * pc :=
  let (fs, g) := w in
  match p with
  | AtLoadCache =>
      let (g, hit) := load_cache fs g in
      ((fs, g), if hit then Finished Returned else AtScan)
  | AtScan =>
      let g := set_indexing g true in
      match fs_extensions fs with
      | None => ((fs, g), Finished (Raised OSError))
      | Some entries =>
          let extension_dirs := filter eligible entries in
          let total_extensions := List.length extension_dirs in
          let g := set_progress g {| current := 0; total := total_extensions;
                                     stage := processing |} in
          ((fs, g), AtCompletion total_extensions
                      (as_completed extension_dirs) start_locals)
      end
  | AtCompletion total_extensions [] L =>
      ((fs, g), AtPublish total_extensions L)
  | AtCompletion total_extensions (future :: rest) L =>
      let (g, L) := complete_one total_extensions g L future in
      ((fs, g), AtCompletion total_extensions rest L)
  | AtPublish total_extensions L =>
      ((fs, publish total_extensions g L), AtSaveCache)
  | AtSaveCache =>
      ((save_cache written fs g, finish g), Finished Returned)
  | Finished o => ((fs, g), Finished o)
  end.

Fixpoint run (n : nat) (w : World) (p : pc) : World * pc :=
  match n with
  | O => (w, p)
  | S n' => let (w', p') := step w p in run n' w' p'
  end.

(** What holds of the completion loop: the accumulated map and the
    pending batch hold items built by this rebuild; the published map
    holds items of the previous snapshot [old] and items built by this
    rebuild. *)
Definition loop_inv (old : dict ExtensionRecord) (futures : list ext_dir)
    (g : VSCGallery) (L : Locals) : Prop :=
  (forall item, In item (new_extensions L) -> built_by futures item) /\
  (forall item, In item (batch_extensions L) -> built_by futures item) /\
  (forall item, In item (records_of (extensions g)) ->
                In item old \/ built_by futures item).

(** What holds at each point of a rebuild that started in the world
    [(fs0, g0)], missed the cache and listed [entries]. *)
Definition rebuild_inv (fs0 : filesystem) (g0 : VSCGallery)
    (entries : list ext_dir) (w : World) (p : pc) : Prop :=
  let futures := as_completed (filter eligible entries) in
  let old := records_of (extensions g0) in
  match p with
  | AtLoadCache => w = (fs0, g0)
  | AtScan => fst w = fs0 /\ incl (records_of (extensions (snd w))) old
  | AtCompletion _ rest L => incl rest futures /\ loop_inv old futures (snd w) L
  | AtPublish _ L => loop_inv old futures (snd w) L
  | AtSaveCache | Finished Returned =>
      forall item, In item (records_of (extensions (snd w))) ->
                   built_by futures item
  | Finished (Raised _) => False
  end.

(** *** The refresh scheduler and the change handler

    Two threads call [update_state] on the one gallery: the worker of
    [update_state_loop], and the observer thread that runs
    [ArtifactChangedHandler.on_modified]. *)
Inductive thread : Type :=
| Waiting                      (* sleeping, or no event to handle *)
| Rebuilding (p : pc).         (* inside [update_state] *)

Record System : Type := {
  world : World;
  worker : thread;
  observer : thread
}.

(** [update_state_loop]: after the sleep the worker calls [update_state];
    when it returns the worker sets [loaded]. An exception ends the
    thread, which then stays inside no rebuild. *)
(** [on_modified]: an event whose path mentions [updated.json] makes the
    observer call [update_state]. *)
Inductive sys_step : System -> System -> Prop :=
| worker_tick : forall w o,
    sys_step {| world := w; worker := Waiting; observer := o |}
             {| world := w; worker := Rebuilding AtLoadCache; observer := o |}
| worker_step : forall w p o w' p',
    (forall r, p <> Finished r) ->
    step w p = (w', p') ->
    sys_step {| world := w; worker := Rebuilding p; observer := o |}
             {| world := w'; worker := Rebuilding p'; observer := o |}
| worker_return : forall fs g o,
    sys_step {| world := (fs, g); worker := Rebuilding (Finished Returned);
                observer := o |}
             {| world := (fs, set_loaded g true); worker := Waiting;
                observer := o |}
| observer_event : forall w t src_path,
    Str.contains "updated.json" src_path = true ->
    sys_step {| world := w; worker := t; observer := Waiting |}
             {| world := w; worker := t; observer := Rebuilding AtLoadCache |}
| observer_step : forall w p t w' p',
    (forall r, p <> Finished r) ->
    step w p = (w', p') ->
    sys_step {| world := w; worker := t; observer := Rebuilding p |}
             {| world := w'; worker := t; observer := Rebuilding p' |}
| observer_return : forall w t r,
    sys_step {| world := w; worker := t; observer := Rebuilding (Finished r) |}
             {| world := w; worker := t; observer := Waiting |}.

Inductive reachable (s0 : System) : System -> Prop :=
| reach_refl : reachable s0 s0
| reach_step : forall s s', reachable s0 s -> sys_step s s' -> reachable s0 s'.

(** A thread is in the middle of a rebuild. *)
Definition rebuilding (t : thread) : bool :=
  match t with
  | Rebuilding (Finished _) => false
  | Rebuilding _ => true
  | Waiting => false
  end.

End Builder.

(** ** The query engine *)

(** [enum.IntFlag]: calling the class on an integer, as CPython 3.11 does
    it. The outcome is a member or pseudo-member of the class, which
    compares as the integer it holds; that integer is what [call] gives.
    An [IntFlag] keeps bits no member has (boundary [KEEP]) and folds a
    negative integer onto the bits it stands for. *)
Module IntFlag.

(** [int.bit_length]. *)
Definition bit_length (z : Z) : Z :=
  if (z =? 0)%Z then 0%Z else (Z.log2 (Z.abs z) + 1)%Z.

Definition is_single_bit (num : Z) : bool :=
  if (num =? 0)%Z then false else (Z.land num (num - 1) =? 0)%Z.

(** [_flag_mask_]: the bits of the members that are a single bit. *)
Definition flag_mask (members : list Z) : Z :=
  fold_left Z.lor (filter is_single_bit members) 0%Z.

(** [_all_bits_]: every bit up to the highest one a member has. *)
Definition all_bits (members : list Z) : Z :=
  (2 ^ bit_length (fold_left Z.lor members 0%Z) - 1)%Z.

(** [Flag._missing_] for the boundary [KEEP]. *)
Definition missing (members : list Z) (value : Z) : Z :=
  let flag_mask := flag_mask members in
  let all_bits := all_bits members in
  let value :=
    if negb ((Z.lnot all_bits <=? value)%Z && (value <=? all_bits)%Z)
       || negb (Z.land value (Z.lxor all_bits flag_mask) =? 0)%Z
    then
      if (value <? 0)%Z
      then (Z.max (all_bits + 1) (2 ^ bit_length value) + value)%Z
      else value
    else value in
  if (value <? 0)%Z then (all_bits + 1 + value)%Z else value.

(** A value that is a member's is that member; [_missing_] makes the
    others. *)
Definition call (members : list Z) (value : Z) : Z :=
  if existsb (Z.eqb value) members then value else missing members value.

End IntFlag.

(** The members of the [IntFlag] enumerations of vsc.py, as the integers
    they are compared by. *)
Module FilterType.
Definition Tag : Z := 1.
Definition ExtensionId : Z := 4.
Definition Category : Z := 5.
Definition ExtensionName : Z := 7.
Definition Target : Z := 8.
Definition Featured : Z := 9.
Definition SearchText : Z := 10.
Definition ExcludeWithFlags : Z := 12.
Definition UndefinedType : Z := 14.
Definition members : list Z :=
  [Tag; ExtensionId; Category; ExtensionName; Target; Featured; SearchText;
   ExcludeWithFlags; UndefinedType].
(** [vsc.FilterType(value)]. *)
Definition of_value (value : Z) : Z := IntFlag.call members value.
End FilterType.

Module SortBy.
Definition NoneOrRelevance : Z := 0.
Definition LastUpdatedDate : Z := 1.
Definition Title : Z := 2.
Definition PublisherName : Z := 3.
Definition InstallCount : Z := 4.
Definition PublishedDate : Z := 5.
Definition AverageRating : Z := 6.
Definition WeightedRating : Z := 12.
Definition members : list Z :=
  [NoneOrRelevance; LastUpdatedDate; Title; PublisherName; InstallCount;
   PublishedDate; AverageRating; WeightedRating].
(** [vsc.SortBy(value)]. *)
Definition of_value (value : Z) : Z := IntFlag.call members value.
End SortBy.

Module SortOrder.
Definition Default : Z := 0.
Definition Ascending : Z := 1.
Definition Descending : Z := 2.
Definition members : list Z := [Default; Ascending; Descending].
(** [vsc.SortOrder(value)]. *)
Definition of_value (value : Z) : Z := IntFlag.call members value.
End SortOrder.

Record Criterion : Type := {
  filterType : option Z;
  value : option string
}.

Record Filter : Type := {
  criteria : option (list Criterion);
  sortBy : option Z;
  sortOrder : option Z
}.

Record Request : Type := {
  filters : option (list Filter);
  flags : option Z
}.

(** The response envelope built by [_build_response]. *)
Module Envelope.

Record MetadataItem : Type := {
  name : string;
  count : nat
}.

Record ResultMetadata : Type := {
  metadataType : string;
  metadataItems : list MetadataItem
}.

Record Result : Type := {
  extensions : list ExtensionRecord;
  pagingToken : option string;
  resultMetadata : list ResultMetadata
}.

Record t : Type := {
  results : list Result
}.

End Envelope.

Inductive Response : Type :=
| HTTP_404
| HTTP_200 (media : Envelope.t).

(** [for name in extensions: if test: result.append(extensions[name])]. *)
Fixpoint select (test : string -> ExtensionRecord -> result bool)
    (items : dict ExtensionRecord) (acc : list ExtensionRecord)
  : result (list ExtensionRecord) :=
  match items with
  | [] => Ok acc
  | (name, ext) :: rest =>
      hit <- test name ext ;;
      select test rest (if hit then acc ++ [ext] else acc)
  end.

Definition test_ExtensionId (val : string) (name : string)
    (ext : ExtensionRecord) : result bool :=
  id <- member (extensionId ext) ;;
  Ok (val =? id)%string.

Definition test_ExtensionName (val : string) (name : string)
    (ext : ExtensionRecord) : result bool :=
  Ok (Str.lower name =? val)%string.

Definition lowered_contains (val : string) (field : option string) : bool :=
  match field with
  | Some s => Str.contains val (Str.lower s)
  | None => false
  end.

Definition test_SearchText (val : string) (name : string)
    (ext : ExtensionRecord) : result bool :=
  Ok (Str.contains val (Str.lower name)
      || lowered_contains val (displayName ext)
      || lowered_contains val (shortDescription ext)).

(** The body of [for crit in criteria]. *)
Definition apply_criterion (exts : dict ExtensionRecord)
    (acc : list ExtensionRecord) (crit : Criterion)
  : result (list ExtensionRecord) :=
  match filterType crit, value crit with
  | Some ft, Some v =>
      let ft := FilterType.of_value ft in
      let val := Str.lower v in
      if (ft =? FilterType.Tag)%Z then Ok acc
      else if (ft =? FilterType.ExtensionId)%Z then
        select (test_ExtensionId val) exts acc
      else if (ft =? FilterType.Category)%Z then Ok acc
      else if (ft =? FilterType.ExtensionName)%Z then
        select (test_ExtensionName val) exts acc
      else if (ft =? FilterType.Target)%Z then Ok acc
      else if (ft =? FilterType.Featured)%Z then Ok acc
      else if (ft =? FilterType.SearchText)%Z then
        select (test_SearchText val) exts acc
      else if (ft =? FilterType.ExcludeWithFlags)%Z then Ok acc
      else Ok acc
  | _, _ => Ok acc
  end.

Fixpoint apply_all (exts : dict ExtensionRecord) (crits : list Criterion)
    (acc : list ExtensionRecord) : result (list ExtensionRecord) :=
  match crits with
  | [] => Ok acc
  | crit :: rest =>
      acc <- apply_criterion exts acc crit ;;
      apply_all exts rest acc
  end.

Definition is_recommended (ext : ExtensionRecord) : bool :=
  match recommended ext with
  | Some b => b
  | None => false
  end.

Definition _apply_criteria (g : VSCGallery) (crits : list Criterion)
  : result (list ExtensionRecord) :=
  exts <- snapshot_copy (extensions g) ;;
  found <- apply_all exts crits [] ;;
  if (List.length found <=? 0)%nat && (List.length crits <=? 2)%nat then
    Ok (filter is_recommended (dict_values exts))
  else Ok found.

Definition stat_key (statistic : string) (k : ExtensionRecord) : result Z :=
  s <- member (stats k) ;;
  member (dict_get statistic s).

Definition publisher_key (k : ExtensionRecord) : result string :=
  p <- member (publisher k) ;;
  member (publisherName p).

Section Sorting.

(** [vsc.Utility.from_json_datetime]: [strptime] with the fixed format,
    as a count of microseconds ([None]: [ValueError]). *)
Variable from_json_datetime : string -> option Z.

Definition date_key (field : ExtensionRecord -> option string)
    (k : ExtensionRecord) : result Z :=
  s <- member (field k) ;;
  match from_json_datetime s with
  | Some t => Ok t
  | None => Raise ValueError
  end.

Definition _sort (found : list ExtensionRecord) (sortby sortorder : Z)
  : result (list ExtensionRecord) :=
  let rev := negb (sortorder =? SortOrder.Ascending)%Z in
  if (sortby =? SortBy.PublisherName)%Z then
    sorted_by publisher_key String.leb (negb rev) found
  else if (sortby =? SortBy.InstallCount)%Z then
    sorted_by (stat_key "install") Z.leb rev found
  else if (sortby =? SortBy.AverageRating)%Z then
    sorted_by (stat_key "averagerating") Z.leb rev found
  else if (sortby =? SortBy.WeightedRating)%Z then
    sorted_by (stat_key "weightedRating") Z.leb rev found
  else if (sortby =? SortBy.LastUpdatedDate)%Z then
    sorted_by (date_key lastUpdated) Z.leb rev found
  else if (sortby =? SortBy.PublishedDate)%Z then
    sorted_by (date_key publishedDate) Z.leb rev found
  else
    sorted_by (fun k => member (displayName k)) String.leb (negb rev) found.

Definition _build_response (resultingExtensions : list ExtensionRecord)
  : Envelope.t :=
  {| Envelope.results :=
      [ {| Envelope.extensions := resultingExtensions;
           Envelope.pagingToken := None;
           Envelope.resultMetadata :=
             [ {| Envelope.metadataType := "ResultCount";
                  Envelope.metadataItems :=
                    [ {| Envelope.name := "TotalCount";
                         Envelope.count := List.length resultingExtensions |} ]
               |} ] |} ] |}.

(** [d.get(k)] used as a condition: present and non-zero. *)
Definition truthy (o : option Z) : option Z :=
  match o with
  | Some z => if (z =? 0)%Z then None else Some z
  | None => None
  end.

Definition on_post (g : VSCGallery) (req : Request) : result Response :=
  match filters req with
  | None => Ok HTTP_404
  | Some fl =>
      match fl with
      | [] => Raise IndexError
      | f0 :: _ =>
          match criteria f0, flags req with
          | Some crits, Some _ =>
              let sortorder :=
                match truthy (sortOrder f0) with
                | Some o => SortOrder.of_value o
                | None => SortOrder.Default
                end in
              let sortby :=
                match truthy (sortBy f0) with
                | Some b => SortBy.of_value b
                | None => SortBy.NoneOrRelevance
                end in
              let '(sortby, sortorder) :=
                if (sortby =? SortBy.NoneOrRelevance)%Z
                then (SortBy.InstallCount, SortOrder.Descending)
                else (sortby, sortorder) in
              found <- _apply_criteria g crits ;;
              found <- _sort found sortby sortorder ;;
              Ok (HTTP_200 (_build_response found))
          | _, _ => Ok HTTP_404
          end
      end
  end.

End Sorting.

(** ** Release versions

    The part of [packaging.version.Version] that covers plain release
    versions [N(.N)*]: the key of such a version is its release tuple with
    the trailing zeros removed, and keys are compared as tuples. Versions
    with an epoch, a pre-, post- or dev-release or a local label are outside
    this instance. *)
Module Release.

Definition digit (c : ascii) : option N :=
  let n := nat_of_ascii c in
  if (48 <=? n)%nat && (n <=? 57)%nat then Some (N.of_nat (n - 48)) else None.

Fixpoint segments (s : string) (cur : option N) (acc : list N)
  : option (list N) :=
  match s with
  | EmptyString =>
      match cur with
      | Some n => Some (rev (n :: acc))
      | None => None
      end
  | String c s' =>
      if Ascii.eqb c "."%char then
        match cur with
        | Some n => segments s' None (n :: acc)
        | None => None
        end
      else
        match digit c with
        | Some d =>
            let n := match cur with Some n => n | None => 0%N end in
            segments s' (Some (10 * n + d)%N) acc
        | None => None
        end
  end.

Fixpoint strip_zeros (l : list N) : list N :=
  match l with
  | [] => []
  | x :: l' =>
      match strip_zeros l' with
      | [] => if (x =? 0)%N then [] else [x]
      | t => x :: t
      end
  end.

Definition Version (s : string) : option (list N) :=
  option_map strip_zeros (segments s None []).

Fixpoint le (a b : list N) : bool :=
  match a, b with
  | [], _ => true
  | _ :: _, [] => false
  | x :: a', y :: b' =>
      if (x <? y)%N then true
      else if (x =? y)%N then le a' b'
      else false
  end.

End Release.

(** ** Sample data *)

Module Sample.

Definition vrec (v : string) (tp : option string) : VersionRecord :=
  {| version := Some v; targetPlatform := tp; files := Some [];
     assetUri := None; fallbackAssetUri := None; version_rest := [] |}.

Definition doc (id : string) (vs : list VersionRecord) : ExtensionRecord :=
  {| identity := Some id; versions := Some vs; statistics := None;
     stats := None; extensionId := Some id; displayName := None;
     shortDescription := None; recommended := None; publisher := None;
     lastUpdated := None; publishedDate := None; extension_rest := [] |}.

(** A published record with an install count and a recommended flag. *)
Definition rec (id : string) (install : Z) (flag : bool) : ExtensionRecord :=
  {| identity := Some id; versions := Some [vrec "1.0.0" None];
     statistics := None;
     stats := Some [("averagerating", 0%Z); ("install", install);
                    ("weightedRating", 0%Z)];
     extensionId := Some id; displayName := None;
     shortDescription := None; recommended := Some flag; publisher := None;
     lastUpdated := None; publishedDate := None; extension_rest := [] |}.

Definition gallery (m : dict ExtensionRecord) : VSCGallery :=
  {| extensions := Records m; loaded := true; indexing := false;
     indexing_progress := {| current := 0; total := 0; stage := idle |} |}.

Definition vdir (n : string) (d : ExtensionRecord) : version_dir :=
  {| vd_name := n; vd_is_dir := true; vd_extension_json := Loaded (Some d) |}.

Definition edir (path : string) (latest : ExtensionRecord)
    (entries : list version_dir) : ext_dir :=
  {| ed_path := path; ed_is_dir := true; ed_stat := Some 5%Z;
     ed_updated_json := None; ed_latest_json := Loaded (Some latest);
     ed_entries := Some entries |}.

Definition crit (ft : Z) (v : string) : Criterion :=
  {| filterType := Some ft; value := Some v |}.

Definition query (crits : list Criterion) (by_ : option Z) : Request :=
  {| filters := Some [ {| criteria := Some crits; sortBy := by_;
                         sortOrder := None |} ];
     flags := Some 0%Z |}.

(** An extension directory whose [latest.json] is at version 1.0.0, with
    sibling directories for 1.0.0, for 1.0 and for 0.9.0. *)
Definition ext_path : string := "/artifacts/extensions/pub.ext".

Definition base_uri : string := (URLROOT ++ ext_path)%string.

(** The version record [vrec v None] with its URIs resolved. *)
Definition resolved (v : string) : VersionRecord :=
  {| version := Some v; targetPlatform := None; files := Some [];
     assetUri := Some (base_uri ++ "/" ++ v)%string;
     fallbackAssetUri := Some (base_uri ++ "/" ++ v)%string;
     version_rest := [] |}.

Definition v_1_0_0 : VersionRecord := resolved "1.0.0".
Definition v_1_0 : VersionRecord := resolved "1.0".
Definition v_0_9_0 : VersionRecord := resolved "0.9.0".

Definition siblings : list version_dir :=
  [ vdir "1.0.0" (doc "pub.ext" [vrec "1.0.0" None]);
    vdir "1.0" (doc "pub.ext" [vrec "1.0" None]);
    vdir "0.9.0" (doc "pub.ext" [vrec "0.9.0" None]) ].

Definition pub_ext : ext_dir :=
  edir ext_path (doc "pub.ext" [vrec "1.0.0" None]) siblings.

(** The record the loader builds for that directory. *)
Definition pub_ext_record : ExtensionRecord :=
  set_versions
    (set_stats (set_versions (doc "pub.ext" [vrec "1.0.0" None]) [v_1_0_0])
       default_stats)
    [v_1_0_0; v_1_0; v_0_9_0].

(** A storage tree with that one extension and no cache file, and a
    gallery whose previous snapshot holds one other extension. *)
Definition tree : filesystem :=
  {| fs_extensions := Some [pub_ext]; fs_cache := None |}.

Definition previous : VSCGallery :=
  gallery [("old.ext", rec "old.ext" 5%Z false)].

(** A snapshot with three records: install counts 10, 50 and 30. *)
Definition A : ExtensionRecord := rec "pub.a" 10%Z true.
Definition B : ExtensionRecord := rec "pub.b" 50%Z false.
Definition C : ExtensionRecord := rec "pub.c" 30%Z true.

Definition catalog : VSCGallery :=
  gallery [("pub.a", A); ("pub.b", B); ("pub.c", C)].

(** No date is parsed in the samples. *)
Definition no_dates (s : string) : option Z := None.

(** [as_completed] yielding the futures in submission order. *)
Definition in_order (l : list ext_dir) : list ext_dir := l.

(** A cache file that cannot be written, and one that is written at time
    [t] and read back as the dict that was dumped. *)
Definition unwritten (cache_data : dict ExtensionRecord) : option cache_file :=
  None.

Definition written_at (t : Z) (cache_data : dict ExtensionRecord)
  : option cache_file :=
  Some {| cache_mtime := t; cache_data := Some (Records cache_data) |}.

End Sample.

(** ** Views used to state the properties *)

(** What the loop of [scan_versions] makes of one directory entry: it is
    passed over, it ends the loop with an exception, or it yields the first
    version record of the sibling's [extension.json]. *)
Inductive sibling : Type :=
| Passed
| Ends (e : exn)
| Yields (v0 : VersionRecord).

Definition sibling_of (extensiondir : string) (entry : version_dir) : sibling :=
  if vd_is_dir entry && negb (vd_name entry =? ".")%string then
    match vd_extension_json entry with
    | Absent => Passed
    | Unreadable => Ends OSError
    | Loaded None => Passed
    | Loaded (Some vers) =>
        match process_loaded_extension vers extensiondir with
        | Raise e => Ends e
        | Ok vers =>
            match versions vers with
            | None => Ends KeyError
            | Some [] => Ends IndexError
            | Some (v0 :: _) => Yields v0
            end
        end
    end
  else Passed.

(** The sibling either is passed over or yields a record. *)
Definition well_formed (extensiondir : string) (entry : version_dir) : bool :=
  match sibling_of extensiondir entry with
  | Ends _ => false
  | _ => true
  end.

Definition yielded (extensiondir : string) (entry : version_dir)
  : list VersionRecord :=
  match sibling_of extensiondir entry with
  | Yields v0 => [v0]
  | _ => []
  end.

Definition differs_from (latestversion v0 : VersionRecord) : bool :=
  if VersionRecord_eq_dec latestversion v0 then false else true.

(** The entries the loop gets through: those before the first entry that
    ends it. *)
Fixpoint reached (extensiondir : string) (entries : list version_dir)
  : list version_dir :=
  match entries with
  | [] => []
  | entry :: rest =>
      match sibling_of extensiondir entry with
      | Ends _ => []
      | _ => entry :: reached extensiondir rest
      end
  end.

(** The exception of the first entry that ends the loop, if there is one. *)
Fixpoint ending (extensiondir : string) (entries : list version_dir)
  : option exn :=
  match entries with
  | [] => None
  | entry :: rest =>
      match sibling_of extensiondir entry with
      | Ends e => Some e
      | _ => ending extensiondir rest
      end
  end.

(** The members [process_loaded_extension] reads with [d[k]]: a version
    has [version] and [files] and each of its files has [assetType]; a
    statistic has [statisticName] and [value]; the document has [identity]
    and [versions]. *)
Definition typed_asset (asset : Asset) : bool :=
  match assetType asset with
  | Some _ => true
  | None => false
  end.

Definition resolvable (v : VersionRecord) : bool :=
  match version v, files v with
  | Some _, Some assets => forallb typed_asset assets
  | _, _ => false
  end.

Definition valued (statistic : Statistic) : bool :=
  match statisticName statistic, statisticValue statistic with
  | Some _, Some _ => true
  | _, _ => false
  end.

Definition processable (extension : ExtensionRecord) : bool :=
  match identity extension, versions extension with
  | Some _, Some vs =>
      forallb resolvable vs
      && match statistics extension with
         | Some l => forallb valued l
         | None => true
         end
  | _, _ => false
  end.

(** The entry can be statted, and so can its marker file if there is one. *)
Definition stattable (entry : ext_dir) : Prop :=
  ed_is_dir entry = true ->
  ed_stat entry <> None /\ ed_updated_json entry <> Some None.

(** The directory and its marker file were modified before [t]. *)
Definition older_than (t : Z) (entry : ext_dir) : Prop :=
  ed_is_dir entry = true ->
  (forall s, ed_stat entry = Some s -> (s < t)%Z) /\
  (forall u, ed_updated_json entry = Some (Some u) -> (u < t)%Z).

(** The cache file is there, it decodes to [data], the source tree can be
    statted, and the cache file was modified after time zero and after
    every extension directory and every [updated.json] marker. *)
Definition fresh_cache (fs : filesystem) (data : snapshot) : Prop :=
  exists c entries,
    fs_cache fs = Some c /\ cache_data c = Some data /\
    fs_extensions fs = Some entries /\
    Forall stattable entries /\
    (0 < cache_mtime c)%Z /\
    Forall (older_than (cache_mtime c)) entries.

(** [len] can be taken of the value. *)
Definition sized (data : snapshot) : bool :=
  match snapshot_len data with
  | Ok _ => true
  | Raise _ => false
  end.

(** The test a criterion of a supported kind applies to an item of the
    snapshot, as [apply_criterion] selects it; the kind of a criterion is
    the member [vsc.FilterType] makes of its [filterType]. *)
Definition criterion_test (crit : Criterion)
  : option (string -> ExtensionRecord -> result bool) :=
  match filterType crit, value crit with
  | Some ft, Some v =>
      let ft := FilterType.of_value ft in
      if (ft =? FilterType.ExtensionId)%Z then
        Some (test_ExtensionId (Str.lower v))
      else if (ft =? FilterType.ExtensionName)%Z then
        Some (test_ExtensionName (Str.lower v))
      else if (ft =? FilterType.SearchText)%Z then
        Some (test_SearchText (Str.lower v))
      else None
  | _, _ => None
  end.

Definition hits (crit : Criterion) (item : string * ExtensionRecord) : bool :=
  match criterion_test crit with
  | Some test =>
      match test (fst item) (snd item) with
      | Ok b => b
      | Raise _ => false
      end
  | None => false
  end.

(** The records of the snapshot a criterion matches, in snapshot order. *)
Definition matched (exts : dict ExtensionRecord) (crit : Criterion)
  : list ExtensionRecord :=
  map snd (filter (hits crit) exts).

Definition install_count (e : ExtensionRecord) : option Z :=
  match stat_key "install" e with
  | Ok n => Some n
  | Raise _ => None
  end.

(** ** Further views: assignments, loaded items, supported criteria *)

(** The value the last assignment to [k] in a sequence of assignments
    leaves, if there is one. *)
Definition last_assigned {V : Type} (k : string) (pairs : list (string * V))
  : option V :=
  fold_left (fun acc kv => if String.eqb k (fst kv) then Some (snd kv) else acc)
    pairs None.

(** The named statistics of a document as assignments. *)
Definition statistic_pairs (l : list Statistic) : list (string * Z) :=
  flat_map (fun s => match statisticName s, statisticValue s with
                     | Some n, Some v => [(n, v)]
                     | _, _ => []
                     end) l.

(** A criterion of one of the three kinds [apply_criterion] evaluates. *)
Definition supported (crit : Criterion) : bool :=
  match criterion_test crit with
  | Some _ => true
  | None => false
  end.

(** The field a sort by publisher or by display name reads. *)
Definition display_key (k : ExtensionRecord) : result string :=
  member (displayName k).

Section LoadedItems.

Context {V : Type}.
Variable Version : string -> option V.
Variable Vle : V -> V -> bool.

(** What one completed future adds to the accumulated map: the record and
    the identity it is stored under, or nothing. *)
Definition loaded_item (future : ext_dir) : list (string * ExtensionRecord) :=
  match process_single_extension Version Vle future with
  | Some latest =>
      match identity latest with
      | Some name => [(name, latest)]
      | None => []
      end
  | None => []
  end.

Definition loaded_items (futures : list ext_dir)
  : list (string * ExtensionRecord) :=
  flat_map loaded_item futures.

End LoadedItems.

Section Batches.

Context {V : Type}.
Variable Version : string -> option V.
Variable Vle : V -> V -> bool.
Variable as_completed : list ext_dir -> list ext_dir.

(** The completion loop of a rebuild that found the dict [old] published,
    when [rest] of the [futures] are still to come: the records loaded so
    far are those of the batches that were merged into the published dict,
    in [chunks], and those of the pending batch. A batch is merged when it
    holds 100 records, or with the last future if that one loaded a
    record. *)
Definition batches_inv (old : dict ExtensionRecord) (futures : list ext_dir)
    (total_extensions : nat) (rest : list ext_dir) (g : VSCGallery)
    (L : Locals) : Prop :=
  exists done chunks pending,
    futures = done ++ rest /\
    total_extensions = List.length futures /\
    processed_count L = List.length done /\
    loaded_items Version Vle done = List.concat chunks ++ pending /\
    extensions g = Records (dict_update old (List.concat chunks)) /\
    batch_extensions L = dict_update [] pending /\
    (List.length (batch_extensions L) < 100)%nat /\
    Forall (fun chunk => List.length (dict_update [] chunk) = 100%nat)
      (removelast chunks) /\
    (rest <> [] ->
     Forall (fun chunk => List.length (dict_update [] chunk) = 100%nat)
       chunks) /\
    (rest = [] ->
     forall done' d,
       done = done' ++ [d] ->
       process_single_extension Version Vle d <> None -> pending = []).

(** What holds at each point of a rebuild that started in the world
    [(fs0, g0)] with the dict [old] published and missed the cache. *)
Definition flush_inv (fs0 : filesystem) (g0 : VSCGallery)
    (old : dict ExtensionRecord) (entries : list ext_dir)
    (w : World) (p : pc) : Prop :=
  match p with
  | AtLoadCache | AtScan => w = (fs0, g0)
  | AtCompletion total_extensions rest L =>
      batches_inv old (as_completed (filter eligible entries))
        total_extensions rest (snd w) L
  | _ => True
  end.

(** The same for a rebuild that started with the scalar [v] published: no
    batch can be merged into it. *)
Definition scalar_inv (fs0 : filesystem) (g0 : VSCGallery) (v : scalar)
    (w : World) (p : pc) : Prop :=
  match p with
  | AtLoadCache => w = (fs0, g0)
  | AtScan | AtCompletion _ _ _ => extensions (snd w) = Scalar v
  | _ => True
  end.

End Batches.

(** ** More sample data *)

Module Cases.

(** A published record with a publisher and a display name. *)
Definition named (id pub display : string) : ExtensionRecord :=
  {| identity := Some id; versions := Some [Sample.vrec "1.0.0" None];
     statistics := None;
     stats := Some default_stats;
     extensionId := Some id; displayName := Some display;
     shortDescription := None; recommended := None;
     publisher := Some {| publisherName := Some pub |};
     lastUpdated := None; publishedDate := None; extension_rest := [] |}.

Definition zeta : ExtensionRecord := named "zeta.tool" "zeta" "Xray".
Definition alpha : ExtensionRecord := named "alpha.tool" "alpha" "Yankee".

(** A record whose [extensionId] has an upper-case letter. *)
Definition shouting : ExtensionRecord := named "ABC-1" "alpha" "Shouting".

(** A document with named statistics, [install] twice. *)
Definition rated_doc : ExtensionRecord :=
  {| identity := Some "pub.rated"; versions := Some [Sample.vrec "1.0.0" None];
     statistics := Some [ {| statisticName := Some "install";
                             statisticValue := Some 7%Z |};
                          {| statisticName := Some "trendingdaily";
                             statisticValue := Some 3%Z |};
                          {| statisticName := Some "install";
                             statisticValue := Some 9%Z |} ];
     stats := None; extensionId := Some "pub.rated"; displayName := None;
     shortDescription := None; recommended := None; publisher := None;
     lastUpdated := None; publishedDate := None; extension_rest := [] |}.

Definition rated : ExtensionRecord :=
  match process_loaded_extension rated_doc Sample.ext_path with
  | Ok e => e
  | Raise _ => rated_doc
  end.

(** A snapshot, as a cache file may hold it, with a record that was never
    processed: it has no [stats]. *)
Definition with_bare : VSCGallery :=
  Sample.gallery [("pub.a", Sample.A);
                  ("pub.bare", Sample.doc "pub.bare" [Sample.vrec "1.0.0" None])].

(** A snapshot with a record that has no [extensionId]. *)
Definition noid : ExtensionRecord :=
  {| identity := Some "pub.noid"; versions := Some [Sample.vrec "1.0.0" None];
     statistics := None; stats := Some default_stats;
     extensionId := None; displayName := None;
     shortDescription := None; recommended := None;
     publisher := None; lastUpdated := None;
     publishedDate := None; extension_rest := [] |}.

Definition with_noid : VSCGallery :=
  Sample.gallery [("pub.a", Sample.A); ("pub.noid", noid)].

(** The criteria of a query as the editor sends it: one name, the target
    and the flags to exclude. *)
Definition editor_criteria : list Criterion :=
  [ Sample.crit FilterType.ExtensionName "doesnotexist";
    Sample.crit FilterType.Target "Microsoft.VisualStudio.Code";
    Sample.crit FilterType.ExcludeWithFlags "4096" ].

End Cases.

(** ** Directory listings: [vsc.Utility.folders_in_folder] and
       [files_in_folder] *)

(** What [entry.is_dir(follow_symlinks=False)] and
    [entry.is_file(follow_symlinks=False)] tell of an entry: a symbolic
    link, a socket or a device is neither. *)
Inductive entry_type : Type := Directory | RegularFile | OtherEntry.

Record DirEntry : Type := {
  entry_name : string;
  entry_is : entry_type
}.

Definition is_dir (t : entry_type) : bool :=
  match t with
  | Directory => true
  | _ => false
  end.

Definition is_file (t : entry_type) : bool :=
  match t with
  | RegularFile => true
  | _ => false
  end.

(** [limit and count >= limit]: no limit, or a limit of zero, never stops
    the scan. *)
Definition limit_reached (limit : option Z) (count : Z) : bool :=
  match limit with
  | Some n => negb (n =? 0)%Z && (n <=? count)%Z
  | None => false
  end.

(** The loop over the entries: the names of the wanted entries in listing
    order, until the limit is reached. *)
Fixpoint scan_names (wanted : entry_type -> bool) (limit : option Z)
    (entries : list DirEntry) (names : list string) (count : Z)
  : list string :=
  match entries with
  | [] => names
  | entry :: rest =>
      if wanted (entry_is entry) then
        let names := names ++ [entry_name entry] in
        let count := (count + 1)%Z in
        if limit_reached limit count then names
        else scan_names wanted limit rest names count
      else scan_names wanted limit rest names count
  end.

Section Listing.

(** [os.scandir]: the entries of a directory in the order the system
    yields them ([None]: it raises [OSError]). *)
Variable scandir : string -> option (list DirEntry).

Definition folders_in_folder (filepath : string) (limit : option Z)
  : list string :=
  match scandir filepath with
  | Some entries =>
      list_sort String.leb false (scan_names is_dir limit entries [] 0%Z)
  | None => []
  end.

Definition files_in_folder (filepath : string) (limit : option Z)
  : list string :=
  match scandir filepath with
  | Some entries =>
      list_sort String.leb false (scan_names is_file limit entries [] 0%Z)
  | None => []
  end.

End Listing.

(** The names of the wanted entries of a listing, in listing order. *)
Definition names_of (wanted : entry_type -> bool) (entries : list DirEntry)
  : list string :=
  map entry_name (filter (fun entry => wanted (entry_is entry)) entries).

(** What a limit keeps of the names found: all of them without a limit or
    with the limit zero, the first [n] for a limit [n] of one or more, the
    first one for a negative limit. *)
Definition limited (limit : option Z) (names : list string) : list string :=
  match limit with
  | Some n =>
      if (n =? 0)%Z then names else firstn (Z.to_nat (Z.max 1 n)) names
  | None => names
  end.

(** ** The browse page: which items it shows

    The part of [VSCDirectoryBrowse.paginated_dir_browse_response] that
    scans the directory, filters it and cuts the page out (up to the
    assignment of [page_items]); the HTML built from these values is not
    modelled. *)

Inductive item_type : Type := folder | file.

(** [l[start:stop]] for integers of either sign. *)
Definition slice_bound (len i : Z) : Z :=
  if (i <? 0)%Z then Z.max (len + i) 0 else Z.min i len.

Definition py_slice {A : Type} (l : list A) (start stop : Z) : list A :=
  let len := Z.of_nat (List.length l) in
  let lo := slice_bound len start in
  let hi := slice_bound len stop in
  firstn (Z.to_nat (hi - lo)) (skipn (Z.to_nat lo) l).

Record BrowsePage : Type := {
  total_items : Z;
  total_pages : Z;
  page_items : list (string * item_type)
}.

Inductive paged : Type :=
| Page (p : BrowsePage)
| ZeroDivisionError.

Section Browse.

Variable scandir : string -> option (list DirEntry).

Definition all_items (path search_query : string)
  : list (string * item_type) :=
  let max_scan :=
    match search_query with
    | EmptyString => Some 100000%Z
    | _ => None
    end in
  let folders := folders_in_folder scandir path max_scan in
  let files := files_in_folder scandir path max_scan in
  let all_items :=
    map (fun item => (item, folder)) folders
    ++ map (fun item => (item, file))
         (filter (fun item => negb (item =? path)%string) files) in
  match search_query with
  | EmptyString => all_items
  | _ =>
      let search_lower := Str.lower search_query in
      filter (fun it => Str.contains search_lower (Str.lower (fst it)))
        all_items
  end.

Definition paginated_items (path : string) (page per_page : Z)
    (search_query : string) : paged :=
  let items := all_items path search_query in
  let total_items := Z.of_nat (List.length items) in
  if (per_page =? 0)%Z then ZeroDivisionError
  else
    let total_pages := ((total_items + per_page - 1) / per_page)%Z in
    let start_idx := ((page - 1) * per_page)%Z in
    let end_idx := (start_idx + per_page)%Z in
    Page {| total_items := total_items;
            total_pages := total_pages;
            page_items := py_slice items start_idx end_idx |}.

(** The items page [page] shows, none when the page cannot be computed. *)
Definition shown (path : string) (page per_page : Z) (search_query : string)
  : list (string * item_type) :=
  match paginated_items path page per_page search_query with
  | Page p => page_items p
  | ZeroDivisionError => []
  end.

End Browse.

(** ** The update endpoints: [VSCUpdater] and [VSCBinaryFromCommitId] *)

(** [os.path.join] of two components, POSIX. *)
Definition ends_with_slash (s : string) : bool :=
  match String.get (String.length s - 1) s with
  | Some c => Ascii.eqb c "/"%char
  | None => false
  end.

Definition path_join (a b : string) : string :=
  if String.prefix "/" b then b
  else if (a =? "")%string || ends_with_slash a then (a ++ b)%string
  else (a ++ "/" ++ b)%string.

Module Installers.

(** The document [latest.json] or [<commit>.json] of a build directory. *)
Record UpdateInfo : Type := {
  version : option string;
  name : option string;
  sha256hash : option string;
  url : option string;
  rest : members
}.

Definition set_url (u : UpdateInfo) (v : string) : UpdateInfo :=
  {| version := version u; name := name u; sha256hash := sha256hash u;
     url := Some v; rest := rest u |}.

(** The installers tree: which paths exist, what [load_json] makes of a
    file, what [pathlib.Path.glob] yields for a directory and a pattern
    (absolute paths, in the order of the system), and the SHA-256 digest of
    a file in hexadecimal ([None]: the file cannot be opened). *)
Record Tree : Type := {
  path_exists : string -> bool;
  json_at : string -> file_state UpdateInfo;
  glob : string -> string -> list string;
  sha256_of : string -> option string
}.

Inductive http_status : Type :=
| HTTP_200 | HTTP_204 | HTTP_302 | HTTP_403 | HTTP_404 | HTTP_500.

Record Response : Type := {
  status : http_status;
  content : option string;
  media : option UpdateInfo;
  location : option string
}.

Definition respond (s : http_status) (c : option string) : Response :=
  {| status := s; content := c; media := None; location := None |}.

Section Endpoints.

(** [vsc.ARTIFACTS_INSTALLERS], and the order of [pathlib] paths. *)
Variable ARTIFACTS_INSTALLERS : string.
Variable path_le : string -> string -> bool.

Definition hash_file_and_check (tree : Tree) (filepath expectedchecksum : string)
  : result bool :=
  digest <- os_call (sha256_of tree filepath) ;;
  Ok (expectedchecksum =? digest)%string.

Definition first_file (tree : Tree) (filepath pattern : string)
    (reverse : bool) : option string :=
  match glob tree filepath pattern with
  | [] => None
  | results =>
      let results :=
        if reverse then list_sort path_le true results else results in
      hd_error results
  end.

Definition updatedir (platform buildquality : string) : string :=
  path_join (path_join ARTIFACTS_INSTALLERS platform) buildquality.

(** [VSCUpdater.on_get]. *)
Definition update_on_get (tree : Tree)
    (platform buildquality commitid : string) : result Response :=
  let dir := updatedir platform buildquality in
  if negb (path_exists tree dir) then Ok (respond HTTP_500 None)
  else
    latest <- load_json (json_at tree (path_join dir "latest.json")) ;;
    match latest with
    | None => Ok (respond HTTP_500 (Some "Unable to load latest.json"))
    | Some latest =>
        v <- member (version latest) ;;
        if (v =? commitid)%string then Ok (respond HTTP_204 None)
        else
          n <- member (name latest) ;;
          match first_file tree dir ("vscode-" ++ n ++ ".*")%string false with
          | None => Ok (respond HTTP_404 (Some "Unable to find update payload"))
          | Some updatepath =>
              expected <- member (sha256hash latest) ;;
              same <- hash_file_and_check tree updatepath expected ;;
              if negb same then
                Ok (respond HTTP_403 (Some "Update payload hash mismatch"))
              else
                Ok {| status := HTTP_200; content := None;
                      media := Some (set_url latest
                                       (URLROOT ++ updatepath)%string);
                      location := None |}
          end
    end.

(** [VSCBinaryFromCommitId.on_get]. *)
Definition binary_on_get (tree : Tree)
    (commitid platform buildquality : string) : result Response :=
  let dir := updatedir platform buildquality in
  if negb (path_exists tree dir) then Ok (respond HTTP_500 None)
  else
    let jsonpath := path_join dir (commitid ++ ".json")%string in
    updatejson <- load_json (json_at tree jsonpath) ;;
    match updatejson with
    | None =>
        Ok (respond HTTP_500 (Some ("Unable to load " ++ jsonpath)%string))
    | Some updatejson =>
        n <- member (name updatejson) ;;
        match first_file tree dir ("vscode-" ++ n ++ ".*")%string false with
        | None =>
            Ok (respond HTTP_404
                  (Some ("Unable to find update payload from " ++ dir
                         ++ "/vscode-" ++ n ++ ".*")%string))
        | Some updatepath =>
            expected <- member (sha256hash updatejson) ;;
            same <- hash_file_and_check tree updatepath expected ;;
            if negb same then
              Ok (respond HTTP_403
                    (Some ("Update payload hash mismatch " ++ updatepath)%string))
            else
              Ok {| status := HTTP_302; content := None; media := None;
                    location := Some (URLROOT ++ updatepath)%string |}
        end
    end.

End Endpoints.

End Installers.

(** ** Sample directories and builds *)

Module Trees.

(** A directory with two files, two folders and a symbolic link. *)
Definition scandir (path : string) : option (list DirEntry) :=
  if (path =? "/artifacts")%string then
    Some [ {| entry_name := "b"; entry_is := RegularFile |};
           {| entry_name := "d"; entry_is := Directory |};
           {| entry_name := "link"; entry_is := OtherEntry |};
           {| entry_name := "a"; entry_is := RegularFile |};
           {| entry_name := "c"; entry_is := Directory |} ]
  else None.

(** A build directory for [linux-x64/stable] with one payload. *)
Definition latest : Installers.UpdateInfo :=
  {| Installers.version := Some "abc123";
     Installers.name := Some "1.90.0";
     Installers.sha256hash := Some "d1ce";
     Installers.url := None;
     Installers.rest := [] |}.

Definition dir : string := "/artifacts/installers/linux-x64/stable".

Definition payload : string :=
  "/artifacts/installers/linux-x64/stable/vscode-1.90.0.tar.gz".

Definition builds (digest : string) : Installers.Tree :=
  {| Installers.path_exists := fun p => (p =? dir)%string;
     Installers.json_at := fun p =>
       if (p =? dir ++ "/latest.json")%string
          || (p =? dir ++ "/abc123.json")%string
       then Loaded (Some latest) else Absent;
     Installers.glob := fun d pattern =>
       if (d =? dir)%string && (pattern =? "vscode-1.90.0.*")%string
       then [payload] else [];
     Installers.sha256_of := fun p =>
       if (p =? payload)%string then Some digest else None |}.

End Trees.

(** * Properties *)

(** ** The result monad *)

Lemma bind_Ok {A B : Type} (r : result A) (k : A -> result B) (b : B) :
  bind r k = Ok b -> exists a, r = Ok a /\ k a = Ok b.
Proof.
  destruct r as [a|e]; simpl; intros H; [exists a; auto | discriminate].
Qed.

Ltac inv_bind H :=
  let a := fresh "a" in
  let Ha := fresh "Ha" in
  apply bind_Ok in H; destruct H as (a & Ha & H).

(** ** Stable sorting *)

Section SortFacts.

Context {T : Type}.
Variable le : T -> T -> bool.
Hypothesis le_total : forall a b, le a b = true \/ le b a = true.
Hypothesis le_trans :
  forall a b c, le a b = true -> le b c = true -> le a c = true.

Lemma insert_sorted_perm x l : Permutation (insert_sorted le x l) (x :: l).
Proof.
  induction l as [|y l IH]; simpl; [reflexivity|].
  destruct (le x y); [reflexivity|].
  rewrite IH. apply perm_swap.
Qed.

Lemma stable_sort_perm l : Permutation (stable_sort le l) l.
Proof.
  induction l as [|x l IH]; simpl; [reflexivity|].
  rewrite insert_sorted_perm. now constructor.
Qed.

Lemma insert_sorted_sorted x l :
  StronglySorted (fun a b => le a b = true) l ->
  StronglySorted (fun a b => le a b = true) (insert_sorted le x l).
Proof.
  induction 1 as [|y l Hs IH Hy]; simpl.
  - repeat constructor.
  - destruct (le x y) eqn:Hxy.
    + constructor; [now constructor|].
      constructor; [assumption|].
      rewrite Forall_forall in *. intros z Hz. eauto.
    + constructor; [assumption|].
      assert (Hyx : le y x = true)
        by (destruct (le_total x y); congruence).
      rewrite Forall_forall in *. intros z Hz.
      apply (Permutation_in _ (insert_sorted_perm x l)) in Hz.
      destruct Hz as [<-|Hz]; auto.
Qed.

Lemma stable_sort_sorted l :
  StronglySorted (fun a b => le a b = true) (stable_sort le l).
Proof.
  induction l; simpl; [constructor | now apply insert_sorted_sorted].
Qed.

Lemma filter_insert_sorted k x l :
  filter (tied le k) (insert_sorted le x l) = filter (tied le k) (x :: l).
Proof.
  induction l as [|y l IH]; [reflexivity|].
  cbn [insert_sorted]. destruct (le x y) eqn:Hxy; [reflexivity|].
  cbn [filter] in *. rewrite IH.
  destruct (tied le k x) eqn:Hx; [|reflexivity].
  destruct (tied le k y) eqn:Hy; [|reflexivity].
  unfold tied in Hx, Hy.
  apply andb_prop in Hx, Hy. destruct Hx as [Hkx Hxk], Hy as [Hky Hyk].
  rewrite (le_trans x k y) in Hxy; auto. discriminate.
Qed.

Lemma stable_sort_stable k l :
  filter (tied le k) (stable_sort le l) = filter (tied le k) l.
Proof.
  induction l as [|x l IH]; [reflexivity|].
  cbn [stable_sort]. rewrite filter_insert_sorted.
  cbn [filter]. now rewrite IH.
Qed.

Lemma StronglySorted_snoc (R : T -> T -> Prop) l x :
  StronglySorted R l -> Forall (fun y => R y x) l ->
  StronglySorted R (l ++ [x]).
Proof.
  induction 1 as [|y l Hs IH Hy]; intros Hall; simpl.
  - repeat constructor.
  - inversion Hall; subst. constructor; [auto|].
    apply Forall_app; split; [assumption | now constructor].
Qed.

Lemma StronglySorted_rev (R : T -> T -> Prop) l :
  StronglySorted R l -> StronglySorted (fun a b => R b a) (rev l).
Proof.
  induction 1 as [|y l Hs IH Hy]; simpl; [constructor|].
  apply StronglySorted_snoc; [assumption|].
  now apply Forall_rev.
Qed.

Lemma list_sort_perm reverse l : Permutation (list_sort le reverse l) l.
Proof.
  destruct reverse; simpl; [|apply stable_sort_perm].
  rewrite <- Permutation_rev, stable_sort_perm. symmetry. apply Permutation_rev.
Qed.

(** Ascending without [reverse], descending with it. *)
Lemma list_sort_sorted (reverse : bool) l :
  StronglySorted
    (fun a b => (if reverse then le b a else le a b) = true)
    (list_sort le reverse l).
Proof.
  destruct reverse; simpl; [|apply stable_sort_sorted].
  apply (StronglySorted_rev (fun a b => le a b = true)), stable_sort_sorted.
Qed.

(** Elements with tied keys keep the order they had in the input, in both
    directions. *)
Lemma list_sort_stable reverse k l :
  filter (tied le k) (list_sort le reverse l) = filter (tied le k) l.
Proof.
  destruct reverse; simpl; [|apply stable_sort_stable].
  rewrite filter_rev, stable_sort_stable, filter_rev. apply rev_involutive.
Qed.

End SortFacts.

Section SortedByFacts.

Context {A K : Type}.
Variable key : A -> result K.
Variable le : K -> K -> bool.
Hypothesis le_total : forall a b, le a b = true \/ le b a = true.
Hypothesis le_trans :
  forall a b c, le a b = true -> le b c = true -> le a c = true.

Lemma mapM_decorate l dl :
  mapM (decorate key) l = Ok dl ->
  map snd dl = l /\ Forall (fun p => key (snd p) = Ok (fst p)) dl.
Proof.
  revert dl. induction l as [|x l IH]; simpl; intros dl H.
  - inversion H; subst. split; constructor.
  - inv_bind H. inv_bind H. inversion H; subst; clear H.
    unfold decorate in Ha. inv_bind Ha. inversion Ha; subst; clear Ha.
    destruct (IH _ Ha0) as [E F]. simpl. split; [now rewrite E|].
    constructor; auto.
Qed.

Lemma mapM_decorate_total l :
  (forall a, In a l -> exists k, key a = Ok k) ->
  exists dl, mapM (decorate key) l = Ok dl.
Proof.
  induction l as [|x l IH]; simpl; intros H; [eauto|].
  destruct (H x) as [k Hk]; [auto|].
  destruct IH as [dl Hdl]; [auto|].
  unfold decorate at 1. rewrite Hk. simpl. rewrite Hdl. simpl. eauto.
Qed.

Lemma StronglySorted_map_in {X Y : Type} (f : X -> Y)
    (R : X -> X -> Prop) (R' : Y -> Y -> Prop) l :
  (forall a b, In a l -> In b l -> R a b -> R' (f a) (f b)) ->
  StronglySorted R l -> StronglySorted R' (map f l).
Proof.
  intros H Hs. induction Hs as [|x l Hs IH Hx]; simpl; constructor.
  - apply IH. intros a b Ha Hb. apply H; now right.
  - rewrite Forall_forall in *. intros y Hy.
    apply in_map_iff in Hy. destruct Hy as (z & <- & Hz).
    apply H; [now left | now right | auto].
Qed.

Lemma sorted_by_total reverse l :
  (forall a, In a l -> exists k, key a = Ok k) ->
  exists s, sorted_by key le reverse l = Ok s.
Proof.
  intros H. destruct (mapM_decorate_total l H) as [dl Hdl].
  unfold sorted_by. rewrite Hdl. simpl. eauto.
Qed.

Lemma sorted_by_keys reverse l s :
  sorted_by key le reverse l = Ok s ->
  forall a, In a l -> exists k, key a = Ok k.
Proof.
  unfold sorted_by. intros H. inv_bind H.
  destruct (mapM_decorate _ _ Ha) as [<- F]. intros x Hx.
  apply in_map_iff in Hx. destruct Hx as (p & <- & Hp).
  rewrite Forall_forall in F. eauto.
Qed.

Lemma sorted_by_perm reverse l s :
  sorted_by key le reverse l = Ok s -> Permutation s l.
Proof.
  unfold sorted_by. intros H. inv_bind H. inversion H; subst; clear H.
  destruct (mapM_decorate _ _ Ha) as [<- _].
  apply Permutation_map, list_sort_perm.
Qed.

Lemma sorted_by_sorted reverse l s :
  sorted_by key le reverse l = Ok s ->
  StronglySorted (key_le key le reverse) s.
Proof.
  unfold sorted_by. intros H. inv_bind H. inversion H; subst; clear H.
  destruct (mapM_decorate _ _ Ha) as [_ F].
  assert (F' : Forall (fun p => key (snd p) = Ok (fst p))
                 (list_sort (le_fst le) reverse a)).
  { rewrite Forall_forall in *. intros p Hp. apply F.
    eapply Permutation_in; [apply list_sort_perm | exact Hp]. }
  assert (Ht : forall p q : K * A,
             le_fst le p q = true \/ le_fst le q p = true)
    by (intros p q; apply le_total).
  assert (Htr : forall p q r : K * A,
             le_fst le p q = true -> le_fst le q r = true ->
             le_fst le p r = true)
    by (intros p q r; apply le_trans).
  eapply StronglySorted_map_in;
    [| apply (list_sort_sorted (le_fst le) Ht Htr)].
  rewrite Forall_forall in F'. intros p q Hp Hq Hpq.
  exists (fst p), (fst q). repeat split; auto.
Qed.

Lemma sorted_by_stable reverse l s k :
  sorted_by key le reverse l = Ok s ->
  filter (key_tied key le k) s = filter (key_tied key le k) l.
Proof.
  unfold sorted_by. intros H. inv_bind H. inversion H; subst; clear H.
  destruct (mapM_decorate _ _ Ha) as [<- F].
  destruct a as [|p0 a']; [destruct reverse; reflexivity|].
  set (dl := p0 :: a') in *. clearbody dl.
  rewrite !filter_map_swap. f_equal.
  assert (E : forall m, (forall p, In p m -> In p dl) ->
              filter (fun p => key_tied key le k (snd p)) m
              = filter (tied (le_fst le) (k, snd p0)) m).
  { intros m Hm. apply filter_ext_in. intros p Hp.
    rewrite Forall_forall in F. unfold key_tied.
    rewrite (F p (Hm p Hp)). reflexivity. }
  rewrite !E.
  - apply list_sort_stable.
    unfold le_fst. intros x y z. apply le_trans.
  - auto.
  - intros p Hp. eapply Permutation_in; [apply list_sort_perm | exact Hp].
Qed.

End SortedByFacts.

(** ** The metadata loader: merging sibling versions *)

Lemma scan_versions_step extensiondir latestversion entry rest acc :
  scan_versions extensiondir latestversion (entry :: rest) acc =
  match sibling_of extensiondir entry with
  | Passed => scan_versions extensiondir latestversion rest acc
  | Ends e => (acc, Some e)
  | Yields v0 =>
      scan_versions extensiondir latestversion rest
        (if differs_from latestversion v0 then acc ++ [v0] else acc)
  end.
Proof.
  unfold sibling_of, differs_from. cbn [scan_versions].
  destruct (vd_is_dir entry && negb (vd_name entry =? ".")%string);
    [|reflexivity].
  destruct (vd_extension_json entry) as [| |[vers|]]; cbn; try reflexivity.
  destruct (process_loaded_extension vers extensiondir) as [vers'|e];
    [|reflexivity].
  destruct (versions vers') as [[|v0 vs]|]; try reflexivity.
  destruct (VersionRecord_eq_dec latestversion v0); reflexivity.
Qed.

(** The loop gets through the entries before the first one that ends it,
    and appends what they yield unless it is the latest record. *)
Lemma scan_versions_reached extensiondir latestversion entries acc :
  scan_versions extensiondir latestversion entries acc =
  (acc ++ filter (differs_from latestversion)
            (flat_map (yielded extensiondir) (reached extensiondir entries)),
   ending extensiondir entries).
Proof.
  revert acc. induction entries as [|entry rest IH]; intros acc.
  - cbn. now rewrite app_nil_r.
  - rewrite scan_versions_step. cbn [reached ending].
    destruct (sibling_of extensiondir entry) as [|e|v0] eqn:Hs.
    + rewrite IH. cbn [flat_map]. unfold yielded at 2. now rewrite Hs.
    + cbn. now rewrite app_nil_r.
    + rewrite IH. cbn [flat_map]. unfold yielded at 2. rewrite Hs.
      cbn [app filter].
      destruct (differs_from latestversion v0); [|reflexivity].
      now rewrite <- app_assoc.
Qed.

Lemma reached_well_formed extensiondir entries :
  forallb (well_formed extensiondir) entries = true ->
  reached extensiondir entries = entries /\ ending extensiondir entries = None.
Proof.
  induction entries as [|entry rest IH]; intros H; [split; reflexivity|].
  cbn [forallb] in H. apply andb_prop in H. destruct H as [Hw Hrest].
  destruct (IH Hrest) as [Hr He]. cbn [reached ending].
  unfold well_formed in Hw.
  destruct (sibling_of extensiondir entry); try discriminate;
    now rewrite Hr, He.
Qed.

Lemma other_versions_reached extensiondir latestversion entries vs :
  other_versions extensiondir latestversion (Some entries) vs =
  match ending extensiondir entries with
  | None | Some OSError =>
      Ok (vs ++ filter (differs_from latestversion)
                  (flat_map (yielded extensiondir)
                     (reached extensiondir entries)))
  | Some e => Raise e
  end.
Proof.
  unfold other_versions. rewrite scan_versions_reached.
  destruct (ending extensiondir entries) as [[]|]; reflexivity.
Qed.

Lemma scan_versions_extends extensiondir latestversion entries acc :
  exists more,
    fst (scan_versions extensiondir latestversion entries acc) = acc ++ more.
Proof. rewrite scan_versions_reached. cbn [fst]. eauto. Qed.

Lemma other_versions_extends extensiondir latestversion listing vs vs' :
  other_versions extensiondir latestversion listing vs = Ok vs' ->
  exists more, vs' = vs ++ more.
Proof.
  destruct listing as [entries|].
  - rewrite other_versions_reached.
    destruct (ending extensiondir entries) as [[]|]; intros H;
      inversion H; subst; eauto.
  - intros H. inversion H; subst. exists []. now rewrite app_nil_r.
Qed.

Lemma differs_from_iff latestversion v0 :
  differs_from latestversion v0 = true <-> v0 <> latestversion.
Proof.
  unfold differs_from.
  destruct (VersionRecord_eq_dec latestversion v0); split; congruence.
Qed.

(** A sibling that ends the merge with another exception than [OSError]
    makes the loader drop the extension. *)
Lemma failed_sibling_drops_extension {V : Type}
    (Version : string -> option V) (Vle : V -> V -> bool)
    (d : ext_dir) (entries : list version_dir) (e : exn) :
  ed_entries d = Some entries ->
  ending (ed_path d) entries = Some e ->
  e <> OSError ->
  process_single_extension Version Vle d = None.
Proof.
  intros Hentries Hend Hne. unfold process_single_extension, discover_versions.
  destruct (load_json (ed_latest_json d)) as [[latest|]|]; cbn; try reflexivity.
  destruct (identity latest); [|reflexivity].
  destruct (versions latest) as [[|v vs]|]; try reflexivity.
  destruct (process_loaded_extension latest (ed_path d)) as [latest'|];
    cbn; [|reflexivity].
  destruct (versions latest') as [[|latestversion vs']|]; cbn;
    try reflexivity.
  rewrite Hentries, other_versions_reached, Hend.
  destruct e; try reflexivity. contradiction.
Qed.

(** C3 (amended): while the sibling directories of an extension are merged,
    the first version record of a sibling is left out exactly when it is
    equal, as a whole record with its resolved URIs, to the first version
    record of [latest.json]. The siblings are read in listing order up to
    the first one that fails: the first version record of every other
    sibling read before that point is appended, in listing order. A sibling
    whose [extension.json] cannot be opened ends the merge with what was
    appended so far, as an unlistable directory leaves only the versions of
    [latest.json]; a sibling that fails in another way (a member is
    missing, the versions list is empty) makes the loader drop the whole
    extension. *)
Theorem C3_sibling_excluded_iff_same_record {V : Type}
    (Version : string -> option V) (Vle : V -> V -> bool)
    (extensiondir : string) (latestversion : VersionRecord)
    (entries : list version_dir) (vs : list VersionRecord) :
  let read := reached extensiondir entries in
  let kept := filter (differs_from latestversion)
                (flat_map (yielded extensiondir) read) in
  other_versions extensiondir latestversion (Some entries) vs =
    match ending extensiondir entries with
    | None | Some OSError => Ok (vs ++ kept)
    | Some e => Raise e
    end /\
  (forall entry v0,
      In entry read -> sibling_of extensiondir entry = Yields v0 ->
      (In v0 kept <-> v0 <> latestversion)) /\
  (forallb (well_formed extensiondir) entries = true ->
   read = entries /\ ending extensiondir entries = None) /\
  other_versions extensiondir latestversion None vs = Ok vs /\
  (forall d e,
      ed_path d = extensiondir -> ed_entries d = Some entries ->
      ending extensiondir entries = Some e -> e <> OSError ->
      process_single_extension Version Vle d = None).
Proof.
  intros read kept. split; [apply other_versions_reached|].
  split; [|split; [apply reached_well_formed|split; [reflexivity|]]].
  - intros entry v0 Hin Hy. subst kept. rewrite filter_In, differs_from_iff.
    split; [tauto|]. intros Hne. split; [|assumption].
    apply in_flat_map. exists entry. split; [assumption|].
    unfold yielded. rewrite Hy. now left.
  - intros d e Hpath Hentries Hend Hne. subst extensiondir.
    eapply failed_sibling_drops_extension; eauto.
Qed.

Lemma C3_sibling_excluded_witness :
  other_versions Sample.ext_path Sample.v_1_0_0 (Some Sample.siblings)
    [Sample.v_1_0_0] = Ok [Sample.v_1_0_0; Sample.v_1_0; Sample.v_0_9_0].
Proof.
  exact (proj1 (C3_sibling_excluded_iff_same_record
                  Release.Version Release.le
                  Sample.ext_path Sample.v_1_0_0 Sample.siblings
                  [Sample.v_1_0_0])).
Defined.

(** C3 as stated fails: the sibling at version 1.0 is numerically equal to
    the latest version 1.0.0 and is appended all the same. *)
Lemma C3_numerically_equal_sibling_kept :
  version_key Release.Version Sample.v_1_0
    = version_key Release.Version Sample.v_1_0_0 /\
  other_versions Sample.ext_path Sample.v_1_0_0
    (Some [Sample.vdir "1.0" (Sample.doc "pub.ext" [Sample.vrec "1.0" None])])
    [Sample.v_1_0_0] = Ok [Sample.v_1_0_0; Sample.v_1_0].
Proof. split; reflexivity. Qed.

(** A sibling that cannot be opened ends the merge: the sibling after it
    is not appended although it loads. A sibling whose version has no
    [files] fails the whole extension. *)
Example siblings_after_a_failure :
  let good := Sample.vdir "0.9.0" (Sample.doc "pub.ext" [Sample.vrec "0.9.0" None]) in
  let locked := {| vd_name := "0.8.0"; vd_is_dir := true;
                   vd_extension_json := Unreadable |} in
  let bare := Sample.vdir "0.7.0"
                (Sample.doc "pub.ext"
                   [ {| version := Some "0.7.0"; targetPlatform := None;
                        files := None; assetUri := None;
                        fallbackAssetUri := None; version_rest := [] |} ]) in
  let latest := Sample.doc "pub.ext" [Sample.vrec "1.0.0" None] in
  other_versions Sample.ext_path Sample.v_1_0_0 (Some [locked; good])
    [Sample.v_1_0_0] = Ok [Sample.v_1_0_0] /\
  other_versions Sample.ext_path Sample.v_1_0_0 (Some [good; locked])
    [Sample.v_1_0_0] = Ok [Sample.v_1_0_0; Sample.v_0_9_0] /\
  other_versions Sample.ext_path Sample.v_1_0_0 (Some [good; bare])
    [Sample.v_1_0_0] = Raise KeyError /\
  process_single_extension Release.Version Release.le
    (Sample.edir Sample.ext_path latest [good; bare]) = None.
Proof. cbv zeta. repeat split; vm_compute; reflexivity. Qed.

(** ** Dicts *)

Section DictFacts.

Context {V : Type}.

Lemma in_dict_set (k : string) (v : V) (d : dict V) (item : string * V) :
  In item (dict_set k v d) -> item = (k, v) \/ In item d.
Proof.
  induction d as [|[k' v'] d IH]; simpl.
  - intros [<-|[]]. now left.
  - destruct (String.eqb k k') eqn:E; simpl.
    + apply String.eqb_eq in E. subst k'. intros [<-|H]; auto.
    + intros [<-|H]; auto. destruct (IH H); auto.
Qed.

Lemma in_dict_update (d b : dict V) (item : string * V) :
  In item (dict_update d b) -> In item d \/ In item b.
Proof.
  unfold dict_update. revert d.
  induction b as [|[k v] b IH]; simpl; intros d H; [now left|].
  destruct (IH _ H) as [H'|H']; [|now right; right].
  destruct (in_dict_set _ _ _ _ H') as [->|H'']; auto.
Qed.

Lemma dict_get_set_same (k : string) (v : V) (d : dict V) :
  dict_get k (dict_set k v d) = Some v.
Proof.
  induction d as [|[k' v'] d IH]; simpl.
  - now rewrite String.eqb_refl.
  - destruct (String.eqb k k') eqn:E; simpl; rewrite E; auto.
Qed.

Lemma dict_get_set_other (k k' : string) (v : V) (d : dict V) :
  k' <> k -> dict_get k' (dict_set k v d) = dict_get k' d.
Proof.
  intros Hne. induction d as [|[k0 v0] d IH]; simpl.
  - destruct (String.eqb k' k) eqn:E; [|reflexivity].
    apply String.eqb_eq in E. contradiction.
  - destruct (String.eqb k k0) eqn:E; simpl.
    + apply String.eqb_eq in E. subst k0.
      destruct (String.eqb k' k) eqn:E'; [|reflexivity].
      apply String.eqb_eq in E'. contradiction.
    + now rewrite IH.
Qed.

Lemma dict_get_update_keeps (d b : dict V) (k : string) :
  dict_get k d <> None -> dict_get k (dict_update d b) <> None.
Proof.
  unfold dict_update. revert d.
  induction b as [|[k' v] b IH]; simpl; intros d H; [assumption|].
  apply IH. destruct (string_dec k k') as [->|Hne].
  - rewrite dict_get_set_same. discriminate.
  - now rewrite dict_get_set_other.
Qed.

End DictFacts.

(** ** The metadata loader: what a loaded record looks like *)

Section LoaderFacts.

Context {V : Type}.
Variable Version : string -> option V.
Variable Vle : V -> V -> bool.
Hypothesis Vle_total : forall a b, Vle a b = true \/ Vle b a = true.
Hypothesis Vle_trans :
  forall a b c, Vle a b = true -> Vle b c = true -> Vle a c = true.

Lemma process_loaded_extension_inv extension extensiondir e :
  process_loaded_extension extension extensiondir = Ok e ->
  exists name vs vs' s,
    identity extension = Some name /\ versions extension = Some vs /\
    mapM (resolve_version (URLROOT ++ extensiondir)) vs = Ok vs' /\
    match statistics extension with
    | None | Some [] => s = default_stats
    | Some l =>
        exists items, mapM statistic_item l = Ok items /\
                      s = dict_update default_stats (dict_update [] items)
    end /\
    e = set_stats (set_versions extension vs') s.
Proof.
  unfold process_loaded_extension.
  destruct (identity extension) as [name|] eqn:Hid; [|discriminate].
  destruct (versions extension) as [vs|] eqn:Hvs; [|discriminate].
  cbn [member bind].
  destruct (mapM (resolve_version (URLROOT ++ extensiondir)) vs)
    as [vs'|] eqn:Hm; [|discriminate].
  cbn [bind statistics set_versions].
  destruct (statistics extension) as [[|st l]|] eqn:Hst; cbn [bind].
  - intros H. inversion H; subst; clear H.
    exists name, vs, vs', default_stats. auto.
  - unfold named_statistics.
    destruct (mapM statistic_item (st :: l)) as [items|] eqn:Hi;
      [|discriminate].
    cbn [bind]. intros H. inversion H; subst; clear H.
    exists name, vs, vs', (dict_update default_stats (dict_update [] items)).
    repeat split; eauto.
  - intros H. inversion H; subst; clear H.
    exists name, vs, vs', default_stats. auto.
Qed.

(** Every record that comes out of [process_loaded_extension] carries an
    install count. *)
Lemma process_loaded_extension_install extension extensiondir e :
  process_loaded_extension extension extensiondir = Ok e ->
  install_count e <> None.
Proof.
  intros H. apply process_loaded_extension_inv in H.
  destruct H as (name & vs & vs' & s & _ & _ & _ & Hform & ->).
  unfold install_count, stat_key. cbn [stats set_stats member bind].
  assert (Hget : dict_get "install" s <> None).
  { destruct (statistics extension) as [[|st l]|];
      [subst; discriminate | | subst; discriminate].
    destruct Hform as (items & _ & ->).
    apply dict_get_update_keeps. discriminate. }
  destruct (dict_get "install" s); [discriminate | contradiction].
Qed.

Lemma discover_versions_inv d latest discovered :
  discover_versions d = Ok (Some (latest, discovered)) ->
  discovered <> [] /\ identity latest <> None /\ install_count latest <> None.
Proof.
  unfold discover_versions. intros H. inv_bind H.
  destruct a as [doc|]; [|discriminate].
  destruct (identity doc); [|discriminate].
  destruct (versions doc) as [[|v vs]|]; try discriminate.
  inv_bind H. inv_bind H.
  destruct (process_loaded_extension_inv _ _ _ Ha0)
    as (name & vs0 & vs1 & st & Hid & _ & _ & _ & He).
  destruct a0 as [|latestversion vs']; [discriminate|].
  inv_bind H. inversion H; subst; clear H.
  apply other_versions_extends in Ha2. destruct Ha2 as [more ->].
  repeat split; [discriminate | cbn; congruence |].
  eapply process_loaded_extension_install; eauto.
Qed.

Lemma process_single_extension_inv d e :
  process_single_extension Version Vle d = Some e ->
  exists latest discovered sorted,
    discover_versions d = Ok (Some (latest, discovered)) /\
    sorted_by (version_key Version) Vle true discovered = Ok sorted /\
    e = set_versions latest sorted.
Proof.
  unfold process_single_extension.
  destruct (discover_versions d) as [[[latest discovered]|]|]; cbn;
    try discriminate.
  destruct (sorted_by (version_key Version) Vle true discovered)
    as [sorted|] eqn:Hs; cbn; [|discriminate].
  intros H. inversion H; subst. exists latest, discovered, sorted. auto.
Qed.

(** The versions of a record that [process_single_extension] returns:
    not empty, descending by parsed version, and a stable rearrangement
    of the versions in discovery order. *)
Lemma process_single_extension_versions d e :
  process_single_extension Version Vle d = Some e ->
  exists latest discovered vs,
    discover_versions d = Ok (Some (latest, discovered)) /\
    versions e = Some vs /\
    vs <> [] /\
    StronglySorted (key_le (version_key Version) Vle true) vs /\
    Permutation vs discovered /\
    (forall k, filter (key_tied (version_key Version) Vle k) vs
               = filter (key_tied (version_key Version) Vle k) discovered).
Proof.
  intros H. apply process_single_extension_inv in H.
  destruct H as (latest & discovered & sorted & Hd & Hs & ->).
  exists latest, discovered, sorted.
  destruct (discover_versions_inv _ _ _ Hd) as (Hne & _ & _).
  pose proof (sorted_by_perm _ _ _ _ _ Hs) as Hp.
  repeat split; auto.
  - intros ->. apply Permutation_nil in Hp. contradiction.
  - eapply sorted_by_sorted; eauto.
  - intros k. eapply sorted_by_stable; eauto.
Qed.

Lemma process_single_extension_identity d e :
  process_single_extension Version Vle d = Some e ->
  identity e <> None /\ install_count e <> None.
Proof.
  intros H. apply process_single_extension_inv in H.
  destruct H as (latest & discovered & sorted & Hd & _ & ->).
  destruct (discover_versions_inv _ _ _ Hd) as (_ & Hid & Hs). now split.
Qed.

End LoaderFacts.

(** ** The catalog builder *)

(** [load_cache] touches nothing but the snapshot. *)
Lemma load_cache_frame fs g :
  fst (load_cache fs g)
  = set_extensions g (extensions (fst (load_cache fs g))).
Proof.
  assert (E : g = set_extensions g (extensions g)) by now destruct g.
  unfold load_cache.
  destruct (newer_than (get_cache_mtime fs) (get_extensions_mtime fs)
            && cache_exists fs); [|exact E].
  destruct (fs_cache fs) as [[t [data|]]|]; cbn [fst]; try exact E.
  now destruct (snapshot_len _).
Qed.

(** When [load_cache] answers [False] the gallery is as it was, or its
    snapshot is a scalar that has no length. *)
Lemma load_cache_miss fs g :
  snd (load_cache fs g) = false ->
  load_cache fs g = (g, false) \/
  exists v, load_cache fs g = (set_extensions g (Scalar v), false) /\
            snapshot_len (Scalar v) = Raise TypeError.
Proof.
  unfold load_cache.
  destruct (newer_than (get_cache_mtime fs) (get_extensions_mtime fs)
            && cache_exists fs); [|now left].
  destruct (fs_cache fs) as [[t [data|]]|]; cbn [fst snd]; auto.
  cbn [extensions set_extensions].
  destruct data as [d|[ | | |]]; cbn; try discriminate; eauto.
Qed.

Lemma load_cache_miss_records fs g :
  snd (load_cache fs g) = false ->
  incl (records_of (extensions (fst (load_cache fs g))))
       (records_of (extensions g)).
Proof.
  intros H. destruct (load_cache_miss _ _ H) as [->|(v & -> & _)].
  - apply incl_refl.
  - intros item [].
Qed.

(** A miss that leaves a dict of records published leaves the gallery. *)
Lemma load_cache_miss_kept fs g old :
  snd (load_cache fs g) = false ->
  extensions (fst (load_cache fs g)) = Records old ->
  load_cache fs g = (g, false).
Proof.
  intros H Hold. destruct (load_cache_miss _ _ H) as [E|(v & E & _)];
    [exact E|]. rewrite E in Hold. discriminate.
Qed.

Section BuilderFacts.

Context {V : Type}.
Variable Version : string -> option V.
Variable Vle : V -> V -> bool.
Variable as_completed : list ext_dir -> list ext_dir.
Variable written : dict ExtensionRecord -> option cache_file.

Local Abbreviation built := (built_by Version Vle).
Local Abbreviation inv := (loop_inv Version Vle).
Local Abbreviation one := (complete_one Version Vle).
Local Abbreviation all := (complete_all Version Vle).
Local Abbreviation stp := (step Version Vle as_completed written).
Local Abbreviation runs := (run Version Vle as_completed written).
Local Abbreviation rebuild := (update_state Version Vle as_completed written).

Lemma complete_one_inv old futures total_extensions g L future :
  In future futures ->
  inv old futures g L ->
  inv old futures (fst (one total_extensions g L future))
                  (snd (one total_extensions g L future)).
Proof.
  intros Hin (Hnew & Hbatch & Hpub). unfold complete_one.
  destruct (process_single_extension Version Vle future) as [latest|] eqn:Hp;
    [|repeat split; cbn; auto].
  destruct (identity latest) as [name|] eqn:Hid;
    [|repeat split; cbn; auto].
  assert (Hb : built futures (name, latest))
    by (exists future; cbn; auto).
  assert (Hnew' : forall item,
             In item (dict_set name latest (new_extensions L)) ->
             built futures item).
  { intros item Hi. apply in_dict_set in Hi. destruct Hi as [->|Hi]; auto. }
  assert (Hbatch' : forall item,
             In item (dict_set name latest (batch_extensions L)) ->
             built futures item).
  { intros item Hi. apply in_dict_set in Hi. destruct Hi as [->|Hi]; auto. }
  cbv zeta.
  destruct ((batch_size <=? _)%nat || _); [|repeat split; cbn; auto].
  cbn [set_current set_progress extensions].
  destruct (extensions g) as [d|v] eqn:Hg; cbn [snapshot_update];
    [|repeat split; cbn; auto; rewrite Hg; intros item []].
  split; [|split]; cbn; auto; [intros item []|].
  intros item Hi. apply in_dict_update in Hi. destruct Hi as [Hi|Hi]; auto.
Qed.

Lemma complete_all_inv old futures total_extensions rest g L :
  incl rest futures ->
  inv old futures g L ->
  inv old futures (fst (all total_extensions rest g L))
                  (snd (all total_extensions rest g L)).
Proof.
  unfold complete_all. revert g L.
  induction rest as [|future rest IH]; intros g L Hincl Hinv; [exact Hinv|].
  cbn [fold_left fst snd].
  destruct (one total_extensions g L future) as [g' L'] eqn:E.
  apply IH.
  - intros d Hd. apply Hincl. now right.
  - pose proof (complete_one_inv old futures total_extensions g L future) as H.
    rewrite E in H. apply H; auto. apply Hincl. now left.
Qed.

Lemma step_inv fs0 g0 entries w p :
  fs_extensions fs0 = Some entries ->
  snd (load_cache fs0 g0) = false ->
  rebuild_inv Version Vle as_completed fs0 g0 entries w p ->
  rebuild_inv Version Vle as_completed fs0 g0 entries
    (fst (stp w p)) (snd (stp w p)).
Proof.
  intros Hfs Hmiss. destruct w as [fs g].
  destruct p as [| |total_extensions futures L|total_extensions L| |o];
    cbn [step rebuild_inv fst snd].
  - intros H. inversion H; subst.
    pose proof (load_cache_miss_records _ _ Hmiss) as Hr.
    destruct (load_cache fs0 g0) as [g1 hit]. cbn [snd] in Hmiss. subst hit.
    cbn. auto.
  - intros [-> Hg]. rewrite Hfs. cbn. split; [apply incl_refl|].
    repeat split; cbn; auto; try (intros item []).
  - intros [Hincl Hinv]. destruct futures as [|future rest]; [exact Hinv|].
    pose proof (complete_one_inv _ _ total_extensions g L future
                  (Hincl _ (or_introl eq_refl)) Hinv) as H.
    destruct (one total_extensions g L future) as [g' L']. cbn in *.
    split; [|exact H]. intros d Hd. apply Hincl. now right.
  - intros (Hnew & _ & _). cbn. exact Hnew.
  - intros H. exact H.
  - intros H. exact H.
Qed.

Lemma run_inv fs0 g0 entries n w p :
  fs_extensions fs0 = Some entries ->
  snd (load_cache fs0 g0) = false ->
  rebuild_inv Version Vle as_completed fs0 g0 entries w p ->
  rebuild_inv Version Vle as_completed fs0 g0 entries
    (fst (runs n w p)) (snd (runs n w p)).
Proof.
  intros Hfs Hmiss. revert w p.
  induction n as [|n IH]; intros w p H; [exact H|].
  cbn [run]. pose proof (step_inv _ _ _ _ _ Hfs Hmiss H) as H'.
  destruct (stp w p) as [w' p']. now apply IH.
Qed.

(** What a reader finds in the published map at any point of a rebuild. *)
Lemma rebuild_inv_published fs0 g0 entries w p :
  rebuild_inv Version Vle as_completed fs0 g0 entries w p ->
  forall item, In item (records_of (extensions (snd w))) ->
               In item (records_of (extensions g0)) \/
               built (as_completed (filter eligible entries)) item.
Proof.
  destruct p as [| |total_extensions futures L|total_extensions L| |[|e]];
    cbn [rebuild_inv].
  - intros -> item H. now left.
  - intros [_ Hg] item H. left. now apply Hg.
  - intros [_ (_ & _ & H)]. exact H.
  - intros (_ & _ & H). exact H.
  - intros H item Hi. right. auto.
  - intros H item Hi. right. auto.
  - intros [].
Qed.

(** *** The machine runs [update_state] *)

Lemma run_S n w p :
  runs (S n) w p = runs n (fst (stp w p)) (snd (stp w p)).
Proof. cbn [run]. now destruct (stp w p). Qed.

Lemma run_completions total_extensions futures fs g L n :
  runs (S (List.length futures + n)) (fs, g)
    (AtCompletion total_extensions futures L) =
  runs n (fs, fst (all total_extensions futures g L))
    (AtPublish total_extensions (snd (all total_extensions futures g L))).
Proof.
  revert g L. induction futures as [|future rest IH]; intros g L.
  - reflexivity.
  - cbn [List.length Nat.add]. rewrite run_S.
    unfold complete_all in *. cbn [fold_left fst snd step].
    destruct (one total_extensions g L future) as [g' L']. apply IH.
Qed.

Lemma run_finished n w o : runs n w (Finished o) = (w, Finished o).
Proof.
  induction n as [|n IH]; [reflexivity|].
  cbn [run step]. destruct w as [fs g]. apply IH.
Qed.

(** Enough steps complete the rebuild, in the world and with the outcome
    of [update_state]. *)
Lemma run_update_state w :
  exists n, forall m,
    runs (n + m) w AtLoadCache
    = (fst (rebuild w), Finished (snd (rebuild w))).
Proof.
  destruct w as [fs g]. unfold update_state.
  destruct (load_cache fs g) as [g1 hit] eqn:Hl.
  destruct hit.
  - exists 1. intros m. cbn [Nat.add]. rewrite run_S. cbn [step].
    rewrite Hl. apply run_finished.
  - destruct (fs_extensions fs) as [entries|] eqn:Hfs.
    + set (dirs := filter eligible entries).
      exists (2 + (S (List.length (as_completed dirs) + 2))). intros m.
      cbn [Nat.add]. rewrite run_S. cbn [step]. rewrite Hl. cbn [fst snd].
      rewrite run_S. cbn [step]. rewrite Hfs. cbn [fst snd]. fold dirs.
      rewrite <- Nat.add_assoc, run_completions.
      cbv zeta.
      cbn [set_progress set_indexing extensions loaded indexing
           indexing_progress].
      destruct (all (List.length dirs) (as_completed dirs) _ start_locals)
        as [g2 L2].
      cbn [Nat.add fst snd]. rewrite run_S. cbn [step fst snd].
      rewrite run_S. cbn [step fst snd]. apply run_finished.
    + exists 2. intros m. cbn [Nat.add]. rewrite run_S. cbn [step].
      rewrite Hl. cbn [fst snd]. rewrite run_S. cbn [step]. rewrite Hfs.
      apply run_finished.
Qed.

Lemma update_state_rebuild fs g entries :
  fs_extensions fs = Some entries ->
  snd (load_cache fs g) = false ->
  let dirs := filter eligible entries in
  let n := List.length dirs in
  let gL := all n (as_completed dirs)
              (set_progress (set_indexing (fst (load_cache fs g)) true)
                 {| current := 0; total := n; stage := processing |})
              start_locals in
  rebuild (fs, g) =
    ((save_cache written fs (publish n (fst gL) (snd gL)),
      finish (publish n (fst gL) (snd gL))), Returned).
Proof.
  intros Hfs Hmiss. unfold update_state.
  destruct (load_cache fs g) as [g1 hit]. cbn [fst snd] in *. subst hit.
  rewrite Hfs. cbv zeta.
  cbn [set_progress set_indexing extensions loaded indexing
       indexing_progress].
  destruct (all _ _ _ start_locals) as [g2 L2]. reflexivity.
Qed.

(** A rebuild ends with a dict of records published: the accumulated
    map. *)
Lemma update_state_records fs g entries :
  fs_extensions fs = Some entries ->
  snd (load_cache fs g) = false ->
  extensions (snd (fst (rebuild (fs, g))))
  = Records (new_extensions (snd (all (List.length (filter eligible entries))
       (as_completed (filter eligible entries))
       (set_progress (set_indexing (fst (load_cache fs g)) true)
          {| current := 0; total := List.length (filter eligible entries);
             stage := processing |})
       start_locals))).
Proof.
  intros Hfs Hmiss. rewrite (update_state_rebuild _ _ _ Hfs Hmiss).
  reflexivity.
Qed.

Lemma update_state_built fs g entries :
  fs_extensions fs = Some entries ->
  snd (load_cache fs g) = false ->
  forall item,
    In item (records_of (extensions (snd (fst (rebuild (fs, g)))))) ->
    built (as_completed (filter eligible entries)) item.
Proof.
  intros Hfs Hmiss item. rewrite (update_state_records _ _ _ Hfs Hmiss).
  cbn [records_of].
  apply (complete_all_inv (records_of (extensions (fst (load_cache fs g)))));
    [apply incl_refl|].
  repeat split; cbn; auto; intros i [].
Qed.

(** Every record of a snapshot published by a rebuild carries an install
    count: the default sort of a query never fails on it. *)
Lemma update_state_install fs g entries :
  fs_extensions fs = Some entries ->
  snd (load_cache fs g) = false ->
  forall name e,
    In (name, e) (records_of (extensions (snd (fst (rebuild (fs, g)))))) ->
    install_count e <> None.
Proof.
  intros Hfs Hmiss name e Hin.
  apply (update_state_built _ _ _ Hfs Hmiss) in Hin.
  destruct Hin as (d & _ & Hp & _).
  apply (process_single_extension_identity Version Vle _ _ Hp).
Qed.

End BuilderFacts.

(** ** Dicts: the last assignment wins, keys stay unique *)

Section AssignmentFacts.

Context {V : Type}.

Lemma last_assigned_from (k : string) (pairs : list (string * V))
    (acc : option V) :
  fold_left (fun acc kv => if String.eqb k (fst kv) then Some (snd kv) else acc)
    pairs acc
  = match last_assigned k pairs with
    | Some v => Some v
    | None => acc
    end.
Proof.
  unfold last_assigned. revert acc.
  induction pairs as [|[k' v'] pairs IH]; intros acc; [reflexivity|].
  cbn [fold_left fst snd]. rewrite IH. symmetry. rewrite IH.
  destruct (fold_left _ pairs None); [reflexivity|].
  now destruct (String.eqb k k').
Qed.

Lemma last_assigned_cons (k k' : string) (v' : V) pairs :
  last_assigned k ((k', v') :: pairs)
  = match last_assigned k pairs with
    | Some v => Some v
    | None => if String.eqb k k' then Some v' else None
    end.
Proof. unfold last_assigned at 1. cbn [fold_left fst snd]. apply last_assigned_from. Qed.

Lemma last_assigned_app (k : string) (a b : list (string * V)) :
  last_assigned k (a ++ b)
  = match last_assigned k b with
    | Some v => Some v
    | None => last_assigned k a
    end.
Proof.
  unfold last_assigned at 1. rewrite fold_left_app. apply last_assigned_from.
Qed.

Lemma dict_get_set (k k' : string) (v : V) (d : dict V) :
  dict_get k (dict_set k' v d)
  = if String.eqb k k' then Some v else dict_get k d.
Proof.
  destruct (String.eqb_spec k k') as [->|Hne].
  - apply dict_get_set_same.
  - now apply dict_get_set_other.
Qed.

(** Lookup after [d.update(b)]: the last item of [b] under the key, or
    else what [d] had. *)
Lemma dict_get_update (d b : dict V) (k : string) :
  dict_get k (dict_update d b)
  = match last_assigned k b with
    | Some v => Some v
    | None => dict_get k d
    end.
Proof.
  unfold dict_update. revert d.
  induction b as [|[k' v'] b IH]; intros d; [reflexivity|].
  cbn [fold_left fst snd]. rewrite IH, last_assigned_cons, dict_get_set.
  destruct (last_assigned k b); [reflexivity|].
  now destruct (String.eqb k k').
Qed.

Lemma dict_get_None (d : dict V) (k : string) :
  dict_get k d = None <-> ~ In k (dict_keys d).
Proof.
  induction d as [|[k' v'] d IH]; cbn; [tauto|].
  destruct (String.eqb_spec k k') as [->|Hne].
  - split; [discriminate | intros H; exfalso; apply H; now left].
  - rewrite IH. split; [intros H [E|H']; [congruence | contradiction] | tauto].
Qed.

Lemma dict_keys_set (k : string) (v : V) (d : dict V) :
  dict_keys (dict_set k v d)
  = match dict_get k d with
    | Some _ => dict_keys d
    | None => dict_keys d ++ [k]
    end.
Proof.
  unfold dict_keys. induction d as [|[k' v'] d IH]; cbn; [reflexivity|].
  destruct (String.eqb k k'); cbn; [reflexivity|].
  rewrite IH. now destruct (dict_get k d).
Qed.

Lemma dict_set_NoDup (k : string) (v : V) (d : dict V) :
  NoDup (dict_keys d) -> NoDup (dict_keys (dict_set k v d)).
Proof.
  intros H. rewrite dict_keys_set.
  destruct (dict_get k d) eqn:E; [assumption|].
  apply dict_get_None in E.
  apply NoDup_rev in H. rewrite <- (rev_involutive (dict_keys d ++ [k])).
  apply NoDup_rev. rewrite rev_app_distr. cbn. constructor; [|assumption].
  now rewrite <- in_rev.
Qed.

Lemma dict_update_NoDup (d b : dict V) :
  NoDup (dict_keys d) -> NoDup (dict_keys (dict_update d b)).
Proof.
  unfold dict_update. revert d.
  induction b as [|[k v] b IH]; intros d H; [assumption|].
  cbn [fold_left fst snd]. apply IH. now apply dict_set_NoDup.
Qed.

Lemma dict_update_app (d a b : dict V) :
  dict_update d (a ++ b) = dict_update (dict_update d a) b.
Proof. unfold dict_update. apply fold_left_app. Qed.

Lemma in_dict_keys_set (k k' : string) (v : V) (d : dict V) :
  In k (dict_keys (dict_set k' v d)) <-> k = k' \/ In k (dict_keys d).
Proof.
  rewrite dict_keys_set. destruct (dict_get k' d) eqn:E.
  - split; [tauto|]. intros [->|H]; [|assumption].
    destruct (in_dec string_dec k' (dict_keys d)) as [Hin|Hn]; [assumption|].
    apply dict_get_None in Hn. congruence.
  - rewrite in_app_iff. cbn. intuition congruence.
Qed.

Lemma in_dict_keys_update (d b : dict V) (k : string) :
  In k (dict_keys (dict_update d b)) <-> In k (dict_keys d) \/ In k (map fst b).
Proof.
  unfold dict_update. revert d.
  induction b as [|[k' v'] b IH]; intros d; cbn [fold_left map fst snd In].
  - tauto.
  - rewrite IH, in_dict_keys_set. intuition congruence.
Qed.

(** In a dict with unique keys, an item is what lookup of its key gives. *)
Lemma dict_get_In (d : dict V) (k : string) (v : V) :
  NoDup (dict_keys d) -> In (k, v) d -> dict_get k d = Some v.
Proof.
  induction d as [|[k' v'] d IH]; cbn; [tauto|].
  intros Hnd [E|Hin].
  - inversion E; subst. now rewrite String.eqb_refl.
  - inversion Hnd as [|? ? Hk Hd]; subst.
    destruct (String.eqb_spec k k') as [->|Hne]; [|auto].
    exfalso. apply Hk. change k' with (fst (k', v)). now apply in_map.
Qed.

Lemma dict_get_Some_In (d : dict V) (k : string) (v : V) :
  dict_get k d = Some v -> In (k, v) d.
Proof.
  induction d as [|[k' v'] d IH]; cbn; [discriminate|].
  destruct (String.eqb_spec k k') as [->|Hne].
  - intros H. inversion H. now left.
  - intros H. right. auto.
Qed.

Lemma dict_update_cons (d b : dict V) (k : string) (v : V) :
  dict_update d ((k, v) :: b) = dict_update (dict_set k v d) b.
Proof. reflexivity. Qed.

Lemma dict_update_snoc (d b : dict V) (k : string) (v : V) :
  dict_update d (b ++ [(k, v)]) = dict_set k v (dict_update d b).
Proof. now rewrite dict_update_app. Qed.

Lemma length_dict_set (k : string) (v : V) (d : dict V) :
  List.length (dict_set k v d)
  = match dict_get k d with
    | Some _ => List.length d
    | None => S (List.length d)
    end.
Proof.
  induction d as [|[k' v'] d IH]; cbn; [reflexivity|].
  destruct (String.eqb k k'); cbn; [reflexivity|].
  rewrite IH. now destruct (dict_get k d).
Qed.

Lemma dict_set_set (k : string) (v v' : V) (d : dict V) :
  dict_set k v (dict_set k v' d) = dict_set k v d.
Proof.
  induction d as [|[k0 v0] d IH]; cbn.
  - now rewrite String.eqb_refl.
  - destruct (String.eqb k k0) eqn:E; cbn; rewrite E; [reflexivity|].
    now rewrite IH.
Qed.

(** Two assignments to different keys commute when the first key is in
    the dict: no key changes place. *)
Lemma dict_set_comm (k k2 : string) (v v2 : V) (d : dict V) :
  k <> k2 -> dict_get k d <> None ->
  dict_set k v (dict_set k2 v2 d) = dict_set k2 v2 (dict_set k v d).
Proof.
  intros Hne. induction d as [|[k0 v0] d IH]; cbn; [congruence|].
  destruct (String.eqb_spec k k0) as [->|Hk0]; intros Hin.
  - destruct (String.eqb_spec k2 k0) as [->|H20]; [congruence|].
    cbn. rewrite String.eqb_refl.
    destruct (String.eqb_spec k2 k0); [congruence | reflexivity].
  - destruct (String.eqb_spec k2 k0) as [->|H20]; cbn.
    + destruct (String.eqb_spec k k0); [congruence|].
      now rewrite String.eqb_refl.
    + destruct (String.eqb_spec k k0); [congruence|].
      destruct (String.eqb_spec k2 k0); [congruence|].
      now rewrite IH.
Qed.

Lemma dict_set_update (k : string) (v : V) (d b : dict V) :
  ~ In k (dict_keys b) -> dict_get k d <> None ->
  dict_set k v (dict_update d b) = dict_update (dict_set k v d) b.
Proof.
  revert d. induction b as [|[k2 v2] b IH]; intros d Hk Hin; [reflexivity|].
  cbn in Hk. rewrite !dict_update_cons.
  rewrite IH.
  - rewrite dict_set_comm; auto.
  - tauto.
  - rewrite dict_get_set_other; auto.
Qed.

Lemma dict_update_set (k : string) (v : V) (d b : dict V) :
  NoDup (dict_keys b) ->
  dict_update d (dict_set k v b) = dict_set k v (dict_update d b).
Proof.
  revert d. induction b as [|[k0 v0] b IH]; intros d Hnd; [reflexivity|].
  inversion Hnd as [|? ? Hk0 Hb]; subst. cbn [dict_set].
  destruct (String.eqb_spec k k0) as [->|Hne].
  - rewrite !dict_update_cons.
    rewrite dict_set_update, dict_set_set; auto.
    rewrite dict_get_set_same. discriminate.
  - rewrite !dict_update_cons. now apply IH.
Qed.

(** Merging a batch is assigning its items one after the other. *)
Lemma dict_update_batch (d b c : dict V) :
  NoDup (dict_keys b) ->
  dict_update d (dict_update b c) = dict_update (dict_update d b) c.
Proof.
  revert b. induction c as [|[k v] c IH]; intros b Hnd; [reflexivity|].
  rewrite !dict_update_cons, IH by now apply dict_set_NoDup.
  now rewrite dict_update_set.
Qed.

End AssignmentFacts.

(** ** The accumulated map in closed form *)

Section SnapshotFacts.

Context {V : Type}.
Variable Version : string -> option V.
Variable Vle : V -> V -> bool.
Variable as_completed : list ext_dir -> list ext_dir.
Variable written : dict ExtensionRecord -> option cache_file.

Lemma complete_one_accumulates total_extensions g L future :
  new_extensions (snd (complete_one Version Vle total_extensions g L future))
  = dict_update (new_extensions L) (loaded_item Version Vle future).
Proof.
  unfold complete_one, loaded_item.
  destruct (process_single_extension Version Vle future) as [latest|];
    [|reflexivity].
  destruct (identity latest) as [name|]; [|reflexivity].
  cbv zeta. destruct (_ || _); [|reflexivity].
  destruct (snapshot_update _ _); reflexivity.
Qed.

Lemma complete_all_accumulates total_extensions futures g L :
  new_extensions (snd (complete_all Version Vle total_extensions futures g L))
  = dict_update (new_extensions L) (loaded_items Version Vle futures).
Proof.
  unfold complete_all, loaded_items. revert g L.
  induction futures as [|future rest IH]; intros g L; [reflexivity|].
  cbn [fold_left flat_map fst snd]. rewrite dict_update_app.
  rewrite <- complete_one_accumulates with (total_extensions := total_extensions)
                                           (g := g).
  destruct (complete_one Version Vle total_extensions g L future) as [g' L'].
  apply IH.
Qed.

Lemma update_state_accumulated fs g entries :
  fs_extensions fs = Some entries ->
  snd (load_cache fs g) = false ->
  extensions (snd (fst (update_state Version Vle as_completed written (fs, g))))
  = Records (dict_update [] (loaded_items Version Vle
                               (as_completed (filter eligible entries)))).
Proof.
  intros Hfs Hmiss.
  rewrite (update_state_records Version Vle as_completed written
             _ _ _ Hfs Hmiss).
  f_equal. apply complete_all_accumulates.
Qed.

Lemma in_loaded_items futures name e :
  In (name, e) (loaded_items Version Vle futures) <->
  exists d, In d futures /\
            process_single_extension Version Vle d = Some e /\
            identity e = Some name.
Proof.
  unfold loaded_items. rewrite in_flat_map. unfold loaded_item. split.
  - intros (d & Hd & Hin). exists d. split; [assumption|].
    destruct (process_single_extension Version Vle d) as [latest|]; [|easy].
    destruct (identity latest) as [n|] eqn:Hid; [|easy].
    destruct Hin as [E|[]]. inversion E; subst. auto.
  - intros (d & Hd & Hp & Hid). exists d. split; [assumption|].
    rewrite Hp, Hid. now left.
Qed.

End SnapshotFacts.

(** ** Release versions are totally ordered *)

Lemma Release_le_total (a b : list N) :
  Release.le a b = true \/ Release.le b a = true.
Proof.
  revert b. induction a as [|x a IH]; intros [|y b]; cbn; auto.
  destruct (N.ltb_spec x y), (N.ltb_spec y x); auto; try lia.
  assert (x = y) by lia. subst.
  rewrite N.eqb_refl. apply IH.
Qed.

Lemma Release_le_trans (a b c : list N) :
  Release.le a b = true -> Release.le b c = true -> Release.le a c = true.
Proof.
  revert b c. induction a as [|x a IH]; intros [|y b] [|z c]; cbn; auto;
    try discriminate.
  destruct (N.ltb_spec x y), (N.ltb_spec y z), (N.ltb_spec x z);
    auto; try lia;
    destruct (N.eqb_spec x y), (N.eqb_spec y z), (N.eqb_spec x z);
    auto; try lia; try discriminate.
  apply IH.
Qed.

(** ** The published snapshot *)

Section BatchFacts.

Context {V : Type}.
Variable Version : string -> option V.
Variable Vle : V -> V -> bool.
Variable as_completed : list ext_dir -> list ext_dir.
Variable written : dict ExtensionRecord -> option cache_file.

Local Abbreviation full :=
  (fun chunk : list (string * ExtensionRecord) =>
     List.length (dict_update [] chunk) = 100%nat).

Lemma loaded_items_snoc done future :
  loaded_items Version Vle (done ++ [future])
  = loaded_items Version Vle done ++ loaded_item Version Vle future.
Proof.
  unfold loaded_items. rewrite flat_map_app. cbn. now rewrite app_nil_r.
Qed.

Lemma concat_snoc {A : Type} (ls : list (list A)) (l : list A) :
  List.concat (ls ++ [l]) = List.concat ls ++ l.
Proof. rewrite concat_app. cbn. now rewrite app_nil_r. Qed.

Lemma last_future_done (done rest : list ext_dir) (future : ext_dir) :
  List.length (done ++ future :: rest) = List.length (done ++ [future]) ->
  rest = [].
Proof.
  rewrite !length_app. cbn. destruct rest; [reflexivity | cbn; lia].
Qed.

(** One completion keeps the batches: a record goes to the pending batch,
    which is merged and emptied when it has 100 records or the future is
    the last one. *)
Lemma complete_one_batches old futures total_extensions future rest g L :
  batches_inv Version Vle old futures total_extensions (future :: rest) g L ->
  batches_inv Version Vle old futures total_extensions rest
    (fst (complete_one Version Vle total_extensions g L future))
    (snd (complete_one Version Vle total_extensions g L future)).
Proof.
  intros (done & chunks & pending & Hf & Ht & Hc & Hl & Hg & Hb & Hlt & Hrl
          & Hfull & _).
  assert (Hfull' : Forall full chunks) by (apply Hfull; discriminate).
  assert (Hf' : futures = (done ++ [future]) ++ rest)
    by (rewrite <- app_assoc; exact Hf).
  assert (Hcount : S (processed_count L) = List.length (done ++ [future]))
    by (rewrite length_app, Hc; cbn; lia).
  assert (Hlast : forall done' d,
             done ++ [future] = done' ++ [d] -> d = future).
  { intros done' d E. apply app_inj_tail in E. now destruct E. }
  unfold complete_one.
  destruct (process_single_extension Version Vle future) as [latest|] eqn:Hp.
  - destruct (identity latest) as [name|] eqn:Hid.
    2:{ exfalso.
        destruct (process_single_extension_identity Version Vle _ _ Hp)
          as [Hi _]. contradiction. }
    cbv zeta.
    set (batch := dict_set name latest (batch_extensions L)).
    assert (Hbatch : batch = dict_update [] (pending ++ [(name, latest)]))
      by (subst batch; now rewrite dict_update_snoc, <- Hb).
    assert (Hle : (List.length batch <= 100)%nat).
    { subst batch. rewrite length_dict_set.
      destruct (dict_get name (batch_extensions L)); lia. }
    assert (Hitems : loaded_items Version Vle (done ++ [future])
                     = List.concat chunks ++ pending ++ [(name, latest)]).
    { rewrite loaded_items_snoc, Hl. unfold loaded_item.
      rewrite Hp, Hid. now rewrite <- app_assoc. }
    destruct ((batch_size <=? List.length batch)%nat
              || (S (processed_count L) =? total_extensions)%nat) eqn:Hcond.
    + cbn [set_current set_progress extensions]. rewrite Hg.
      cbn [snapshot_update fst snd].
      exists (done ++ [future]), (chunks ++ [pending ++ [(name, latest)]]),
        (@nil (string * ExtensionRecord)).
      split; [exact Hf'|]. split; [exact Ht|].
      split; [exact Hcount|].
      split; [now rewrite concat_snoc, app_nil_r|].
      split.
      { cbn [extensions set_extensions]. f_equal.
        rewrite concat_snoc, dict_update_app, Hbatch.
        rewrite dict_update_batch by constructor. reflexivity. }
      split; [reflexivity|]. split; [cbn; lia|].
      split; [now rewrite removelast_last|].
      split; [|reflexivity].
      intros Hrest. apply Forall_app. split; [exact Hfull'|].
      constructor; [|constructor]. rewrite <- Hbatch.
      apply orb_prop in Hcond. destruct Hcond as [H100|Hn].
      * apply Nat.leb_le in H100. unfold batch_size in H100. lia.
      * exfalso. apply Nat.eqb_eq in Hn. apply Hrest.
        apply (last_future_done done rest future).
        rewrite <- Hf, <- Ht, <- Hn. exact Hcount.
    + cbn [fst snd].
      apply orb_false_elim in Hcond. destruct Hcond as [H100 Hn].
      apply Nat.leb_gt in H100. unfold batch_size in H100.
      apply Nat.eqb_neq in Hn.
      exists (done ++ [future]), chunks, (pending ++ [(name, latest)]).
      split; [exact Hf'|]. split; [exact Ht|].
      split; [exact Hcount|].
      split; [exact Hitems|].
      split; [exact Hg|].
      split; [exact Hbatch|]. split; [exact H100|].
      split; [exact Hrl|].
      split; [intros _; exact Hfull'|].
      intros -> done' d _ _. exfalso. apply Hn.
      rewrite Ht, Hf', app_nil_r. exact Hcount.
  - cbn [fst snd].
    exists (done ++ [future]), chunks, pending.
    split; [exact Hf'|]. split; [exact Ht|].
    split; [exact Hcount|].
    split.
    { rewrite loaded_items_snoc, Hl. unfold loaded_item. rewrite Hp.
      now rewrite app_nil_r. }
    split; [exact Hg|].
    split; [exact Hb|]. split; [exact Hlt|].
    split; [exact Hrl|].
    split; [intros _; exact Hfull'|].
    intros _ done' d E Hd. apply Hlast in E. subst d. contradiction.
Qed.

Lemma step_flush fs0 g0 old entries w p :
  fs_extensions fs0 = Some entries ->
  load_cache fs0 g0 = (g0, false) ->
  extensions g0 = Records old ->
  List.length (as_completed (filter eligible entries))
  = List.length (filter eligible entries) ->
  flush_inv Version Vle as_completed fs0 g0 old entries w p ->
  flush_inv Version Vle as_completed fs0 g0 old entries
    (fst (step Version Vle as_completed written w p))
    (snd (step Version Vle as_completed written w p)).
Proof.
  intros Hfs Hmiss Hold Hlen. destruct w as [fs g].
  destruct p as [| |total_extensions futures L|total_extensions L| |o];
    cbn [step flush_inv fst snd]; try (intros _; exact I).
  - intros H. inversion H; subst. now rewrite Hmiss.
  - intros H. inversion H; subst. rewrite Hfs. cbn [fst snd flush_inv].
    exists (@nil ext_dir), (@nil (list (string * ExtensionRecord))),
      (@nil (string * ExtensionRecord)).
    cbn. repeat split; auto; try constructor; try lia.
  - destruct futures as [|future rest]; [intros _; exact I|].
    intros H. apply complete_one_batches in H.
    destruct (complete_one Version Vle total_extensions g L future)
      as [g' L']. exact H.
Qed.

Lemma run_flush fs0 g0 old entries k w p :
  fs_extensions fs0 = Some entries ->
  load_cache fs0 g0 = (g0, false) ->
  extensions g0 = Records old ->
  List.length (as_completed (filter eligible entries))
  = List.length (filter eligible entries) ->
  flush_inv Version Vle as_completed fs0 g0 old entries w p ->
  flush_inv Version Vle as_completed fs0 g0 old entries
    (fst (run Version Vle as_completed written k w p))
    (snd (run Version Vle as_completed written k w p)).
Proof.
  intros Hfs Hmiss Hold Hlen. revert w p.
  induction k as [|k IH]; intros w p H; [exact H|].
  cbn [run]. pose proof (step_flush _ _ _ _ _ _ Hfs Hmiss Hold Hlen H) as H'.
  destruct (step Version Vle as_completed written w p) as [w' p'].
  now apply IH.
Qed.

Lemma complete_one_scalar total_extensions g L future v :
  extensions g = Scalar v ->
  extensions (fst (complete_one Version Vle total_extensions g L future))
  = Scalar v.
Proof.
  intros Hg. unfold complete_one.
  destruct (process_single_extension Version Vle future) as [latest|];
    [|exact Hg].
  destruct (identity latest) as [name|]; [|exact Hg].
  cbv zeta. destruct (_ || _); [|exact Hg].
  cbn [set_current set_progress extensions]. rewrite Hg. exact Hg.
Qed.

Lemma run_scalar fs0 g0 v k w p :
  snd (load_cache fs0 g0) = false ->
  extensions (fst (load_cache fs0 g0)) = Scalar v ->
  scalar_inv fs0 g0 v w p ->
  scalar_inv fs0 g0 v
    (fst (run Version Vle as_completed written k w p))
    (snd (run Version Vle as_completed written k w p)).
Proof.
  intros Hmiss Hv. revert w p. induction k as [|k IH]; intros w p H;
    [exact H|].
  cbn [run].
  assert (H' : scalar_inv fs0 g0 v
                 (fst (step Version Vle as_completed written w p))
                 (snd (step Version Vle as_completed written w p))).
  { destruct w as [fs g].
    destruct p as [| |total_extensions futures L|total_extensions L| |o];
      cbn [step scalar_inv fst snd] in *; try exact I.
    - inversion H; subst.
      destruct (load_cache fs0 g0) as [g1 hit]. cbn [fst snd] in *.
      subst hit. exact Hv.
    - destruct (fs_extensions fs); [exact H | exact I].
    - destruct futures as [|future rest]; [exact I|].
      pose proof (complete_one_scalar total_extensions g L future v H) as Hc.
      destruct (complete_one Version Vle total_extensions g L future)
        as [g' L']. exact Hc. }
  destruct (step Version Vle as_completed written w p) as [w' p'].
  now apply IH.
Qed.

End BatchFacts.




(** C4: every record of a snapshot published by a rebuild has a versions
    list that is not empty, is sorted descending by parsed version, and is a
    stable rearrangement of the versions in the order they were discovered
    (versions with tied keys keep their discovery order). *)
Theorem C4_published_versions_sorted {V : Type}
    (Version : string -> option V) (Vle : V -> V -> bool)
    (Vle_total : forall a b, Vle a b = true \/ Vle b a = true)
    (Vle_trans : forall a b c,
        Vle a b = true -> Vle b c = true -> Vle a c = true)
    (as_completed : list ext_dir -> list ext_dir) (written : dict ExtensionRecord -> option cache_file)
    (fs : filesystem) (g : VSCGallery) (entries : list ext_dir) :
  fs_extensions fs = Some entries ->
  snd (load_cache fs g) = false ->
  exists published,
    extensions (snd (fst
      (update_state Version Vle as_completed written (fs, g))))
    = Records published /\
    forall name e,
      In (name, e) published ->
      exists d latest discovered vs,
        In d (as_completed (filter eligible entries)) /\
        discover_versions d = Ok (Some (latest, discovered)) /\
        versions e = Some vs /\
        vs <> [] /\
        StronglySorted (key_le (version_key Version) Vle true) vs /\
        Permutation vs discovered /\
        (forall k, filter (key_tied (version_key Version) Vle k) vs
                   = filter (key_tied (version_key Version) Vle k) discovered).
Proof.
  intros Hfs Hmiss.
  pose proof (update_state_accumulated Version Vle as_completed written
                _ _ _ Hfs Hmiss) as Hpub.
  eexists. split; [exact Hpub|]. intros name e Hin.
  pose proof (update_state_built Version Vle as_completed written
                _ _ _ Hfs Hmiss (name, e)) as Hb.
  rewrite Hpub in Hb. destruct (Hb Hin) as (d & Hd & Hp & _).
  cbn [fst snd] in Hp.
  destruct (process_single_extension_versions Version Vle Vle_total Vle_trans
              _ _ Hp) as (latest & discovered & vs & H).
  exists d, latest, discovered, vs. tauto.
Qed.

Lemma C4_published_versions_witness :
  exists d latest discovered vs,
    In d [Sample.pub_ext] /\
    discover_versions d = Ok (Some (latest, discovered)) /\
    versions Sample.pub_ext_record = Some vs /\
    vs <> [] /\
    StronglySorted
      (key_le (version_key Release.Version) Release.le true) vs /\
    Permutation vs discovered /\
    (forall k, filter (key_tied (version_key Release.Version) Release.le k) vs
               = filter (key_tied (version_key Release.Version) Release.le k)
                   discovered).
Proof.
  destruct (C4_published_versions_sorted Release.Version Release.le
              Release_le_total Release_le_trans Sample.in_order
              Sample.unwritten Sample.tree Sample.previous [Sample.pub_ext]
              eq_refl eq_refl) as (published & Hp & H).
  apply (H "pub.ext" Sample.pub_ext_record).
  assert (E : Records published = Records [("pub.ext", Sample.pub_ext_record)])
    by (rewrite <- Hp; reflexivity).
  inversion E. now left.
Defined.

(** The sample extension: versions 1.0.0 and 1.0 are tied and keep their
    discovery order, 0.9.0 comes last. *)
Example published_versions_of_sample :
  option_map (fun e => option_map (map version) (versions e))
    (process_single_extension Release.Version Release.le Sample.pub_ext)
  = Some (Some [Some "1.0.0"; Some "1.0"; Some "0.9.0"]).
Proof. vm_compute. reflexivity. Qed.

(** Versions discovered in the order 0.9.0, 1.0.0, 1.0, 2.0 are published
    newest first, the tied 1.0.0 and 1.0 in their discovery order. *)
Example sorted_versions_of_sample :
  sorted_by (version_key Release.Version) Release.le true
    [Sample.vrec "0.9.0" None; Sample.vrec "1.0.0" None;
     Sample.vrec "1.0" None; Sample.vrec "2.0" None]
  = Ok [Sample.vrec "2.0" None; Sample.vrec "1.0.0" None;
        Sample.vrec "1.0" None; Sample.vrec "0.9.0" None].
Proof. vm_compute. reflexivity. Qed.

(** A version string that does not parse fails the whole extension. *)
Example unparseable_version_fails_extension :
  process_single_extension Release.Version Release.le
    (Sample.edir Sample.ext_path
       (Sample.doc "pub.ext" [Sample.vrec "not-a-version" None]) [])
  = None.
Proof. vm_compute. reflexivity. Qed.

(** ** A failure to list the storage root *)

(** C8: when listing the extensions root raises a filesystem error, no cache
    is loaded, the rebuild ends with that error, and the published snapshot
    is the one from before the rebuild. *)
Theorem C8_root_listing_failure_keeps_snapshot {V : Type}
    (Version : string -> option V) (Vle : V -> V -> bool)
    (as_completed : list ext_dir -> list ext_dir) (written : dict ExtensionRecord -> option cache_file)
    (fs : filesystem) (g : VSCGallery) :
  fs_extensions fs = None ->
  load_cache fs g = (g, false) /\
  update_state Version Vle as_completed written (fs, g)
    = ((fs, set_indexing g true), Raised OSError) /\
  extensions (snd (fst (update_state Version Vle as_completed written (fs, g))))
    = extensions g.
Proof.
  intros Hfs.
  assert (Hl : load_cache fs g = (g, false)).
  { unfold load_cache, get_extensions_mtime. rewrite Hfs. reflexivity. }
  assert (Hu : update_state Version Vle as_completed written (fs, g)
               = ((fs, set_indexing g true), Raised OSError)).
  { unfold update_state. rewrite Hl, Hfs. reflexivity. }
  repeat split; auto. now rewrite Hu.
Qed.

Lemma C8_root_listing_failure_witness :
  update_state Release.Version Release.le Sample.in_order Sample.unwritten
    ({| fs_extensions := None; fs_cache := None |}, Sample.previous)
  = (({| fs_extensions := None; fs_cache := None |},
      set_indexing Sample.previous true), Raised OSError).
Proof.
  exact (proj1 (proj2 (C8_root_listing_failure_keeps_snapshot
                         Release.Version Release.le Sample.in_order Sample.unwritten
                         {| fs_extensions := None; fs_cache := None |}
                         Sample.previous eq_refl))).
Defined.

(** ** Triggers while a rebuild is running *)

Lemma load_cache_indexing fs g b :
  load_cache fs (set_indexing g b)
  = (set_indexing (fst (load_cache fs g)) b, snd (load_cache fs g)).
Proof.
  unfold load_cache.
  destruct (newer_than (get_cache_mtime fs) (get_extensions_mtime fs)
            && cache_exists fs); [|reflexivity].
  destruct (fs_cache fs) as [[t [data|]]|]; try reflexivity.
  cbn [extensions set_extensions]. destruct (snapshot_len data); reflexivity.
Qed.

(** C9 (amended): [update_state] has no in-progress guard. The change
    handler and the timer loop call it unconditionally, so a trigger that
    arrives while a rebuild is running starts a second, overlapping
    rebuild; the [indexing] event is set and cleared by a rebuild and never
    tested: a rebuild that starts while it is set does the same work. *)
Theorem C9_trigger_starts_overlapping_rebuild {V : Type}
    (Version : string -> option V) (Vle : V -> V -> bool)
    (as_completed : list ext_dir -> list ext_dir) (written : dict ExtensionRecord -> option cache_file)
    (fs : filesystem) (g : VSCGallery) (t : thread) (src_path : string) :
  rebuilding t = true ->
  Str.contains "updated.json" src_path = true ->
  (exists s',
      sys_step Version Vle as_completed written
        {| world := (fs, g); worker := t; observer := Waiting |} s' /\
      rebuilding (worker s') = true /\ rebuilding (observer s') = true) /\
  (exists s',
      sys_step Version Vle as_completed written
        {| world := (fs, g); worker := Waiting; observer := t |} s' /\
      rebuilding (worker s') = true /\ rebuilding (observer s') = true) /\
  (forall b,
      snd (load_cache fs g) = false ->
      update_state Version Vle as_completed written (fs, set_indexing g b)
      = update_state Version Vle as_completed written (fs, g)).
Proof.
  intros Ht Hsrc. repeat split.
  - eexists. split; [eapply observer_event; eassumption|]. cbn. auto.
  - eexists. split; [apply worker_tick|]. cbn. auto.
  - intros b Hmiss. unfold update_state. rewrite load_cache_indexing.
    destruct (load_cache fs g) as [g1 hit]. cbn [fst snd] in *. subst hit.
    reflexivity.
Qed.

Lemma C9_trigger_witness :
  exists s',
    sys_step Release.Version Release.le Sample.in_order Sample.unwritten
      {| world := (Sample.tree, Sample.previous);
         worker := Rebuilding AtScan; observer := Waiting |} s' /\
    rebuilding (worker s') = true /\ rebuilding (observer s') = true.
Proof.
  exact (proj1 (C9_trigger_starts_overlapping_rebuild
                  Release.Version Release.le Sample.in_order Sample.unwritten
                  Sample.tree Sample.previous (Rebuilding AtScan)
                  "/artifacts/updated.json" eq_refl eq_refl)).
Defined.

(** C9 as stated fails: from the state in which both threads wait, the
    worker starts a rebuild and reaches the completion loop; an
    [updated.json] event then makes the observer start a second rebuild,
    which reaches the completion loop while the first is still in it. *)
Lemma C9_overlapping_rebuilds_reachable :
  exists s,
    reachable Release.Version Release.le Sample.in_order Sample.unwritten
      {| world := (Sample.tree, Sample.previous);
         worker := Waiting; observer := Waiting |} s /\
    (exists n fw Lw fo Lo,
        worker s = Rebuilding (AtCompletion n fw Lw) /\
        observer s = Rebuilding (AtCompletion n fo Lo)) /\
    rebuilding (worker s) = true /\ rebuilding (observer s) = true.
Proof.
  eexists. split.
  - eapply reach_step; [eapply reach_step; [eapply reach_step;
      [eapply reach_step; [eapply reach_step; [eapply reach_step;
        [apply reach_refl|]|]|]|]|]|].
    + apply worker_tick.
    + eapply worker_step; [intros r; discriminate | reflexivity].
    + eapply worker_step; [intros r; discriminate | reflexivity].
    + apply (observer_event _ _ _ _ _ _ "/artifacts/updated.json").
      reflexivity.
    + eapply observer_step; [intros r; discriminate | reflexivity].
    + eapply observer_step; [intros r; discriminate | reflexivity].
  - cbn. split; [|split; reflexivity]. repeat eexists.
Qed.

(** ** The cache store *)

Lemma stattable_file entry :
  ed_is_dir entry = false -> stattable entry /\ forall t, older_than t entry.
Proof.
  intros H. split; [|intros t]; intros H'; congruence.
Qed.

(** The loop of [get_extensions_mtime] either raises, when some directory
    or marker cannot be statted, or returns the largest of [max_mtime] and
    the modification times of the directories and their markers. *)
Lemma scan_mtime_cases entries max_mtime :
  (Forall stattable entries /\
   exists m, scan_mtime entries max_mtime = Ok m /\
             forall t, (m < t)%Z <->
                       (max_mtime < t)%Z /\ Forall (older_than t) entries) \/
  (~ Forall stattable entries /\
   exists e, scan_mtime entries max_mtime = Raise e).
Proof.
  revert max_mtime. induction entries as [|entry rest IH]; intros m0.
  - left. split; [constructor|]. exists m0. split; [reflexivity|].
    intros t. split; [intros H; split; [assumption | constructor] | tauto].
  - cbn [scan_mtime].
    assert (Hrest : forall m1,
      stattable entry ->
      (forall t, (m1 < t)%Z <-> (m0 < t)%Z /\ older_than t entry) ->
      (Forall stattable (entry :: rest) /\
       exists m, scan_mtime rest m1 = Ok m /\
                 forall t, (m < t)%Z <->
                   (m0 < t)%Z /\ Forall (older_than t) (entry :: rest)) \/
      (~ Forall stattable (entry :: rest) /\
       exists e, scan_mtime rest m1 = Raise e)).
    { intros m1 Hs Hm. destruct (IH m1) as [[Hall (m & Hok & Ht)]|[Hn He]].
      - left. split; [now constructor|]. exists m. split; [assumption|].
        intros t. rewrite Ht, Hm, Forall_cons_iff. tauto.
      - right. split; [|assumption]. rewrite Forall_cons_iff. tauto. }
    destruct (ed_is_dir entry) eqn:Hdir.
    + destruct (ed_stat entry) as [s|] eqn:Hstat; cbn.
      * destruct (ed_updated_json entry) as [[u|]|] eqn:Hmark; cbn.
        -- apply Hrest.
           ++ intros _. split; congruence.
           ++ intros t. unfold older_than. rewrite Hstat, Hmark.
              split.
              ** intros H. split; [lia|]. intros _.
                 split; intros x Hx; inversion Hx; subst; lia.
              ** intros [H0 H]. destruct (H Hdir) as [H1 H2].
                 specialize (H1 _ eq_refl). specialize (H2 _ eq_refl). lia.
        -- right. split; [|eauto]. rewrite Forall_cons_iff.
           intros [H _]. destruct (H Hdir) as [_ H2]. congruence.
        -- apply Hrest.
           ++ intros _. split; congruence.
           ++ intros t. unfold older_than. rewrite Hstat, Hmark.
              split.
              ** intros H. split; [lia|]. intros _.
                 split; intros x Hx; inversion Hx; subst; lia.
              ** intros [H0 H]. destruct (H Hdir) as [H1 _].
                 specialize (H1 _ eq_refl). lia.
      * right. split; [|eauto]. rewrite Forall_cons_iff.
        intros [H _]. destruct (H Hdir) as [H1 _]. congruence.
    + destruct (stattable_file entry Hdir) as [Hs Ho].
      apply Hrest; [assumption|].
      intros t. specialize (Ho t). tauto.
Qed.

(** The source tree cannot be statted: listing the root raises, or some
    directory or marker file in it cannot be statted. *)
Lemma get_extensions_mtime_infinite fs :
  get_extensions_mtime fs = Infinity <->
  fs_extensions fs = None \/
  exists entries, fs_extensions fs = Some entries /\
                  ~ Forall stattable entries.
Proof.
  unfold get_extensions_mtime.
  destruct (fs_extensions fs) as [entries|]; cbn; [|tauto].
  destruct (scan_mtime_cases entries 0) as [[Hall (m & -> & _)]|[Hn [e ->]]].
  - split; [discriminate|]. intros [H|(l & H & Hl)]; [discriminate|].
    inversion H; subst. contradiction.
  - split; [|reflexivity]. intros _. right. eauto.
Qed.

Lemma fresh_cache_unique fs data data' :
  fresh_cache fs data -> fresh_cache fs data' -> data = data'.
Proof.
  intros (c & l & Hc & Hd & _) (c' & l' & Hc' & Hd' & _). congruence.
Qed.

Lemma load_cache_cases fs g :
  (exists data,
      fresh_cache fs data /\
      load_cache fs g = (set_extensions g data, sized data)) \/
  ((forall data, ~ fresh_cache fs data) /\ load_cache fs g = (g, false)).
Proof.
  unfold load_cache, get_cache_mtime, cache_exists, get_extensions_mtime,
    fresh_cache.
  destruct (fs_cache fs) as [[t data]|]; cbn.
  - destruct (fs_extensions fs) as [entries|]; cbn.
    + destruct (scan_mtime_cases entries 0)
        as [[Hall (m & -> & Ht)]|[Hn [e ->]]]; cbn.
      * destruct (Z.ltb_spec m t) as [Hlt|Hge]; cbn.
        -- apply Ht in Hlt. destruct Hlt as [H0 Hold].
           destruct data as [data|].
           ++ left. exists data. split.
              ** exists {| cache_mtime := t; cache_data := Some data |},
                   entries. cbn. auto 10.
              ** unfold sized. now destruct (snapshot_len data).
           ++ right. split; [|reflexivity].
              intros d (c & l & Hc & Hd & _).
              inversion Hc; subst. discriminate.
        -- right. split; [|reflexivity].
           intros d (c & l & Hc & Hd & Hl & _ & H0 & Hold).
           inversion Hc; subst. inversion Hl; subst. cbn in *.
           assert (m < t)%Z by (apply Ht; auto). lia.
      * right. split; [|reflexivity].
        intros d (c & l & _ & _ & Hl & Hall & _).
        inversion Hl; subst. contradiction.
    + right. split; [|reflexivity].
      intros d (c & l & _ & _ & Hl & _). discriminate.
  - right. rewrite andb_false_r. split; [|reflexivity].
    intros d (c & l & Hc & _). discriminate.
Qed.

(** C5 (amended): [load_cache] replaces the in-memory snapshot by what the
    cache file decodes to if and only if the cache file exists, the source
    tree can be statted, the cache file's modification time is strictly
    greater than zero and than the modification time of every extension
    directory and of every [updated.json] marker, and the cache file is
    read and decoded without error; otherwise the gallery is left as it is.
    It answers [True] only if, in addition, [len] can be taken of the
    decoded value: a cache file that decodes to [null], a number or a
    boolean replaces the snapshot and the answer is [False] all the same.
    A source tree that cannot be statted counts as infinitely recent, and
    the cache is not loaded. *)
Theorem C5_load_cache_iff_fresh_and_readable (fs : filesystem)
    (g : VSCGallery) :
  (forall data,
      fresh_cache fs data ->
      load_cache fs g = (set_extensions g data, sized data)) /\
  ((forall data, ~ fresh_cache fs data) -> load_cache fs g = (g, false)) /\
  (forall g',
      load_cache fs g = (g', true) <->
      exists data,
        fresh_cache fs data /\ sized data = true /\
        g' = set_extensions g data) /\
  (forall data,
      sized data = false <->
      exists v, data = Scalar v /\ forall t, v <> JString t) /\
  (get_extensions_mtime fs = Infinity -> load_cache fs g = (g, false)).
Proof.
  split; [|split; [|split; [|split]]].
  - intros data Hf.
    destruct (load_cache_cases fs g) as [(d & Hd & E)|[Hn _]].
    + now rewrite (fresh_cache_unique _ _ _ Hf Hd).
    + destruct (Hn _ Hf).
  - intros Hn.
    destruct (load_cache_cases fs g) as [(d & Hd & _)|[_ E]]; [|exact E].
    destruct (Hn _ Hd).
  - intros g'.
    destruct (load_cache_cases fs g) as [(d & Hd & E)|[Hn E]]; rewrite E.
    + split.
      * intros H. inversion H; subst. exists d. auto.
      * intros (d' & Hd' & Hs & ->).
        rewrite (fresh_cache_unique _ _ _ Hd Hd') in *. now rewrite Hs.
    + split; [discriminate|]. intros (d & Hd & _). destruct (Hn _ Hd).
  - intros data. unfold sized.
    destruct data as [d|[ | | |t]]; cbn; split;
      try discriminate; try reflexivity.
    + intros (v & E & _). discriminate.
    + intros _. exists JNull. split; [reflexivity | discriminate].
    + intros _. eexists. split; [reflexivity | discriminate].
    + intros _. eexists. split; [reflexivity | discriminate].
    + intros (v & E & Hv). inversion E; subst. destruct (Hv t eq_refl).
  - intros Hinf. unfold load_cache. rewrite Hinf. reflexivity.
Qed.

(** A cache file newer than the one extension directory is loaded; one that
    is as old as the directory is not. *)
Example load_cache_fresh_and_stale :
  let cached := Records [("pub.a", Sample.A)] in
  let fs t := {| fs_extensions := Some [Sample.pub_ext];
                 fs_cache := Some {| cache_mtime := t;
                                     cache_data := Some cached |} |} in
  load_cache (fs 6%Z) Sample.previous
    = (set_extensions Sample.previous cached, true) /\
  load_cache (fs 5%Z) Sample.previous = (Sample.previous, false).
Proof. cbv zeta. split; reflexivity. Qed.

(** A fresh cache file that holds [null]: the snapshot is replaced and the
    answer is [False]; the rebuild that follows merges no batch into it and
    ends by assigning the accumulated map. *)
Example load_cache_of_null :
  let fs := {| fs_extensions := Some [Sample.pub_ext];
               fs_cache := Some {| cache_mtime := 10;
                                   cache_data := Some (Scalar JNull) |} |} in
  load_cache fs Sample.previous
    = (set_extensions Sample.previous (Scalar JNull), false) /\
  extensions (snd (fst (run Release.Version Release.le Sample.in_order
                          Sample.unwritten 3 (fs, Sample.previous)
                          AtLoadCache)))
    = Scalar JNull /\
  extensions (snd (fst (update_state Release.Version Release.le
                          Sample.in_order Sample.unwritten
                          (fs, Sample.previous))))
    = Records [("pub.ext", Sample.pub_ext_record)].
Proof. cbv zeta. repeat split; vm_compute; reflexivity. Qed.

(** C5 as stated fails: a cache file that exists and is newer than every
    source, but cannot be read, is not loaded. *)
Lemma C5_fresh_unreadable_cache_not_loaded :
  let fs := {| fs_extensions := Some [Sample.pub_ext];
               fs_cache := Some {| cache_mtime := 10; cache_data := None |} |} in
  cache_exists fs = true /\
  get_cache_mtime fs = 10%Z /\
  get_extensions_mtime fs = Finite 5 /\
  load_cache fs Sample.previous = (Sample.previous, false).
Proof. cbv zeta. repeat split; reflexivity. Qed.

(** ** The query engine: filtering *)

Lemma select_ok test items acc found :
  select test items acc = Ok found ->
  found = acc ++ map snd
            (filter (fun item => match test (fst item) (snd item) with
                                 | Ok b => b
                                 | Raise _ => false
                                 end) items).
Proof.
  revert acc. induction items as [|[name ext] items IH]; cbn; intros acc H.
  - inversion H. now rewrite app_nil_r.
  - destruct (test name ext) as [[|]|e]; cbn in *; try discriminate.
    + rewrite (IH _ H). cbn. now rewrite <- app_assoc.
    + apply (IH _ H).
Qed.

Lemma matched_eq exts crit :
  matched exts crit =
  match criterion_test crit with
  | Some test =>
      map snd (filter (fun item => match test (fst item) (snd item) with
                                   | Ok b => b
                                   | Raise _ => false
                                   end) exts)
  | None => []
  end.
Proof.
  unfold matched, hits. destruct (criterion_test crit); [reflexivity|].
  induction exts; auto.
Qed.

Lemma apply_criterion_ok exts acc crit found :
  apply_criterion exts acc crit = Ok found ->
  found = acc ++ matched exts crit.
Proof.
  rewrite matched_eq. unfold apply_criterion, criterion_test.
  destruct (filterType crit) as [ft|];
    [|intros H; inversion H; now rewrite app_nil_r].
  destruct (value crit) as [v|];
    [|intros H; inversion H; now rewrite app_nil_r].
  cbv zeta. generalize (FilterType.of_value ft). clear ft. intros ft.
  repeat match goal with
         | |- context [(ft =? ?c)%Z] =>
             destruct (Z.eqb_spec ft c) as [->|?]; cbn
         end;
    try (intros H; inversion H; now rewrite app_nil_r);
    apply select_ok.
Qed.

Lemma apply_all_ok exts crits acc found :
  apply_all exts crits acc = Ok found ->
  found = acc ++ flat_map (matched exts) crits.
Proof.
  revert acc. induction crits as [|crit crits IH]; cbn; intros acc H.
  - inversion H. now rewrite app_nil_r.
  - inv_bind H. apply apply_criterion_ok in Ha. subst a.
    rewrite (IH _ H). now rewrite <- app_assoc.
Qed.

Lemma in_matched exts crits e :
  In e (flat_map (matched exts) crits) <->
  exists crit name,
    In crit crits /\ In (name, e) exts /\ hits crit (name, e) = true.
Proof.
  rewrite in_flat_map. unfold matched. split.
  - intros (crit & Hc & He). apply in_map_iff in He.
    destruct He as ([name e'] & <- & Hi). apply filter_In in Hi.
    exists crit, name. tauto.
  - intros (crit & name & Hc & Hi & Hh). exists crit. split; [assumption|].
    apply in_map_iff. exists (name, e). split; [reflexivity|].
    apply filter_In. tauto.
Qed.

(** A query is answered from a snapshot that is a dict of records: on
    anything else [copy] raises. *)
Lemma apply_criteria_records g crits found :
  _apply_criteria g crits = Ok found ->
  exists exts, extensions g = Records exts.
Proof.
  unfold _apply_criteria. destruct (extensions g) as [exts|v]; [eauto|].
  discriminate.
Qed.

Lemma apply_criteria_found g exts crits found :
  extensions g = Records exts ->
  _apply_criteria g crits = Ok found ->
  found = if (List.length (flat_map (matched exts) crits) <=? 0)%nat
             && (List.length crits <=? 2)%nat
          then filter is_recommended (dict_values exts)
          else flat_map (matched exts) crits.
Proof.
  unfold _apply_criteria. intros -> H. cbn [snapshot_copy bind] in H.
  inv_bind H. apply apply_all_ok in Ha. cbn in Ha. subst a.
  destruct (_ && _); now inversion H.
Qed.

Lemma apply_criteria_from_snapshot g exts crits found e :
  extensions g = Records exts ->
  _apply_criteria g crits = Ok found ->
  In e found -> exists name, In (name, e) exts.
Proof.
  intros Hg H Hin. rewrite (apply_criteria_found _ _ _ _ Hg H) in Hin.
  destruct (_ && _).
  - apply filter_In in Hin. destruct Hin as [Hin _].
    unfold dict_values in Hin. apply in_map_iff in Hin.
    destruct Hin as ([name e'] & <- & Hi). eauto.
  - apply in_matched in Hin. destruct Hin as (crit & name & _ & Hi & _). eauto.
Qed.

(** C2 (amended): the records a query returns are the concatenation, in
    the order of the criteria, of the match lists of its supported criteria
    (ExtensionId, ExtensionName and SearchText alike, the kind of a
    criterion being the member [vsc.FilterType] makes of its [filterType]):
    a record is found if and only if it satisfies at least one of them, and
    it appears once for each criterion it satisfies. Criteria are never
    intersected. (When nothing is found and there are at most two criteria,
    the recommended records are returned instead.) *)
Theorem C2_criteria_are_concatenated (g : VSCGallery)
    (crits : list Criterion) (returned : list ExtensionRecord) :
  _apply_criteria g crits = Ok returned ->
  exists exts,
    extensions g = Records exts /\
    let found := flat_map (matched exts) crits in
    returned = (if (List.length found <=? 0)%nat
                   && (List.length crits <=? 2)%nat
                then filter is_recommended (dict_values exts)
                else found) /\
    (forall e,
        In e found <->
        exists crit name,
          In crit crits /\ In (name, e) exts /\ hits crit (name, e) = true).
Proof.
  intros H. destruct (apply_criteria_records _ _ _ H) as [exts Hg].
  exists exts. split; [exact Hg|]. intros found. split.
  - now apply (apply_criteria_found g).
  - intros e. apply in_matched.
Qed.

Lemma C2_criteria_witness :
  exists exts,
    extensions Sample.catalog = Records exts /\
    let crits := [Sample.crit FilterType.ExtensionName "pub.a";
                  Sample.crit FilterType.SearchText "pub.b"] in
    let found := flat_map (matched exts) crits in
    [Sample.A; Sample.B]
    = (if (List.length found <=? 0)%nat && (List.length crits <=? 2)%nat
       then filter is_recommended (dict_values exts)
       else found) /\
    (forall e,
        In e found <->
        exists crit name,
          In crit crits /\ In (name, e) exts /\ hits crit (name, e) = true).
Proof.
  exact (C2_criteria_are_concatenated Sample.catalog
           [Sample.crit FilterType.ExtensionName "pub.a";
            Sample.crit FilterType.SearchText "pub.b"]
           [Sample.A; Sample.B] eq_refl).
Defined.

(** C2 as stated fails: with an ExtensionName criterion and a SearchText
    criterion, both records are returned although each satisfies only one
    of the two criteria. *)
Lemma C2_two_kinds_are_not_intersected :
  let by_name := Sample.crit FilterType.ExtensionName "pub.a" in
  let by_text := Sample.crit FilterType.SearchText "pub.b" in
  _apply_criteria Sample.catalog [by_name; by_text]
    = Ok [Sample.A; Sample.B] /\
  hits by_text ("pub.a", Sample.A) = false /\
  hits by_name ("pub.b", Sample.B) = false.
Proof. cbv zeta. repeat split; reflexivity. Qed.

(** The kind of a criterion is the member [vsc.FilterType] makes of its
    [filterType]: a non-negative integer stands for itself, and a negative
    one for the bits it stands for, so that -12 and -28 are ExtensionId
    criteria, while 20 (ExtensionId with a bit no member has) is of no
    kind. *)
Example filter_type_of_value :
  FilterType.of_value (-12) = FilterType.ExtensionId /\
  FilterType.of_value (-28) = FilterType.ExtensionId /\
  FilterType.of_value (-6) = FilterType.SearchText /\
  FilterType.of_value 20 = 20%Z /\
  FilterType.of_value 0 = 0%Z /\
  _apply_criteria Sample.catalog [Sample.crit (-12) "pub.b"] = Ok [Sample.B] /\
  _apply_criteria Sample.catalog [Sample.crit 20 "pub.b"]
  = Ok [Sample.A; Sample.C].
Proof. repeat split; vm_compute; reflexivity. Qed.

(** ** The query engine: the recommended fallback *)

Lemma in_recommended (exts : dict ExtensionRecord) e :
  In e (filter is_recommended (dict_values exts)) <->
  (exists name, In (name, e) exts) /\ recommended e = Some true.
Proof.
  rewrite filter_In. unfold dict_values, is_recommended.
  rewrite in_map_iff. split.
  - intros [([name e'] & <- & Hi) Hr]. split; [eauto|].
    cbn in *. destruct (recommended e') as [[|]|]; congruence.
  - intros [[name Hi] Hr]. split; [exists (name, e); auto|].
    now rewrite Hr.
Qed.

Lemma no_name_match (exts : dict ExtensionRecord) v acc :
  (forall name e, In (name, e) exts -> Str.lower name <> Str.lower v) ->
  select (test_ExtensionName (Str.lower v)) exts acc = Ok acc.
Proof.
  revert acc. induction exts as [|[name e] exts IH]; intros acc H;
    [reflexivity|].
  cbn. destruct (String.eqb_spec (Str.lower name) (Str.lower v)) as [E|_].
  - exfalso. apply (H name e); [now left | assumption].
  - apply IH. intros n e' Hi. apply (H n e'). now right.
Qed.

(** C6: when the criteria find nothing and there are at most two of them,
    the query returns exactly the records of the snapshot whose
    [recommended] flag is true; in particular a single ExtensionName
    criterion that names no extension returns the recommended records. *)
Theorem C6_fallback_returns_recommended (g : VSCGallery)
    (exts : dict ExtensionRecord) :
  extensions g = Records exts ->
  (forall crits,
      apply_all exts crits [] = Ok [] ->
      (List.length crits <= 2)%nat ->
      _apply_criteria g crits
        = Ok (filter is_recommended (dict_values exts))) /\
  (forall v,
      (forall name e, In (name, e) exts -> Str.lower name <> Str.lower v) ->
      _apply_criteria g [ {| filterType := Some FilterType.ExtensionName;
                             value := Some v |} ]
        = Ok (filter is_recommended (dict_values exts))) /\
  (forall e,
      In e (filter is_recommended (dict_values exts)) <->
      (exists name, In (name, e) exts) /\
      recommended e = Some true).
Proof.
  intros Hg. split; [|split].
  - intros crits Hnone Hlen. unfold _apply_criteria. rewrite Hg.
    cbn [snapshot_copy bind]. rewrite Hnone. cbn.
    apply Nat.leb_le in Hlen. now rewrite Hlen.
  - intros v Hv. unfold _apply_criteria. rewrite Hg. cbn.
    rewrite (no_name_match _ _ _ Hv). reflexivity.
  - intros e. apply in_recommended.
Qed.

Lemma C6_fallback_witness :
  _apply_criteria Sample.catalog
    [ {| filterType := Some FilterType.ExtensionName;
         value := Some "doesnotexist" |} ]
  = Ok [Sample.A; Sample.C].
Proof.
  exact (proj1 (C6_fallback_returns_recommended Sample.catalog
                  [("pub.a", Sample.A); ("pub.b", Sample.B);
                   ("pub.c", Sample.C)] eq_refl)
           [ {| filterType := Some FilterType.ExtensionName;
                value := Some "doesnotexist" |} ]
           eq_refl (le_S _ _ (le_n 1))).
Defined.

(** ** The query engine: sorting and the response *)

Lemma Zleb_total (a b : Z) : (a <=? b)%Z = true \/ (b <=? a)%Z = true.
Proof. rewrite !Z.leb_le. lia. Qed.

Lemma Zleb_trans (a b c : Z) :
  (a <=? b)%Z = true -> (b <=? c)%Z = true -> (a <=? c)%Z = true.
Proof. rewrite !Z.leb_le. lia. Qed.

Lemma StronglySorted_weaken {A : Type} (R R' : A -> A -> Prop) l :
  (forall a b, R a b -> R' a b) ->
  StronglySorted R l -> StronglySorted R' l.
Proof.
  intros H. induction 1 as [|x l Hs IH Hx]; constructor; auto.
  eapply Forall_impl; [|exact Hx]. auto.
Qed.

(** A record may stand before another when its install count is not
    smaller. *)
Lemma install_descending a b :
  key_le (stat_key "install") Z.leb true a b ->
  exists ia ib, install_count a = Some ia /\ install_count b = Some ib /\
                (ib <= ia)%Z.
Proof.
  intros (ka & kb & Ha & Hb & Hle). exists ka, kb. unfold install_count.
  rewrite Ha, Hb. apply Z.leb_le in Hle. auto.
Qed.

Lemma on_post_default dates g req f0 rest crits :
  filters req = Some (f0 :: rest) ->
  criteria f0 = Some crits ->
  flags req <> None ->
  sortBy f0 = None \/ sortBy f0 = Some SortBy.NoneOrRelevance ->
  on_post dates g req =
    (found <- _apply_criteria g crits ;;
     found <- sorted_by (stat_key "install") Z.leb true found ;;
     Ok (HTTP_200 (_build_response found))).
Proof.
  intros Hf Hc Hfl Hs. unfold on_post. rewrite Hf, Hc.
  destruct (flags req); [|contradiction].
  assert (Ht : truthy (sortBy f0) = None)
    by (destruct Hs as [->| ->]; reflexivity).
  rewrite Ht. reflexivity.
Qed.

(** C7: a query without a sort key, or with the key NoneOrRelevance,
    returns what the criteria select ordered by install count, largest
    first, whatever sort order it asks for; the records with install counts
    10, 50 and 30 come back as [B; C; A]. *)
Theorem C7_default_sort_is_install_descending :
  (forall (dates : string -> option Z) (g : VSCGallery) (req : Request)
          (f0 : Filter) (rest : list Filter) (crits : list Criterion)
          (found : list ExtensionRecord),
      filters req = Some (f0 :: rest) ->
      criteria f0 = Some crits ->
      flags req <> None ->
      sortBy f0 = None \/ sortBy f0 = Some SortBy.NoneOrRelevance ->
      (forall exts name e,
          extensions g = Records exts -> In (name, e) exts ->
          install_count e <> None) ->
      _apply_criteria g crits = Ok found ->
      exists sorted,
        on_post dates g req = Ok (HTTP_200 (_build_response sorted)) /\
        Permutation sorted found /\
        StronglySorted
          (fun a b => exists ia ib,
               install_count a = Some ia /\ install_count b = Some ib /\
               (ib <= ia)%Z) sorted) /\
  on_post Sample.no_dates Sample.catalog
    (Sample.query [Sample.crit FilterType.SearchText "pub"] None)
  = Ok (HTTP_200 (_build_response [Sample.B; Sample.C; Sample.A])).
Proof.
  split; [|reflexivity].
  intros dates g req f0 rest crits found Hf Hc Hfl Hs Hinst Hfound.
  rewrite (on_post_default dates g req f0 rest crits Hf Hc Hfl Hs), Hfound.
  cbn [bind].
  destruct (sorted_by_total (stat_key "install") Z.leb true found)
    as [sorted Hsorted].
  { intros e He.
    destruct (apply_criteria_records _ _ _ Hfound) as [exts Hg].
    destruct (apply_criteria_from_snapshot _ _ _ _ _ Hg Hfound He)
      as [name Hn].
    specialize (Hinst _ _ _ Hg Hn). unfold install_count in Hinst.
    destruct (stat_key "install" e); [eauto | congruence]. }
  exists sorted. rewrite Hsorted. cbn [bind]. split; [reflexivity|]. split.
  - eapply sorted_by_perm; eauto.
  - eapply StronglySorted_weaken; [apply install_descending|].
    eapply sorted_by_sorted; eauto using Zleb_total, Zleb_trans.
Qed.

Lemma C7_default_sort_witness :
  exists sorted,
    on_post Sample.no_dates Sample.catalog
      (Sample.query [Sample.crit FilterType.SearchText "pub"]
         (Some SortBy.NoneOrRelevance))
    = Ok (HTTP_200 (_build_response sorted)) /\
    Permutation sorted [Sample.A; Sample.B; Sample.C] /\
    StronglySorted
      (fun a b => exists ia ib,
           install_count a = Some ia /\ install_count b = Some ib /\
           (ib <= ia)%Z) sorted.
Proof.
  refine (proj1 C7_default_sort_is_install_descending Sample.no_dates
            Sample.catalog
            (Sample.query [Sample.crit FilterType.SearchText "pub"]
               (Some SortBy.NoneOrRelevance))
            {| criteria := Some [Sample.crit FilterType.SearchText "pub"];
               sortBy := Some SortBy.NoneOrRelevance; sortOrder := None |}
            [] [Sample.crit FilterType.SearchText "pub"]
            [Sample.A; Sample.B; Sample.C]
            eq_refl eq_refl _ (or_intror eq_refl) _ eq_refl).
  - discriminate.
  - intros exts name e Hg. inversion Hg; subst.
    intros [H|[H|[H|[]]]]; inversion H; subst; discriminate.
Defined.

(** C10: there is a snapshot and a query with two criteria that both match
    one extension for which the response lists that extension's record
    twice, and [TotalCount] is the length of the list with the duplicate. *)
Theorem C10_record_returned_once_per_matching_criterion :
  exists (g : VSCGallery) (exts : dict ExtensionRecord)
         (c1 c2 : Criterion) (name : string)
         (e : ExtensionRecord) (r : Envelope.Result)
         (meta : Envelope.ResultMetadata) (item : Envelope.MetadataItem),
    extensions g = Records exts /\
    In (name, e) exts /\
    hits c1 (name, e) = true /\ hits c2 (name, e) = true /\
    on_post Sample.no_dates g (Sample.query [c1; c2] None)
      = Ok (HTTP_200 {| Envelope.results := [r] |}) /\
    Envelope.extensions r = [e; e] /\
    Envelope.resultMetadata r = [meta] /\
    Envelope.metadataItems meta = [item] /\
    Envelope.name item = "TotalCount" /\
    Envelope.count item = 2 /\
    Envelope.count item = List.length (Envelope.extensions r).
Proof.
  exists Sample.catalog,
    [("pub.a", Sample.A); ("pub.b", Sample.B); ("pub.c", Sample.C)],
    (Sample.crit FilterType.ExtensionName "pub.a"),
    (Sample.crit FilterType.SearchText "pub.a"),
    "pub.a", Sample.A.
  do 3 eexists. split; [reflexivity|]. split; [now left|].
  split; [reflexivity|]. split; [reflexivity|].
  split; [reflexivity|]. cbn. repeat split.
Qed.

(** * Further properties *)

(** ** The published snapshot in closed form *)

(** X1: the snapshot a rebuild publishes is the dict obtained by assigning,
    in completion order, every record the loader returned under its
    identity: when two directories carry the same identity the one that
    completed last is published. *)
Theorem X1_snapshot_is_assignments_in_completion_order {V : Type}
    (Version : string -> option V) (Vle : V -> V -> bool)
    (as_completed : list ext_dir -> list ext_dir) (written : dict ExtensionRecord -> option cache_file)
    (fs : filesystem) (g : VSCGallery) (entries : list ext_dir) :
  fs_extensions fs = Some entries ->
  snd (load_cache fs g) = false ->
  let futures := as_completed (filter eligible entries) in
  let published := dict_update [] (loaded_items Version Vle futures) in
  extensions (snd (fst (update_state Version Vle as_completed written
                          (fs, g))))
  = Records published /\
  (forall name,
      dict_get name published
      = last_assigned name (loaded_items Version Vle futures)).
Proof.
  intros Hfs Hmiss futures published.
  split; [apply update_state_accumulated; assumption|].
  intros name. subst published. rewrite dict_get_update.
  now destruct (last_assigned name _).
Qed.

Lemma X1_snapshot_witness :
  extensions (snd (fst (update_state Release.Version Release.le
                          Sample.in_order Sample.unwritten
                          (Sample.tree, Sample.previous))))
  = Records [("pub.ext", Sample.pub_ext_record)].
Proof.
  exact (proj1 (X1_snapshot_is_assignments_in_completion_order
                  Release.Version Release.le Sample.in_order Sample.unwritten
                  Sample.tree Sample.previous [Sample.pub_ext]
                  eq_refl eq_refl)).
Defined.

(** X2: in a snapshot published by a rebuild the keys are pairwise
    distinct, every record is stored under its own identity, and looking a
    key up gives the record stored with it. *)
Theorem X2_snapshot_keys_unique {V : Type}
    (Version : string -> option V) (Vle : V -> V -> bool)
    (as_completed : list ext_dir -> list ext_dir) (written : dict ExtensionRecord -> option cache_file)
    (fs : filesystem) (g : VSCGallery) (entries : list ext_dir) :
  fs_extensions fs = Some entries ->
  snd (load_cache fs g) = false ->
  exists published,
    extensions (snd (fst (update_state Version Vle as_completed written
                            (fs, g))))
    = Records published /\
    NoDup (dict_keys published) /\
    (forall name e,
        In (name, e) published ->
        identity e = Some name /\ dict_get name published = Some e).
Proof.
  intros Hfs Hmiss.
  pose proof (update_state_accumulated Version Vle as_completed written
                _ _ _ Hfs Hmiss) as Hpub.
  eexists. split; [exact Hpub|].
  assert (Hnd : NoDup (dict_keys (dict_update []
                 (loaded_items Version Vle
                    (as_completed (filter eligible entries))))))
    by (apply dict_update_NoDup; constructor).
  split; [exact Hnd|]. intros name e Hin. split.
  - pose proof (update_state_built Version Vle as_completed written
                  _ _ _ Hfs Hmiss (name, e)) as Hb.
    rewrite Hpub in Hb. destruct (Hb Hin) as (d & _ & _ & Hid). exact Hid.
  - now apply dict_get_In.
Qed.

Lemma X2_snapshot_keys_witness :
  let published := [("pub.ext", Sample.pub_ext_record)] in
  NoDup (dict_keys published) /\
  identity Sample.pub_ext_record = Some "pub.ext" /\
  dict_get "pub.ext" published = Some Sample.pub_ext_record.
Proof.
  destruct (X2_snapshot_keys_unique Release.Version Release.le
              Sample.in_order Sample.unwritten Sample.tree Sample.previous
              [Sample.pub_ext] eq_refl eq_refl) as (published & Hp & Hnd & H).
  assert (E : Records published = Records [("pub.ext", Sample.pub_ext_record)])
    by (rewrite <- Hp; reflexivity).
  inversion E; subst. cbv zeta. split; [exact Hnd|].
  exact (H "pub.ext" Sample.pub_ext_record (or_introl eq_refl)).
Defined.

(** X3: when [as_completed] yields every submitted future, the identities
    of a published snapshot are exactly the identities of the records the
    loader returns for the directories of the root that hold a
    [latest.json]. *)
Theorem X3_snapshot_identities {V : Type}
    (Version : string -> option V) (Vle : V -> V -> bool)
    (as_completed : list ext_dir -> list ext_dir) (written : dict ExtensionRecord -> option cache_file)
    (fs : filesystem) (g : VSCGallery) (entries : list ext_dir) :
  (forall l, Permutation (as_completed l) l) ->
  fs_extensions fs = Some entries ->
  snd (load_cache fs g) = false ->
  exists published,
    extensions (snd (fst
      (update_state Version Vle as_completed written (fs, g))))
    = Records published /\
    forall name,
      In name (dict_keys published) <->
      exists d e,
        In d entries /\ ed_is_dir d = true /\
        path_exists (ed_latest_json d) = true /\
        process_single_extension Version Vle d = Some e /\
        identity e = Some name.
Proof.
  intros Hperm Hfs Hmiss.
  eexists. split;
    [exact (update_state_accumulated Version Vle as_completed written
              _ _ _ Hfs Hmiss)|].
  intros name.
  rewrite in_dict_keys_update. cbn [dict_keys map In]. split.
  - intros [[]|Hin]. apply in_map_iff in Hin.
    destruct Hin as ([n e] & <- & Hin). apply in_loaded_items in Hin.
    destruct Hin as (d & Hd & Hp & Hid).
    apply (Permutation_in _ (Hperm _)) in Hd. apply filter_In in Hd.
    destruct Hd as [Hd He]. unfold eligible in He.
    apply andb_prop in He. destruct He. exists d, e. auto.
  - intros (d & e & Hd & Hdir & Hex & Hp & Hid). right.
    apply in_map_iff. exists (name, e). split; [reflexivity|].
    apply in_loaded_items. exists d. split; [|auto].
    apply (Permutation_in _ (Permutation_sym (Hperm _))).
    apply filter_In. split; [assumption|]. unfold eligible.
    now rewrite Hdir, Hex.
Qed.

Lemma X3_snapshot_identities_witness :
  In "pub.ext" (dict_keys [("pub.ext", Sample.pub_ext_record)]) <->
  exists d e,
    In d [Sample.pub_ext] /\ ed_is_dir d = true /\
    path_exists (ed_latest_json d) = true /\
    process_single_extension Release.Version Release.le d = Some e /\
    identity e = Some "pub.ext".
Proof.
  destruct (X3_snapshot_identities Release.Version Release.le Sample.in_order
              Sample.unwritten Sample.tree Sample.previous [Sample.pub_ext]
              (fun l => Permutation_refl l) eq_refl eq_refl)
    as (published & Hp & H).
  assert (E : Records published = Records [("pub.ext", Sample.pub_ext_record)])
    by (rewrite <- Hp; reflexivity).
  inversion E; subst. exact (H "pub.ext").
Defined.

(** ** The metadata loader: normalisation *)

(** [mapM] succeeds when every element passes, and raises [KeyError]
    otherwise, if that is so of the function. *)
Lemma mapM_cases {A B : Type} (f : A -> result B) (ok : A -> bool)
    (l : list A) :
  (forall x, In x l ->
             if ok x then exists y, f x = Ok y else f x = Raise KeyError) ->
  if forallb ok l then exists ys, mapM f l = Ok ys
  else mapM f l = Raise KeyError.
Proof.
  induction l as [|x l IH]; intros H; cbn; [eauto|].
  pose proof (H x (or_introl eq_refl)) as Hx.
  assert (Hl : if forallb ok l then exists ys, mapM f l = Ok ys
               else mapM f l = Raise KeyError)
    by (apply IH; intros y Hy; apply H; now right).
  destruct (ok x); cbn.
  - destruct Hx as [y ->]. cbn.
    destruct (forallb ok l); [destruct Hl as [ys ->]; cbn; eauto|].
    now rewrite Hl.
  - now rewrite Hx.
Qed.

Lemma mapM_idem {A : Type} (f : A -> result A) (l l' : list A) :
  (forall x y, f x = Ok y -> f y = Ok y) ->
  mapM f l = Ok l' -> mapM f l' = Ok l'.
Proof.
  intros Hf. revert l'. induction l as [|x l IH]; cbn; intros l' H.
  - now inversion H.
  - inv_bind H. inv_bind H. inversion H; subst; clear H.
    cbn. rewrite (Hf _ _ Ha). cbn. rewrite (IH _ Ha0). reflexivity.
Qed.

Lemma resolve_asset_cases asseturi asset :
  if typed_asset asset then exists a, resolve_asset asseturi asset = Ok a
  else resolve_asset asseturi asset = Raise KeyError.
Proof.
  unfold typed_asset, resolve_asset.
  destruct (assetType asset); cbn; eauto.
Qed.

Lemma resolve_version_cases base_uri v :
  if resolvable v then exists v', resolve_version base_uri v = Ok v'
  else resolve_version base_uri v = Raise KeyError.
Proof.
  unfold resolvable, resolve_version.
  destruct (version v) as [ver|]; cbn; [|reflexivity].
  destruct (files v) as [assets|]; cbn; [|reflexivity].
  set (asseturi := match targetPlatform v with
                   | Some tp => _
                   | None => _
                   end).
  pose proof (mapM_cases (resolve_asset asseturi) typed_asset assets
                (fun a _ => resolve_asset_cases asseturi a)) as H.
  destruct (forallb typed_asset assets).
  - destruct H as [ys ->]. cbn. eauto.
  - now rewrite H.
Qed.

Lemma statistic_item_cases statistic :
  if valued statistic then exists item, statistic_item statistic = Ok item
  else statistic_item statistic = Raise KeyError.
Proof.
  unfold valued, statistic_item.
  destruct (statisticValue statistic), (statisticName statistic); cbn; eauto.
Qed.

Lemma resolve_asset_idem asseturi asset a :
  resolve_asset asseturi asset = Ok a -> resolve_asset asseturi a = Ok a.
Proof.
  unfold resolve_asset. destruct (assetType asset) as [t|] eqn:Ht;
    [|discriminate].
  cbn. intros H. inversion H; subst; clear H. reflexivity.
Qed.

Lemma resolve_version_idem base_uri v v' :
  resolve_version base_uri v = Ok v' -> resolve_version base_uri v' = Ok v'.
Proof.
  unfold resolve_version.
  destruct (version v) as [ver|] eqn:Hv; [|discriminate].
  destruct (files v) as [assets|] eqn:Hf; [|discriminate].
  cbn [member bind].
  destruct (mapM _ assets) as [assets'|] eqn:Hm; [|discriminate].
  cbn [bind]. intros H. inversion H; subst; clear H.
  apply (mapM_idem _ _ _ (resolve_asset_idem _)) in Hm.
  cbn in *. now rewrite Hm.
Qed.

Lemma statistic_pairs_items l items :
  mapM statistic_item l = Ok items -> statistic_pairs l = items.
Proof.
  unfold statistic_pairs. revert items.
  induction l as [|st l IH]; cbn [mapM flat_map]; intros items H.
  - now inversion H.
  - inv_bind H. inv_bind H. inversion H; subst; clear H.
    unfold statistic_item in Ha.
    destruct (statisticValue st) as [v|]; [|discriminate].
    destruct (statisticName st) as [n|]; [|discriminate].
    cbn in Ha. inversion Ha; subst. rewrite (IH _ Ha0). reflexivity.
Qed.

Lemma process_loaded_extension_cases extension extensiondir :
  if processable extension
  then exists e, process_loaded_extension extension extensiondir = Ok e
  else process_loaded_extension extension extensiondir = Raise KeyError.
Proof.
  unfold processable, process_loaded_extension.
  destruct (identity extension) as [name|]; [|reflexivity].
  destruct (versions extension) as [vs|]; [|reflexivity].
  cbn [member bind].
  pose proof (mapM_cases (resolve_version (URLROOT ++ extensiondir))
                resolvable vs
                (fun v _ => resolve_version_cases _ v)) as Hv.
  destruct (forallb resolvable vs); [|now rewrite Hv].
  destruct Hv as [vs' ->]. cbn [bind andb statistics set_versions].
  destruct (statistics extension) as [[|st l]|];
    [cbn; eauto | | cbn; eauto].
  unfold named_statistics.
  pose proof (mapM_cases statistic_item valued (st :: l)
                (fun x _ => statistic_item_cases x)) as Hs.
  destruct (forallb valued (st :: l)); [|now rewrite Hs].
  destruct Hs as [items ->]. cbn [bind]. eauto.
Qed.

(** X4: [process_loaded_extension] returns a record exactly when the
    document has every member it reads with [d[k]]: [identity] and
    [versions], for each version [version] and [files], for each file
    [assetType], and for each statistic [statisticName] and [value]; when
    one is missing it raises [KeyError] and nothing else. On its own result
    it changes nothing, so that a record which was resolved once (a cached
    record, a sibling that is the latest file) is resolved to itself. *)
Theorem X4_process_loaded_extension_idempotent
    (extension : ExtensionRecord) (extensiondir : string) :
  (if processable extension
   then exists e, process_loaded_extension extension extensiondir = Ok e
   else process_loaded_extension extension extensiondir = Raise KeyError) /\
  (forall x,
      process_loaded_extension extension extensiondir = Raise x ->
      x = KeyError /\ processable extension = false) /\
  (forall e,
      process_loaded_extension extension extensiondir = Ok e ->
      processable e = true /\
      process_loaded_extension e extensiondir = Ok e).
Proof.
  pose proof (process_loaded_extension_cases extension extensiondir)
    as Hcases.
  assert (Hidem : forall e,
    process_loaded_extension extension extensiondir = Ok e ->
    process_loaded_extension e extensiondir = Ok e).
  { intros e H.
    destruct (process_loaded_extension_inv _ _ _ H)
      as (name & vs & vs' & st & Hid & Hvs & Hm & Hst & ->).
    unfold process_loaded_extension.
    cbn [identity versions statistics set_stats set_versions].
    rewrite Hid. cbn [member bind].
    rewrite (mapM_idem _ _ _ (resolve_version_idem _) Hm). cbn [bind].
    assert (E : match statistics extension with
                | None | Some [] => Ok default_stats
                | Some l =>
                    extension_statistics <- named_statistics l ;;
                    Ok (dict_update default_stats extension_statistics)
                end = Ok st).
    { destruct (statistics extension) as [[|s0 l]|]; try now subst.
      destruct Hst as (items & Hi & ->). unfold named_statistics.
      now rewrite Hi. }
    rewrite E. reflexivity. }
  split; [exact Hcases|]. split.
  - intros x H. destruct (processable extension).
    + destruct Hcases as [e He]. congruence.
    + split; [congruence | reflexivity].
  - intros e H. split; [|now apply Hidem].
    pose proof (Hidem e H) as H'.
    pose proof (process_loaded_extension_cases e extensiondir) as Hc.
    destruct (processable e); [reflexivity | congruence].
Qed.

(** A version without [files], an asset without [assetType] and a
    statistic without [value] each make the document fail. *)
Example missing_members_raise :
  let asset t := {| assetType := t; source := None; asset_rest := [] |} in
  let ver f := {| version := Some "1.0.0"; targetPlatform := None;
                  files := f; assetUri := None; fallbackAssetUri := None;
                  version_rest := [] |} in
  process_loaded_extension (Sample.doc "pub.ext" [ver None]) Sample.ext_path
    = Raise KeyError /\
  process_loaded_extension (Sample.doc "pub.ext" [ver (Some [asset None])])
    Sample.ext_path = Raise KeyError /\
  (exists e,
      process_loaded_extension
        (Sample.doc "pub.ext" [ver (Some [asset (Some "Manifest")])])
        Sample.ext_path = Ok e) /\
  process_loaded_extension
    {| identity := Some "pub.ext"; versions := Some [];
       statistics := Some [ {| statisticName := Some "install";
                               statisticValue := None |} ];
       stats := None; extensionId := None; displayName := None;
       shortDescription := None; recommended := None; publisher := None;
       lastUpdated := None; publishedDate := None; extension_rest := [] |}
    Sample.ext_path = Raise KeyError.
Proof. cbv zeta. repeat split; try reflexivity. eexists. reflexivity. Qed.

Lemma last_assigned_dict {V : Type} (d : dict V) (k : string) :
  NoDup (dict_keys d) -> last_assigned k d = dict_get k d.
Proof.
  induction d as [|[k' v'] d IH]; intros Hnd; [reflexivity|].
  inversion Hnd as [|? ? Hk Hd]; subst.
  rewrite last_assigned_cons, (IH Hd). cbn.
  destruct (String.eqb_spec k k') as [->|Hne].
  - apply dict_get_None in Hk. now rewrite Hk.
  - now destruct (dict_get k d).
Qed.

(** X5: the [stats] of a processed record give, for every name, the value of
    the last statistic of the document with that name, and zero for
    [averagerating], [install] and [weightedRating] when the document has
    none; in particular the install count is always there. *)
Theorem X5_stats_are_defaults_overlaid
    (extension e : ExtensionRecord) (extensiondir : string) :
  process_loaded_extension extension extensiondir = Ok e ->
  let named :=
    statistic_pairs (match statistics extension with
                     | Some l => l
                     | None => []
                     end) in
  exists s,
    stats e = Some s /\
    (forall k,
        dict_get k s = match last_assigned k named with
                       | Some v => Some v
                       | None => dict_get k default_stats
                       end) /\
    install_count e = Some (match last_assigned "install" named with
                            | Some v => v
                            | None => 0%Z
                            end).
Proof.
  intros H named.
  destruct (process_loaded_extension_inv _ _ _ H)
    as (name & vs & vs' & s & _ & _ & _ & Hst & ->).
  cbn [stats set_stats set_versions].
  exists s. split; [reflexivity|].
  assert (Hall : forall k,
    dict_get k s
    = match last_assigned k named with
      | Some v => Some v
      | None => dict_get k default_stats
      end).
  { intros k. subst named.
    destruct (statistics extension) as [[|st l]|]; try (subst; reflexivity).
    destruct Hst as (items & Hi & ->).
    rewrite (statistic_pairs_items _ _ Hi).
    rewrite dict_get_update, last_assigned_dict
      by (apply dict_update_NoDup; constructor).
    rewrite dict_get_update. cbn [dict_get].
    now destruct (last_assigned k _). }
  split; [exact Hall|].
  unfold install_count, stat_key. cbn [stats set_stats bind member].
  rewrite Hall. now destruct (last_assigned "install" named).
Qed.

Lemma X5_stats_witness :
  exists s,
    stats Cases.rated = Some s /\
    (forall k,
        dict_get k s
        = match last_assigned k [("install", 7%Z); ("trendingdaily", 3%Z);
                                 ("install", 9%Z)] with
          | Some v => Some v
          | None => dict_get k default_stats
          end) /\
    install_count Cases.rated = Some 9%Z.
Proof.
  exact (X5_stats_are_defaults_overlaid Cases.rated_doc Cases.rated
           Sample.ext_path eq_refl).
Defined.

(** ** The cache store: round trip *)

Lemma load_cache_hit fs g c data entries :
  fs_cache fs = Some c ->
  cache_data c = Some data ->
  fs_extensions fs = Some entries ->
  Forall stattable entries ->
  (0 < cache_mtime c)%Z ->
  Forall (older_than (cache_mtime c)) entries ->
  load_cache fs g = (set_extensions g data, sized data).
Proof.
  intros Hc Hd Hfs Hstat Hpos Hold.
  destruct (load_cache_cases fs g) as [(d & Hf & E)|[Hn _]].
  - assert (Hf' : fresh_cache fs data) by (exists c, entries; auto 10).
    now rewrite (fresh_cache_unique _ _ _ Hf' Hf).
  - exfalso. apply (Hn data). exists c, entries. auto 10.
Qed.

Lemma save_cache_written written fs g d c :
  extensions g = Records d ->
  written d = Some c ->
  save_cache written fs g
  = {| fs_extensions := fs_extensions fs; fs_cache := Some c |}.
Proof. intros Hg Hw. unfold save_cache. now rewrite Hg; cbn; rewrite Hw. Qed.

(** X6: [save_cache] dumps a copy of the published dict. When the file it
    leaves was modified later than time zero and than every directory and
    marker of the source tree, [load_cache] then assigns whatever that file
    decodes to, and answers [True] when [len] can be taken of it; and when
    the file decodes to the dict a rebuild dumped, an [update_state] that
    follows the rebuild, on the same or on a fresh gallery, returns from the
    cache with that dict published and the files as the rebuild left
    them. *)
Theorem X6_cache_round_trip {V : Type}
    (Version : string -> option V) (Vle : V -> V -> bool)
    (as_completed : list ext_dir -> list ext_dir)
    (written : dict ExtensionRecord -> option cache_file)
    (fs : filesystem) (entries : list ext_dir) :
  fs_extensions fs = Some entries ->
  Forall stattable entries ->
  (forall g d c data g',
      extensions g = Records d ->
      written d = Some c ->
      cache_data c = Some data ->
      (0 < cache_mtime c)%Z ->
      Forall (older_than (cache_mtime c)) entries ->
      load_cache (save_cache written fs g) g'
      = (set_extensions g' data, sized data)) /\
  (forall g c,
      snd (load_cache fs g) = false ->
      let published :=
        dict_update [] (loaded_items Version Vle
                          (as_completed (filter eligible entries))) in
      let rebuilt := fst (update_state Version Vle as_completed written
                            (fs, g)) in
      written published = Some c ->
      cache_data c = Some (Records published) ->
      (0 < cache_mtime c)%Z ->
      Forall (older_than (cache_mtime c)) entries ->
      fst rebuilt
      = {| fs_extensions := fs_extensions fs; fs_cache := Some c |} /\
      forall written' g',
        update_state Version Vle as_completed written' (fst rebuilt, g')
        = ((fst rebuilt, set_extensions g' (Records published)), Returned)).
Proof.
  intros Hfs Hstat. split.
  - intros g d c data g' Hg Hw Hd Hpos Hold.
    rewrite (save_cache_written _ _ _ _ _ Hg Hw).
    eapply load_cache_hit; eauto; reflexivity.
  - intros g c Hmiss published rebuilt Hw Hd Hpos Hold.
    assert (Hfst : fst rebuilt
                   = {| fs_extensions := fs_extensions fs;
                        fs_cache := Some c |}).
    { subst rebuilt.
      rewrite (update_state_rebuild Version Vle as_completed written
                 _ _ _ Hfs Hmiss).
      cbv zeta. cbn [fst]. apply save_cache_written with (d := published);
        [|exact Hw].
      cbn [publish set_progress set_extensions extensions]. f_equal.
      apply complete_all_accumulates. }
    split; [exact Hfst|]. intros written' g'. rewrite Hfst.
    unfold update_state.
    rewrite (load_cache_hit _ g' c (Records published) entries); auto.
Qed.

Lemma X6_cache_round_trip_witness :
  let rebuilt := fst (update_state Release.Version Release.le Sample.in_order
                        (Sample.written_at 6) (Sample.tree, Sample.previous)) in
  load_cache (save_cache (Sample.written_at 6) Sample.tree Sample.previous)
    Sample.catalog
  = (set_extensions Sample.catalog (extensions Sample.previous), true) /\
  update_state Release.Version Release.le Sample.in_order Sample.unwritten
    (fst rebuilt, Sample.catalog)
  = ((fst rebuilt,
      set_extensions Sample.catalog
        (Records [("pub.ext", Sample.pub_ext_record)])), Returned).
Proof.
  assert (Hs : Forall stattable [Sample.pub_ext]).
  { constructor; [|constructor]. intros _. split; discriminate. }
  assert (Ho : Forall (older_than 6) [Sample.pub_ext]).
  { constructor; [|constructor]. intros _.
    split; intros x Hx; inversion Hx; subst; reflexivity. }
  pose proof (X6_cache_round_trip Release.Version Release.le Sample.in_order
                (Sample.written_at 6) Sample.tree [Sample.pub_ext]
                eq_refl Hs) as [H1 H2].
  split.
  - exact (H1 Sample.previous _ _ _ Sample.catalog eq_refl eq_refl eq_refl
             eq_refl Ho).
  - exact (proj2 (H2 Sample.previous _ eq_refl eq_refl eq_refl eq_refl Ho)
             Sample.unwritten Sample.catalog).
Defined.

(** A cache file is published as it decodes: no member of a cached record
    is checked when it is loaded. *)
Example cache_is_trusted :
  let tampered := Records [("pub.x", Sample.doc "pub.x" [])] in
  let fs := {| fs_extensions := Some [Sample.pub_ext];
               fs_cache := Some {| cache_mtime := 6;
                                   cache_data := Some tampered |} |} in
  update_state Release.Version Release.le Sample.in_order Sample.unwritten
    (fs, Sample.previous)
  = ((fs, set_extensions Sample.previous tampered), Returned).
Proof. reflexivity. Qed.

(** ** The query engine: every sort key *)

Lemma String_leb_trans (a b c : string) :
  String.leb a b = true -> String.leb b c = true -> String.leb a c = true.
Proof.
  unfold String.leb. revert b c.
  induction a as [|x a IH]; intros [|y b] [|z c]; cbn; auto; try discriminate.
  unfold Ascii.compare.
  destruct (N.compare_spec (N_of_ascii x) (N_of_ascii y)) as [E1|L1|G1],
           (N.compare_spec (N_of_ascii y) (N_of_ascii z)) as [E2|L2|G2],
           (N.compare_spec (N_of_ascii x) (N_of_ascii z)) as [E3|L3|G3];
    try discriminate; auto; try lia.
  apply IH.
Qed.

Lemma sort_permutes dates found sortby sortorder sorted :
  _sort dates found sortby sortorder = Ok sorted -> Permutation sorted found.
Proof.
  unfold _sort.
  repeat match goal with
         | |- context [(sortby =? ?c)%Z] => destruct (sortby =? c)%Z
         end;
    apply sorted_by_perm.
Qed.

(** X7: whatever the sort key and order, a query that is answered lists
    exactly the records its criteria selected, each as often as it was
    selected, in one page without a paging token, and [TotalCount] is their
    number. *)
Theorem X7_response_is_permutation_of_selection
    (dates : string -> option Z) (g : VSCGallery) (req : Request)
    (media : Envelope.t) :
  on_post dates g req = Ok (HTTP_200 media) ->
  exists f0 rest crits found sorted,
    filters req = Some (f0 :: rest) /\ criteria f0 = Some crits /\
    _apply_criteria g crits = Ok found /\
    Permutation sorted found /\
    media = {| Envelope.results :=
                [ {| Envelope.extensions := sorted;
                     Envelope.pagingToken := None;
                     Envelope.resultMetadata :=
                       [ {| Envelope.metadataType := "ResultCount";
                            Envelope.metadataItems :=
                              [ {| Envelope.name := "TotalCount";
                                   Envelope.count := List.length found |} ]
                         |} ] |} ] |}.
Proof.
  unfold on_post. intros H.
  destruct (filters req) as [[|f0 rest]|]; try discriminate.
  destruct (criteria f0) as [crits|] eqn:Hc; [|discriminate].
  destruct (flags req); [|discriminate].
  destruct (if (_ =? SortBy.NoneOrRelevance)%Z then _ else _)
    as [sortby sortorder].
  inv_bind H. inv_bind H. inversion H; subst; clear H.
  exists f0, rest, crits, a, a0.
  pose proof (sort_permutes _ _ _ _ _ Ha0) as Hp.
  repeat split; auto. unfold _build_response.
  now rewrite (Permutation_length Hp).
Qed.

Lemma X7_response_witness :
  exists f0 rest crits found sorted,
    filters (Sample.query [Sample.crit FilterType.SearchText "pub"]
               (Some SortBy.WeightedRating)) = Some (f0 :: rest) /\
    criteria f0 = Some crits /\
    _apply_criteria Sample.catalog crits = Ok found /\
    Permutation sorted found /\
    _build_response [Sample.A; Sample.B; Sample.C]
    = {| Envelope.results :=
          [ {| Envelope.extensions := sorted;
               Envelope.pagingToken := None;
               Envelope.resultMetadata :=
                 [ {| Envelope.metadataType := "ResultCount";
                      Envelope.metadataItems :=
                        [ {| Envelope.name := "TotalCount";
                             Envelope.count := List.length found |} ]
                   |} ] |} ] |}.
Proof.
  exact (X7_response_is_permutation_of_selection Sample.no_dates
           Sample.catalog
           (Sample.query [Sample.crit FilterType.SearchText "pub"]
              (Some SortBy.WeightedRating))
           (_build_response [Sample.A; Sample.B; Sample.C]) eq_refl).
Defined.

(** X8: the direction of a sort. For the install count an ascending order
    sorts ascending and any other order descending; for the publisher name,
    and for the display name that every unrecognised key (Title among them)
    falls back to, it is the other way round: an ascending order sorts
    descending, any other order ascending. *)
Theorem X8_sort_direction (dates : string -> option Z)
    (found sorted : list ExtensionRecord) (sortby sortorder : Z) :
  _sort dates found sortby sortorder = Ok sorted ->
  let ascending := (sortorder =? SortOrder.Ascending)%Z in
  (sortby = SortBy.InstallCount ->
   StronglySorted (key_le (stat_key "install") Z.leb (negb ascending)) sorted) /\
  (sortby = SortBy.PublisherName ->
   StronglySorted (key_le publisher_key String.leb ascending) sorted) /\
  (~ In sortby [SortBy.PublisherName; SortBy.InstallCount;
                SortBy.AverageRating; SortBy.WeightedRating;
                SortBy.LastUpdatedDate; SortBy.PublishedDate] ->
   StronglySorted (key_le display_key String.leb ascending) sorted).
Proof.
  intros H ascending. subst ascending. split; [|split].
  - intros ->. cbn in H.
    eapply sorted_by_sorted; eauto using Zleb_total, Zleb_trans.
  - intros ->. cbn in H. rewrite negb_involutive in H.
    eapply sorted_by_sorted; eauto using String.leb_total, String_leb_trans.
  - intros Hn. unfold _sort in H.
    repeat match type of H with
           | context [(sortby =? ?c)%Z] =>
               destruct (Z.eqb_spec sortby c) as [E|_];
                 [exfalso; apply Hn; rewrite E; cbn; tauto|]
           end.
    rewrite negb_involutive in H. unfold display_key.
    eapply sorted_by_sorted; eauto using String.leb_total, String_leb_trans.
Qed.

Lemma X8_sort_direction_witness :
  _sort Sample.no_dates [Cases.alpha; Cases.zeta] SortBy.PublisherName
    SortOrder.Ascending = Ok [Cases.zeta; Cases.alpha] /\
  StronglySorted (key_le publisher_key String.leb true)
    [Cases.zeta; Cases.alpha].
Proof.
  split; [reflexivity|].
  exact (proj1 (proj2 (X8_sort_direction Sample.no_dates
                         [Cases.alpha; Cases.zeta] [Cases.zeta; Cases.alpha]
                         SortBy.PublisherName SortOrder.Ascending eq_refl))
           eq_refl).
Defined.

Lemma mapM_raise {A B : Type} (f : A -> result B) l e :
  mapM f l = Raise e -> exists a, In a l /\ f a = Raise e.
Proof.
  induction l as [|x l IH]; cbn; [discriminate|].
  destruct (f x) as [y|e'] eqn:Hx; cbn.
  - destruct (mapM f l) as [ys|e'']; cbn; [discriminate|].
    intros H. inversion H; subst. destruct IH as (a & Ha & Hf); eauto.
  - intros H. inversion H; subst. eauto.
Qed.

Lemma stat_key_raises statistic k e :
  stat_key statistic k = Raise e -> e = KeyError.
Proof.
  unfold stat_key. destruct (stats k) as [s|]; cbn; [|congruence].
  destruct (dict_get statistic s); cbn; congruence.
Qed.

Lemma sort_by_install_raises found reverse e :
  In e found -> install_count e = None ->
  sorted_by (stat_key "install") Z.leb reverse found = Raise KeyError.
Proof.
  intros Hin Hnone.
  destruct (sorted_by (stat_key "install") Z.leb reverse found)
    as [s|x] eqn:Hs.
  - destruct (sorted_by_keys _ _ _ _ _ Hs e Hin) as [k Hk].
    unfold install_count in Hnone. rewrite Hk in Hnone. discriminate.
  - unfold sorted_by in Hs.
    destruct (mapM (decorate (stat_key "install")) found) as [dl|x'] eqn:Hm;
      cbn in Hs; [discriminate|].
    inversion Hs; subst. apply mapM_raise in Hm.
    destruct Hm as (a & _ & Ha). unfold decorate in Ha.
    destruct (stat_key "install" a) eqn:Hk; cbn in Ha; [discriminate|].
    inversion Ha; subst. f_equal. eapply stat_key_raises; eauto.
Qed.

(** X9: a sort does not skip a record that lacks the sort key. When a
    record among those selected has no install count (no [stats], or no
    [install] in it), a query with the default sort raises [KeyError]
    instead of answering. *)
Theorem X9_missing_install_count_fails_query
    (dates : string -> option Z) (g : VSCGallery) (req : Request)
    (f0 : Filter) (rest : list Filter) (crits : list Criterion)
    (found : list ExtensionRecord) (e : ExtensionRecord) :
  filters req = Some (f0 :: rest) ->
  criteria f0 = Some crits ->
  flags req <> None ->
  sortBy f0 = None \/ sortBy f0 = Some SortBy.NoneOrRelevance ->
  _apply_criteria g crits = Ok found ->
  In e found ->
  install_count e = None ->
  on_post dates g req = Raise KeyError.
Proof.
  intros Hf Hc Hfl Hs Hfound Hin Hnone.
  rewrite (on_post_default dates g req f0 rest crits Hf Hc Hfl Hs), Hfound.
  cbn [bind]. now rewrite (sort_by_install_raises found true e Hin Hnone).
Qed.

Lemma X9_missing_install_count_witness :
  on_post Sample.no_dates Cases.with_bare
    (Sample.query [Sample.crit FilterType.SearchText "pub"] None)
  = Raise KeyError.
Proof.
  refine (X9_missing_install_count_fails_query Sample.no_dates
            Cases.with_bare
            (Sample.query [Sample.crit FilterType.SearchText "pub"] None)
            {| criteria := Some [Sample.crit FilterType.SearchText "pub"];
               sortBy := None; sortOrder := None |}
            [] [Sample.crit FilterType.SearchText "pub"]
            [Sample.A; Sample.doc "pub.bare" [Sample.vrec "1.0.0" None]]
            (Sample.doc "pub.bare" [Sample.vrec "1.0.0" None])
            eq_refl eq_refl _ (or_introl eq_refl) eq_refl
            (or_intror (or_introl eq_refl)) eq_refl).
  discriminate.
Defined.

(** ** The query engine: what criteria do not do *)

Lemma apply_criterion_unsupported exts acc crit :
  supported crit = false -> apply_criterion exts acc crit = Ok acc.
Proof.
  unfold supported, apply_criterion, criterion_test.
  destruct (filterType crit) as [ft|]; [|reflexivity].
  destruct (value crit) as [v|]; [|reflexivity].
  cbv zeta. generalize (FilterType.of_value ft). clear ft. intros ft.
  repeat match goal with
         | |- context [(ft =? ?c)%Z] =>
             destruct (Z.eqb_spec ft c) as [->|?]; cbn
         end;
    try reflexivity; discriminate.
Qed.

Lemma apply_all_supported exts crits acc :
  apply_all exts crits acc = apply_all exts (filter supported crits) acc.
Proof.
  revert acc. induction crits as [|crit crits IH]; intros acc; [reflexivity|].
  cbn [apply_all filter]. destruct (supported crit) eqn:Hs.
  - cbn [apply_all]. destruct (apply_criterion exts acc crit); cbn; auto.
  - rewrite (apply_criterion_unsupported _ _ _ Hs). cbn. apply IH.
Qed.


(** The member [vsc.FilterType] makes of an integer holds the integer
    itself when it is not negative, and otherwise the bits the negative
    integer stands for: -12 and -28 are ExtensionId, -9 is ExtensionName,
    -6 is SearchText. *)
Lemma FilterType_of_value (value : Z) :
  FilterType.of_value value
  = if (0 <=? value)%Z then value
    else if (-16 <=? value)%Z then (16 + value)%Z
    else (2 ^ IntFlag.bit_length value + value)%Z.
Proof.
  unfold FilterType.of_value, IntFlag.call.
  destruct (existsb (Z.eqb value) FilterType.members) eqn:Hm.
  - apply existsb_exists in Hm. destruct Hm as (m & Hin & E).
    apply Z.eqb_eq in E. subst m.
    repeat (destruct Hin as [<-|Hin]; [reflexivity|]). destruct Hin.
  - unfold IntFlag.missing.
    change (IntFlag.all_bits FilterType.members) with 15%Z.
    change (IntFlag.flag_mask FilterType.members) with 13%Z.
    change (Z.lnot 15) with (-16)%Z. change (Z.lxor 15 13) with 2%Z.
    change (15 + 1)%Z with 16%Z.
    destruct (Z.leb_spec 0 value) as [Hpos|Hneg].
    + assert (E : (value <? 0)%Z = false) by (apply Z.ltb_ge; lia).
      rewrite E. destruct (_ || _); cbv iota; now rewrite E.
    + assert (E : (value <? 0)%Z = true) by (apply Z.ltb_lt; lia).
      assert (E15 : (value <=? 15)%Z = true) by (apply Z.leb_le; lia).
      rewrite E, E15.
      assert (Hpow : (0 < 2 ^ IntFlag.bit_length value + value)%Z).
      { unfold IntFlag.bit_length.
        destruct (Z.eqb_spec value 0) as [?|_]; [lia|].
        pose proof (Z.log2_spec (Z.abs value) ltac:(lia)) as [_ Hhi].
        replace (Z.succ (Z.log2 (Z.abs value)))
          with (Z.log2 (Z.abs value) + 1)%Z in Hhi by lia.
        lia. }
      destruct (Z.leb_spec (-16) value) as [Hin|Hout]; cbn [andb negb orb].
      * destruct (negb (Z.land value 2 =? 0)%Z) eqn:Hl; cbv iota;
          [|now rewrite E].
        assert (Hbits : (2 ^ IntFlag.bit_length value <= 16)%Z).
        { unfold IntFlag.bit_length.
          destruct (Z.eqb_spec value 0) as [?|_]; [lia|].
          assert (Hv : (Z.abs value < 16)%Z).
          { destruct (Z.eq_dec value (-16)) as [->|?]; [|lia].
            vm_compute in Hl. discriminate. }
          assert (Z.log2 (Z.abs value) < 4)%Z
            by (apply Z.log2_lt_pow2; lia).
          change 16%Z with (2 ^ 4)%Z. apply Z.pow_le_mono_r; lia. }
        rewrite Z.max_l by exact Hbits.
        replace (16 + value <? 0)%Z with false
          by (symmetry; apply Z.ltb_ge; lia).
        reflexivity.
      * assert (H16 : (16 <= 2 ^ IntFlag.bit_length value)%Z) by lia.
        rewrite Z.max_r by exact H16.
        replace (2 ^ IntFlag.bit_length value + value <? 0)%Z with false
          by (symmetry; apply Z.ltb_ge; lia).
        reflexivity.
Qed.


Lemma select_raise test items acc x :
  select test items acc = Raise x ->
  exists name e, In (name, e) items /\ test name e = Raise x.
Proof.
  revert acc. induction items as [|[name e] items IH]; intros acc;
    cbn; [discriminate|].
  destruct (test name e) as [hit|x'] eqn:Ht; cbn.
  - intros H. destruct (IH _ H) as (n & e' & Hin & He). eauto 6.
  - intros H. inversion H; subst. eauto 6.
Qed.

Lemma select_all_tested test items acc found :
  select test items acc = Ok found ->
  forall name e, In (name, e) items -> exists hit, test name e = Ok hit.
Proof.
  revert acc. induction items as [|[n0 e0] items IH]; intros acc;
    cbn; [intros _ ? ? []|].
  destruct (test n0 e0) as [hit|x] eqn:Ht; cbn; [|discriminate].
  intros H name e [E|Hin].
  - inversion E; subst. eauto.
  - eapply IH; eauto.
Qed.

Lemma apply_criterion_raises exts acc crit x :
  apply_criterion exts acc crit = Raise x -> x = KeyError.
Proof.
  unfold apply_criterion.
  destruct (filterType crit) as [ft|]; [|discriminate].
  destruct (value crit) as [v|]; [|discriminate].
  cbv zeta. generalize (FilterType.of_value ft). clear ft. intros ft.
  repeat match goal with
         | |- context [(ft =? ?c)%Z] => destruct (ft =? c)%Z
         end;
    try discriminate;
    intros H; apply select_raise in H; destruct H as (n & e & _ & H);
    unfold test_ExtensionId, test_ExtensionName, test_SearchText in H;
    try discriminate.
  destruct (extensionId e); cbn in H; congruence.
Qed.

Lemma apply_all_raises exts crits acc x :
  apply_all exts crits acc = Raise x -> x = KeyError.
Proof.
  revert acc. induction crits as [|crit crits IH]; intros acc;
    cbn; [discriminate|].
  destruct (apply_criterion exts acc crit) as [acc'|x'] eqn:Hc; cbn.
  - apply IH.
  - intros H. inversion H; subst. eapply apply_criterion_raises; eauto.
Qed.

Lemma apply_all_each exts crits acc found crit :
  apply_all exts crits acc = Ok found -> In crit crits ->
  exists a a', apply_criterion exts a crit = Ok a'.
Proof.
  revert acc. induction crits as [|c crits IH]; intros acc; cbn; [tauto|].
  destruct (apply_criterion exts acc c) as [acc'|x] eqn:Hc; cbn;
    [|discriminate].
  intros H [->|Hin]; eauto.
Qed.

(** X11: an ExtensionId criterion reads [extensionId] of every record of
    the snapshot. If one record has none, every query with such a criterion
    raises [KeyError], whichever extension it asks for and whatever its
    other criteria. *)
Theorem X11_extension_id_needs_every_record (g : VSCGallery)
    (exts : dict ExtensionRecord)
    (crits : list Criterion) (v name : string) (e : ExtensionRecord) :
  extensions g = Records exts ->
  In {| filterType := Some FilterType.ExtensionId; value := Some v |} crits ->
  In (name, e) exts ->
  extensionId e = None ->
  _apply_criteria g crits = Raise KeyError.
Proof.
  intros Hg Hc Hin Hid. unfold _apply_criteria. rewrite Hg.
  cbn [snapshot_copy bind].
  destruct (apply_all exts crits []) as [found|x] eqn:Ha; cbn.
  - exfalso. destruct (apply_all_each _ _ _ _ _ Ha Hc) as (a & a' & H).
    cbn in H. destruct (select_all_tested _ _ _ _ H name e Hin) as [hit Ht].
    unfold test_ExtensionId in Ht. rewrite Hid in Ht. discriminate.
  - f_equal. eapply apply_all_raises; eauto.
Qed.

Lemma X11_extension_id_witness :
  _apply_criteria Cases.with_noid [Sample.crit FilterType.ExtensionId "pub.a"]
  = Raise KeyError.
Proof.
  exact (X11_extension_id_needs_every_record Cases.with_noid
           [("pub.a", Sample.A); ("pub.noid", Cases.noid)]
           [Sample.crit FilterType.ExtensionId "pub.a"] "pub.a" "pub.noid"
           Cases.noid eq_refl
           (or_introl eq_refl) (or_intror (or_introl eq_refl)) eq_refl).
Defined.

Lemma lower_ascii_idem c :
  Str.lower_ascii (Str.lower_ascii c) = Str.lower_ascii c.
Proof.
  unfold Str.lower_ascii.
  destruct ((65 <=? nat_of_ascii c)%nat && (nat_of_ascii c <=? 90)%nat) eqn:E.
  - apply andb_prop in E. destruct E as [E1 E2].
    apply Nat.leb_le in E1, E2.
    rewrite nat_ascii_embedding by lia.
    replace ((nat_of_ascii c + 32 <=? 90)%nat) with false
      by (symmetry; apply Nat.leb_gt; lia).
    now rewrite andb_false_r.
  - now rewrite E.
Qed.

Lemma lower_idem s : Str.lower (Str.lower s) = Str.lower s.
Proof.
  induction s as [|c s IH]; cbn; [reflexivity|].
  now rewrite lower_ascii_idem, IH.
Qed.

(** X12: the value of an ExtensionId criterion is lower-cased and the stored
    [extensionId] is not: a record whose [extensionId] has an upper-case
    letter is selected by no ExtensionId criterion. *)
Theorem X12_extension_id_with_upper_case_never_selected
    (exts : dict ExtensionRecord) (v id : string) (e : ExtensionRecord) :
  extensionId e = Some id ->
  Str.lower id <> id ->
  ~ In e (matched exts {| filterType := Some FilterType.ExtensionId;
                          value := Some v |}).
Proof.
  intros Hid Hup Hin. unfold matched in Hin. apply in_map_iff in Hin.
  destruct Hin as ([name e'] & E & Hf). cbn in E. subst e'.
  apply filter_In in Hf. destruct Hf as [_ Hh].
  unfold hits, criterion_test in Hh. cbn in Hh.
  unfold test_ExtensionId in Hh. rewrite Hid in Hh. cbn in Hh.
  apply String.eqb_eq in Hh. apply Hup.
  rewrite <- Hh. apply lower_idem.
Qed.

Lemma X12_upper_case_witness :
  ~ In Cases.shouting
      (matched [("shouting", Cases.shouting)]
         {| filterType := Some FilterType.ExtensionId;
            value := Some "ABC-1" |}).
Proof.
  refine (X12_extension_id_with_upper_case_never_selected
            [("shouting", Cases.shouting)] "ABC-1" "ABC-1" Cases.shouting
            eq_refl _).
  discriminate.
Defined.

Lemma contains_empty s : Str.contains "" s = true.
Proof. now destruct s. Qed.

(** X13: a SearchText criterion with the empty text selects every record of
    the snapshot, in snapshot order. *)
Theorem X13_empty_search_text_selects_all (exts : dict ExtensionRecord)
    (acc : list ExtensionRecord) :
  apply_criterion exts acc
    {| filterType := Some FilterType.SearchText; value := Some "" |}
  = Ok (acc ++ dict_values exts).
Proof.
  cbn. revert acc. induction exts as [|[name e] exts IH]; intros acc; cbn.
  - now rewrite app_nil_r.
  - unfold test_SearchText at 1. cbn [bind]. rewrite contains_empty. cbn.
    rewrite IH. now rewrite <- app_assoc.
Qed.

(** ** The refresh thread and the [loaded] event *)

Section LoadedFacts.

Context {V : Type}.
Variable Version : string -> option V.
Variable Vle : V -> V -> bool.
Variable as_completed : list ext_dir -> list ext_dir.
Variable written : dict ExtensionRecord -> option cache_file.

Lemma load_cache_loaded fs g : loaded (fst (load_cache fs g)) = loaded g.
Proof. now rewrite load_cache_frame. Qed.

Lemma complete_one_loaded total_extensions g L future :
  loaded (fst (complete_one Version Vle total_extensions g L future))
  = loaded g.
Proof.
  unfold complete_one.
  destruct (process_single_extension Version Vle future) as [latest|];
    [|reflexivity].
  destruct (identity latest); [|reflexivity].
  cbv zeta. destruct (_ || _); [|reflexivity].
  destruct (snapshot_update _ _); reflexivity.
Qed.

Lemma step_loaded w p :
  loaded (snd (fst (step Version Vle as_completed written w p)))
  = loaded (snd w).
Proof.
  destruct w as [fs g]. destruct p as [| |n futures L|n L| |o]; cbn [step].
  - pose proof (load_cache_loaded fs g) as H.
    destruct (load_cache fs g) as [g' hit]. exact H.
  - destruct (fs_extensions fs); reflexivity.
  - destruct futures as [|future rest]; [reflexivity|].
    pose proof (complete_one_loaded n g L future) as H.
    destruct (complete_one Version Vle n g L future) as [g' L']. exact H.
  - reflexivity.
  - reflexivity.
  - reflexivity.
Qed.

Lemma dead_worker_stays s s' e :
  worker s = Rebuilding (Finished (Raised e)) ->
  sys_step Version Vle as_completed written s s' ->
  worker s' = Rebuilding (Finished (Raised e)) /\
  loaded (snd (world s')) = loaded (snd (world s)).
Proof.
  intros Hw Hstep. destruct Hstep; cbn in *; try discriminate.
  - inversion Hw; subst. exfalso. eapply H. reflexivity.
  - auto.
  - split; [assumption|].
    pose proof (step_loaded w p) as Hl. rewrite H0 in Hl. exact Hl.
  - auto.
Qed.

End LoadedFacts.

(** X14: [update_state_loop] does not catch what [update_state] raises.
    Once the rebuild of the refresh thread has raised (the root could not be
    listed), that thread takes no further step, and no rebuild started by
    the change handler sets [loaded]: whatever happens afterwards, [loaded]
    is what it was. *)
Theorem X14_failed_refresh_thread_never_sets_loaded {V : Type}
    (Version : string -> option V) (Vle : V -> V -> bool)
    (as_completed : list ext_dir -> list ext_dir) (written : dict ExtensionRecord -> option cache_file)
    (s s' : System) (e : exn) :
  worker s = Rebuilding (Finished (Raised e)) ->
  reachable Version Vle as_completed written s s' ->
  worker s' = Rebuilding (Finished (Raised e)) /\
  loaded (snd (world s')) = loaded (snd (world s)).
Proof.
  intros Hw Hr. induction Hr as [|s1 s2 Hr IH Hstep]; [auto|].
  destruct IH as [Hw1 Hl1].
  destruct (dead_worker_stays Version Vle as_completed written _ _ _ Hw1 Hstep)
    as [Hw2 Hl2].
  split; [assumption | congruence].
Qed.

Lemma X14_failed_refresh_witness :
  let unlisted := {| fs_extensions := None; fs_cache := None |} in
  let g := Sample.gallery [] in
  let s := {| world := (unlisted, set_loaded g false);
              worker := Rebuilding (Finished (Raised OSError));
              observer := Waiting |} in
  let s' := {| world := (unlisted, set_loaded g false);
               worker := Rebuilding (Finished (Raised OSError));
               observer := Rebuilding AtLoadCache |} in
  worker s' = Rebuilding (Finished (Raised OSError)) /\
  loaded (snd (world s')) = false.
Proof.
  cbv zeta.
  refine (X14_failed_refresh_thread_never_sets_loaded
            Release.Version Release.le Sample.in_order Sample.unwritten
            {| world := ({| fs_extensions := None; fs_cache := None |},
                         set_loaded (Sample.gallery []) false);
               worker := Rebuilding (Finished (Raised OSError));
               observer := Waiting |}
            {| world := ({| fs_extensions := None; fs_cache := None |},
                         set_loaded (Sample.gallery []) false);
               worker := Rebuilding (Finished (Raised OSError));
               observer := Rebuilding AtLoadCache |}
            OSError eq_refl _).
  eapply reach_step; [apply reach_refl|].
  apply (observer_event _ _ _ _ _ _ "/artifacts/updated.json"). reflexivity.
Defined.

(** ** Directory listings *)

Lemma scan_names_limited wanted limit entries names count :
  scan_names wanted limit entries names count
  = names ++
    match limit with
    | Some n =>
        if (n =? 0)%Z then names_of wanted entries
        else firstn (Z.to_nat (Z.max 1 (n - count))) (names_of wanted entries)
    | None => names_of wanted entries
    end.
Proof.
  unfold names_of. revert names count.
  induction entries as [|entry rest IH]; intros names count.
  - cbn [scan_names filter map]. destruct limit as [n|];
      [|now rewrite app_nil_r].
    destruct (n =? 0)%Z; [now rewrite app_nil_r|].
    now rewrite firstn_nil, app_nil_r.
  - cbn [scan_names filter].
    destruct (wanted (entry_is entry)); [|apply IH].
    cbn [map]. unfold limit_reached. destruct limit as [n|].
    + destruct (Z.eqb_spec n 0) as [->|Hn]; cbn [negb andb].
      * rewrite IH. cbn. now rewrite <- app_assoc.
      * destruct (Z.leb_spec n (count + 1)) as [Hle|Hgt].
        -- replace (Z.to_nat (Z.max 1 (n - count))) with 1%nat by lia.
           reflexivity.
        -- rewrite IH, <- app_assoc. cbn [app]. f_equal.
           replace (Z.to_nat (Z.max 1 (n - count)))
             with (S (Z.to_nat (Z.max 1 (n - (count + 1))))) by lia.
           reflexivity.
    + rewrite IH. now rewrite <- app_assoc.
Qed.

Lemma scan_names_from_start wanted limit entries :
  scan_names wanted limit entries [] 0%Z
  = limited limit (names_of wanted entries).
Proof.
  rewrite scan_names_limited. cbn [app]. unfold limited.
  destruct limit as [n|]; [|reflexivity].
  destruct (n =? 0)%Z; [reflexivity|]. now rewrite Z.sub_0_r.
Qed.

Lemma sorted_names_spec names :
  StronglySorted (fun a b => String.leb a b = true)
    (list_sort String.leb false names) /\
  Permutation (list_sort String.leb false names) names.
Proof.
  split.
  - apply (list_sort_sorted String.leb String.leb_total String_leb_trans false).
  - apply list_sort_perm.
Qed.

(** X15: [folders_in_folder] returns the names of the real directories of
    the listing, and [files_in_folder] those of its regular files, in
    ascending order; with a limit [n] they return the first [n] such names
    in listing order (one name for a negative limit), sorted, and not the
    [n] smallest; a directory that cannot be listed gives the empty list. *)
Theorem X15_listings_sorted_and_limited
    (scandir : string -> option (list DirEntry)) (filepath : string)
    (limit : option Z) :
  match scandir filepath with
  | Some entries =>
      StronglySorted (fun a b => String.leb a b = true)
        (folders_in_folder scandir filepath limit) /\
      Permutation (folders_in_folder scandir filepath limit)
        (limited limit (names_of is_dir entries)) /\
      StronglySorted (fun a b => String.leb a b = true)
        (files_in_folder scandir filepath limit) /\
      Permutation (files_in_folder scandir filepath limit)
        (limited limit (names_of is_file entries))
  | None =>
      folders_in_folder scandir filepath limit = [] /\
      files_in_folder scandir filepath limit = []
  end.
Proof.
  unfold folders_in_folder, files_in_folder.
  destruct (scandir filepath) as [entries|]; [|split; reflexivity].
  rewrite !scan_names_from_start.
  destruct (sorted_names_spec (limited limit (names_of is_dir entries))).
  destruct (sorted_names_spec (limited limit (names_of is_file entries))).
  auto.
Qed.

(** ** The browse page *)

Lemma py_slice_window {A : Type} (l : list A) (start n : Z) :
  (0 <= start)%Z -> (0 <= n)%Z ->
  py_slice l start (start + n)
  = firstn (Z.to_nat n) (skipn (Z.to_nat start) l).
Proof.
  intros Hs Hn. unfold py_slice, slice_bound.
  destruct (Z.ltb_spec start 0) as [?|_]; [lia|].
  destruct (Z.ltb_spec (start + n) 0) as [?|_]; [lia|].
  set (len := Z.of_nat (List.length l)).
  destruct (Z.le_gt_cases len start) as [Hout|Hin].
  - rewrite Z.min_r by lia.
    rewrite !skipn_all2 by (subst len; lia). now rewrite !firstn_nil.
  - rewrite (Z.min_l start) by lia.
    destruct (Z.le_gt_cases (start + n) len) as [Hfit|Hover].
    + rewrite Z.min_l by lia. f_equal. lia.
    + rewrite Z.min_r by lia.
      rewrite !firstn_all2; [reflexivity | |]; rewrite length_skipn;
        subst len; lia.
Qed.

Lemma concat_chunks {A : Type} (k n : nat) (l : list A) :
  List.length l <= n * k ->
  List.concat (map (fun i => firstn k (skipn (i * k) l)) (seq 0 n)) = l.
Proof.
  revert l. induction n as [|n IH]; intros l Hlen.
  - cbn in *. destruct l; [reflexivity | cbn in Hlen; lia].
  - rewrite <- cons_seq, <- seq_shift. cbn [map List.concat]. rewrite map_map.
    cbn [Nat.mul skipn].
    rewrite (map_ext _ (fun i => firstn k (skipn (i * k) (skipn k l)))).
    + rewrite IH; [apply firstn_skipn|]. rewrite length_skipn. cbn in Hlen. lia.
    + intros i. rewrite skipn_skipn. f_equal. f_equal. cbn. lia.
Qed.

Lemma shown_window scandir path page per_page search_query :
  (0 < per_page)%Z -> (1 <= page)%Z ->
  shown scandir path page per_page search_query
  = firstn (Z.to_nat per_page)
      (skipn (Z.to_nat ((page - 1) * per_page))
         (all_items scandir path search_query)).
Proof.
  intros Hpp Hp. unfold shown, paginated_items.
  destruct (Z.eqb_spec per_page 0) as [?|_]; [lia|].
  cbn [page_items]. apply py_slice_window; nia.
Qed.

Lemma in_listing scandir path limit entries name :
  scandir path = Some entries ->
  (In name (folders_in_folder scandir path limit) <->
   In name (limited limit (names_of is_dir entries))) /\
  (In name (files_in_folder scandir path limit) <->
   In name (limited limit (names_of is_file entries))).
Proof.
  intros H. unfold folders_in_folder, files_in_folder.
  rewrite H, !scan_names_from_start.
  split; split; apply Permutation_in;
    try apply list_sort_perm; symmetry; apply list_sort_perm.
Qed.

Lemma in_tagged (folders files : list string) name t :
  In (name, t) (map (fun item => (item, folder)) folders
                ++ map (fun item => (item, file)) files) <->
  match t with
  | folder => In name folders
  | file => In name files
  end.
Proof.
  rewrite in_app_iff, !in_map_iff. destruct t; split.
  - intros [(x & E & H)|(x & E & H)]; inversion E; subst; auto.
  - intros H. left. eauto.
  - intros [(x & E & H)|(x & E & H)]; inversion E; subst; auto.
  - intros H. right. eauto.
Qed.

Lemma StronglySorted_filter {A : Type} (R : A -> A -> Prop)
    (keep : A -> bool) l :
  StronglySorted R l -> StronglySorted R (filter keep l).
Proof.
  induction 1 as [|x l Hs IH Hx]; cbn; [constructor|].
  destruct (keep x); [|exact IH]. constructor; [exact IH|].
  rewrite Forall_forall in *. intros y Hy. apply filter_In in Hy.
  apply Hx. tauto.
Qed.

Lemma sorted_listing scandir path limit :
  StronglySorted (fun a b => String.leb a b = true)
    (folders_in_folder scandir path limit) /\
  StronglySorted (fun a b => String.leb a b = true)
    (files_in_folder scandir path limit).
Proof.
  unfold folders_in_folder, files_in_folder.
  destruct (scandir path); split; try constructor;
    apply (list_sort_sorted String.leb String.leb_total String_leb_trans
             false).
Qed.

(** X16: for a positive [per_page], the pages 1 to [total_pages], one
    after the other, are the listed items: every listed item is on exactly
    one page, in order. The listed items are folders, then files, each in
    ascending order of name: the real directories and the regular files of
    the directory (a file named as the path itself excepted) whose
    lower-cased name contains the lower-cased search text. Without a search
    text the scan stops after 100000 folders and after 100000 files, so
    that of a larger directory only the first 100000 of each in listing
    order are listed, and the others are on no page. A directory that
    cannot be listed has no items. *)
Theorem X16_pages_partition_the_items
    (scandir : string -> option (list DirEntry)) (path : string)
    (per_page : Z) (search_query : string) :
  (0 < per_page)%Z ->
  let items := all_items scandir path search_query in
  let pages :=
    ((Z.of_nat (List.length items) + per_page - 1) / per_page)%Z in
  (forall page,
      exists p,
        paginated_items scandir path page per_page search_query = Page p /\
        total_items p = Z.of_nat (List.length items) /\
        total_pages p = pages) /\
  List.concat (map (fun i => shown scandir path (Z.of_nat i) per_page search_query)
            (seq 1 (Z.to_nat pages)))
  = items /\
  (exists folders files,
      items = map (fun item => (item, folder)) folders
              ++ map (fun item => (item, file)) files /\
      StronglySorted (fun a b => String.leb a b = true) folders /\
      StronglySorted (fun a b => String.leb a b = true) files) /\
  match scandir path with
  | Some entries =>
      let scanned wanted :=
        match search_query with
        | EmptyString => firstn (Z.to_nat 100000) (names_of wanted entries)
        | _ => names_of wanted entries
        end in
      forall name t,
        In (name, t) items <->
        Str.contains (Str.lower search_query) (Str.lower name) = true /\
        match t with
        | folder => In name (scanned is_dir)
        | file => In name (scanned is_file) /\ name <> path
        end
  | None => items = []
  end.
Proof.
  intros Hpp items pages. split; [|split; [|split]].
  - intros page. unfold paginated_items.
    destruct (Z.eqb_spec per_page 0) as [?|_]; [lia|].
    eexists. split; [reflexivity|]. split; reflexivity.
  - rewrite <- seq_shift, map_map.
    rewrite (map_ext _
               (fun i => firstn (Z.to_nat per_page)
                           (skipn (i * Z.to_nat per_page) items))).
    + apply concat_chunks. subst pages.
      set (len := Z.of_nat (List.length items)).
      assert (Hq : (len <= per_page * ((len + per_page - 1) / per_page))%Z).
      { pose proof (Z.div_mod (len + per_page - 1) per_page ltac:(lia)) as Hd.
        pose proof (Z.mod_pos_bound (len + per_page - 1) per_page Hpp). lia. }
      assert (Hq0 : (0 <= (len + per_page - 1) / per_page)%Z)
        by (apply Z.div_pos; subst len; lia).
      subst len. nia.
    + intros i. rewrite shown_window by lia. fold items.
      do 2 f_equal. nia.
  - subst items. unfold all_items.
    set (max_scan := match search_query with
                     | EmptyString => Some 100000%Z
                     | _ => None
                     end).
    destruct (sorted_listing scandir path max_scan) as [Hfo Hfi].
    destruct search_query as [|c q].
    + eexists _, _. split; [reflexivity|]. split; [exact Hfo|].
      now apply StronglySorted_filter.
    + rewrite filter_app, !filter_map_swap.
      eexists _, _. split; [reflexivity|].
      split; apply StronglySorted_filter; [exact Hfo|].
      now apply StronglySorted_filter.
  - destruct (scandir path) as [entries|] eqn:Hscan.
    + intros scanned name t. subst items. unfold all_items.
      set (max_scan := match search_query with
                       | EmptyString => Some 100000%Z
                       | _ => None
                       end).
      destruct (in_listing scandir path max_scan entries name Hscan)
        as [Hfo Hfi].
      assert (Hscanned : forall wanted,
                 limited max_scan (names_of wanted entries) = scanned wanted).
      { intros wanted. subst max_scan scanned.
        destruct search_query; reflexivity. }
      rewrite !Hscanned in *.
      assert (Hall : In (name, t)
                (map (fun item => (item, folder))
                   (folders_in_folder scandir path max_scan)
                 ++ map (fun item => (item, file))
                      (filter (fun item => negb (item =? path)%string)
                         (files_in_folder scandir path max_scan))) <->
              match t with
              | folder => In name (scanned is_dir)
              | file => In name (scanned is_file) /\ name <> path
              end).
      { rewrite in_tagged. destruct t; [exact Hfo|].
        rewrite filter_In, Hfi, negb_true_iff.
        destruct (String.eqb_spec name path); intuition congruence. }
      destruct search_query as [|c q].
      * rewrite Hall. cbn [Str.lower]. rewrite contains_empty. tauto.
      * rewrite filter_In, Hall. cbn [fst]. tauto.
    + subst items. unfold all_items, folders_in_folder, files_in_folder.
      rewrite Hscan. now destruct search_query.
Qed.

Lemma X16_pages_witness :
  List.concat (map (fun i => shown Trees.scandir "/artifacts" (Z.of_nat i) 3 "")
                 (seq 1 2))
  = [("c", folder); ("d", folder); ("a", file); ("b", file)].
Proof.
  exact (proj1 (proj2 (X16_pages_partition_the_items Trees.scandir
                         "/artifacts" 3 "" eq_refl))).
Defined.

(** X17: for a positive [per_page] and a page number of one or more, the
    page shows [min per_page (n - (page - 1) * per_page)] of the [n] items,
    none if that is negative: every page before the last is full, every
    page up to [total_pages] shows something, and a page past [total_pages]
    is empty (it is not an error). *)
Theorem X17_page_sizes
    (scandir : string -> option (list DirEntry)) (path : string)
    (page per_page : Z) (search_query : string) :
  (0 < per_page)%Z ->
  (1 <= page)%Z ->
  let n := Z.of_nat (List.length (all_items scandir path search_query)) in
  let pages := ((n + per_page - 1) / per_page)%Z in
  let size := Z.of_nat (List.length
                          (shown scandir path page per_page search_query)) in
  size = Z.max 0 (Z.min per_page (n - (page - 1) * per_page)) /\
  (page < pages -> size = per_page)%Z /\
  (page <= pages -> 0 < size)%Z /\
  (pages < page ->
   shown scandir path page per_page search_query = [])%Z.
Proof.
  intros Hpp Hp n pages size.
  assert (Hsize : size = Z.max 0 (Z.min per_page (n - (page - 1) * per_page))).
  { subst size n. rewrite shown_window by assumption.
    rewrite length_firstn, length_skipn. nia. }
  assert (Hd : (per_page * pages <= n + per_page - 1
                /\ n <= per_page * pages)%Z).
  { subst pages.
    pose proof (Z.div_mod (n + per_page - 1) per_page ltac:(lia)).
    pose proof (Z.mod_pos_bound (n + per_page - 1) per_page Hpp). lia. }
  split; [exact Hsize|]. split; [|split].
  - intros Hlt. rewrite Hsize. nia.
  - intros Hle. rewrite Hsize. nia.
  - intros Hgt. apply length_zero_iff_nil.
    assert (size = 0%Z) by (rewrite Hsize; nia). subst size. lia.
Qed.

Lemma X17_page_sizes_witness :
  Z.of_nat (List.length (shown Trees.scandir "/artifacts" 2 3 "")) = 1%Z /\
  shown Trees.scandir "/artifacts" 3 3 "" = [].
Proof.
  pose proof (X17_page_sizes Trees.scandir "/artifacts" 2 3 ""
                eq_refl ltac:(discriminate)) as H2.
  pose proof (X17_page_sizes Trees.scandir "/artifacts" 3 3 ""
                eq_refl ltac:(discriminate)) as H3.
  cbv zeta in H2, H3. split.
  - exact (proj1 H2).
  - exact (proj2 (proj2 (proj2 H3)) eq_refl).
Defined.

(** X18: the page arithmetic is not guarded. With [per_page] zero the page
    cannot be computed, whatever the directory holds: the division raises
    [ZeroDivisionError]. With a positive [per_page], page zero is the slice
    from [-per_page] to [0], which is empty. *)
Theorem X18_unguarded_page_arithmetic
    (scandir : string -> option (list DirEntry)) (path : string)
    (page per_page : Z) (search_query : string) :
  (paginated_items scandir path page per_page search_query
   = ZeroDivisionError <-> per_page = 0%Z) /\
  ((0 < per_page)%Z ->
   exists p,
     paginated_items scandir path 0 per_page search_query = Page p /\
     page_items p = []).
Proof.
  split.
  - unfold paginated_items. destruct (Z.eqb_spec per_page 0); split;
      congruence.
  - intros Hpp. unfold paginated_items.
    destruct (Z.eqb_spec per_page 0) as [?|_]; [lia|].
    eexists. split; [reflexivity|]. cbn [page_items].
    unfold py_slice, slice_bound.
    set (len := Z.of_nat _).
    destruct (Z.ltb_spec ((0 - 1) * per_page) 0) as [_|?]; [|lia].
    destruct (Z.ltb_spec ((0 - 1) * per_page + per_page) 0) as [?|_]; [lia|].
    replace (Z.to_nat _) with 0%nat by (subst len; lia). reflexivity.
Qed.

(** ** The update endpoints *)

Lemma first_file_unsorted (path_le : string -> string -> bool)
    (tree : Installers.Tree) (filepath pattern : string) :
  Installers.first_file path_le tree filepath pattern false
  = hd_error (Installers.glob tree filepath pattern).
Proof.
  unfold Installers.first_file.
  now destruct (Installers.glob tree filepath pattern).
Qed.

(** X19: [VSCUpdater.on_get] answers 200 exactly when the build directory
    exists, its [latest.json] loads, the client's commit is not the latest
    version, a payload matches [vscode-<name>.*] and the SHA-256 digest of
    the first match is the [sha256hash] of the document; the answer then is
    the document with [url] set to the root URL followed by the path of that
    payload. A payload whose digest differs is never offered. *)
Theorem X19_update_offered_iff_hash_matches
    (ARTIFACTS_INSTALLERS : string) (path_le : string -> string -> bool)
    (tree : Installers.Tree) (platform buildquality commitid : string)
    (r : Installers.Response) :
  let dir := Installers.updatedir ARTIFACTS_INSTALLERS platform buildquality in
  (Installers.update_on_get ARTIFACTS_INSTALLERS path_le tree
     platform buildquality commitid = Ok r /\
   Installers.status r = Installers.HTTP_200)
  <->
  exists latest v n updatepath digest,
    Installers.path_exists tree dir = true /\
    Installers.json_at tree (path_join dir "latest.json")
      = Loaded (Some latest) /\
    Installers.version latest = Some v /\ v <> commitid /\
    Installers.name latest = Some n /\
    hd_error (Installers.glob tree dir ("vscode-" ++ n ++ ".*")%string)
      = Some updatepath /\
    Installers.sha256_of tree updatepath = Some digest /\
    Installers.sha256hash latest = Some digest /\
    r = {| Installers.status := Installers.HTTP_200;
           Installers.content := None;
           Installers.media :=
             Some (Installers.set_url latest (URLROOT ++ updatepath)%string);
           Installers.location := None |}.
Proof.
  intros dir. unfold Installers.update_on_get. fold dir.
  split.
  - intros [H Hs].
    destruct (Installers.path_exists tree dir) eqn:Hex; cbn in H;
      [|inversion H; subst; discriminate].
    destruct (Installers.json_at tree _) as [| |[latest|]] eqn:Hj; cbn in H;
      try discriminate; try (inversion H; subst; discriminate).
    destruct (Installers.version latest) as [v|] eqn:Hv; cbn in H;
      [|discriminate].
    destruct (String.eqb_spec v commitid) as [?|Hne];
      [inversion H; subst; discriminate|].
    destruct (Installers.name latest) as [n|] eqn:Hn; cbn in H;
      [|discriminate].
    rewrite first_file_unsorted in H.
    destruct (hd_error _) as [updatepath|] eqn:Hg;
      [|inversion H; subst; discriminate].
    destruct (Installers.sha256hash latest) as [expected|] eqn:Hh; cbn in H;
      [|discriminate].
    unfold Installers.hash_file_and_check in H.
    destruct (Installers.sha256_of tree updatepath) as [digest|] eqn:Hd;
      cbn in H; [|discriminate].
    destruct (String.eqb_spec expected digest) as [->|?]; cbn in H;
      [|inversion H; subst; discriminate].
    inversion H; subst. exists latest, v, n, updatepath, digest.
    repeat split; auto.
  - intros (latest & v & n & updatepath & digest
            & Hex & Hj & Hv & Hne & Hn & Hg & Hd & Hh & ->).
    rewrite Hex, Hj. cbn [negb load_json bind member]. rewrite Hv.
    cbn [negb load_json bind member].
    destruct (String.eqb_spec v commitid) as [?|_]; [contradiction|].
    rewrite Hn. cbn [negb load_json bind member].
    rewrite first_file_unsorted, Hg, Hh. cbn [negb load_json bind member].
    unfold Installers.hash_file_and_check. rewrite Hd.
    cbn [bind os_call]. rewrite String.eqb_refl. split; reflexivity.
Qed.

(** A payload whose digest is the one of the document is offered; one whose
    digest differs is refused with 403. *)
Example update_offered_or_refused :
  Installers.update_on_get "/artifacts/installers" String.leb
    (Trees.builds "d1ce") "linux-x64" "stable" "older"
  = Ok {| Installers.status := Installers.HTTP_200;
          Installers.content := None;
          Installers.media :=
            Some (Installers.set_url Trees.latest
                    (URLROOT ++ Trees.payload)%string);
          Installers.location := None |} /\
  Installers.update_on_get "/artifacts/installers" String.leb
    (Trees.builds "0bad") "linux-x64" "stable" "older"
  = Ok (Installers.respond Installers.HTTP_403
          (Some "Update payload hash mismatch")) /\
  Installers.update_on_get "/artifacts/installers" String.leb
    (Trees.builds "0bad") "linux-x64" "stable" "abc123"
  = Ok (Installers.respond Installers.HTTP_204 None).
Proof. repeat split; vm_compute; reflexivity. Qed.

(** X20: [VSCBinaryFromCommitId.on_get] redirects (302) exactly when the
    build directory exists, [<commit>.json] loads, a payload matches
    [vscode-<name>.*] and the SHA-256 digest of the first match is the
    [sha256hash] of the document; [Location] then is the root URL followed
    by the path of that payload. *)
Theorem X20_redirect_iff_hash_matches
    (ARTIFACTS_INSTALLERS : string) (path_le : string -> string -> bool)
    (tree : Installers.Tree) (commitid platform buildquality : string)
    (r : Installers.Response) :
  let dir := Installers.updatedir ARTIFACTS_INSTALLERS platform buildquality in
  (Installers.binary_on_get ARTIFACTS_INSTALLERS path_le tree
     commitid platform buildquality = Ok r /\
   Installers.status r = Installers.HTTP_302)
  <->
  exists updatejson n updatepath digest,
    Installers.path_exists tree dir = true /\
    Installers.json_at tree (path_join dir (commitid ++ ".json")%string)
      = Loaded (Some updatejson) /\
    Installers.name updatejson = Some n /\
    hd_error (Installers.glob tree dir ("vscode-" ++ n ++ ".*")%string)
      = Some updatepath /\
    Installers.sha256_of tree updatepath = Some digest /\
    Installers.sha256hash updatejson = Some digest /\
    r = {| Installers.status := Installers.HTTP_302;
           Installers.content := None;
           Installers.media := None;
           Installers.location := Some (URLROOT ++ updatepath)%string |}.
Proof.
  intros dir. unfold Installers.binary_on_get. fold dir.
  split.
  - intros [H Hs].
    destruct (Installers.path_exists tree dir) eqn:Hex; cbn in H;
      [|inversion H; subst; discriminate].
    destruct (Installers.json_at tree _) as [| |[updatejson|]] eqn:Hj;
      cbn in H;
      try discriminate; try (inversion H; subst; discriminate).
    destruct (Installers.name updatejson) as [n|] eqn:Hn; cbn in H;
      [|discriminate].
    rewrite first_file_unsorted in H.
    destruct (hd_error _) as [updatepath|] eqn:Hg;
      [|inversion H; subst; discriminate].
    destruct (Installers.sha256hash updatejson) as [expected|] eqn:Hh;
      cbn in H; [|discriminate].
    unfold Installers.hash_file_and_check in H.
    destruct (Installers.sha256_of tree updatepath) as [digest|] eqn:Hd;
      cbn in H; [|discriminate].
    destruct (String.eqb_spec expected digest) as [->|?]; cbn in H;
      [|inversion H; subst; discriminate].
    inversion H; subst. exists updatejson, n, updatepath, digest.
    repeat split; auto.
  - intros (updatejson & n & updatepath & digest
            & Hex & Hj & Hn & Hg & Hd & Hh & ->).
    rewrite Hex, Hj. cbn [negb load_json bind member]. rewrite Hn.
    cbn [negb load_json bind member].
    rewrite first_file_unsorted, Hg, Hh. cbn [negb load_json bind member].
    unfold Installers.hash_file_and_check. rewrite Hd.
    cbn [bind os_call]. rewrite String.eqb_refl. split; reflexivity.
Qed.

Example redirect_to_payload :
  Installers.binary_on_get "/artifacts/installers" String.leb
    (Trees.builds "d1ce") "abc123" "linux-x64" "stable"
  = Ok {| Installers.status := Installers.HTTP_302;
          Installers.content := None;
          Installers.media := None;
          Installers.location := Some (URLROOT ++ Trees.payload)%string |} /\
  Installers.binary_on_get "/artifacts/installers" String.leb
    (Trees.builds "d1ce") "unknown" "linux-x64" "stable"
  = Ok (Installers.respond Installers.HTTP_500
          (Some "Unable to load /artifacts/installers/linux-x64/stable/unknown.json")).
Proof. split; vm_compute; reflexivity. Qed.

Lemma X19_update_offered_witness :
  Installers.update_on_get "/artifacts/installers" String.leb
    (Trees.builds "d1ce") "linux-x64" "stable" "older"
  = Ok {| Installers.status := Installers.HTTP_200;
          Installers.content := None;
          Installers.media :=
            Some (Installers.set_url Trees.latest
                    (URLROOT ++ Trees.payload)%string);
          Installers.location := None |} /\
  Installers.status
    {| Installers.status := Installers.HTTP_200;
       Installers.content := None;
       Installers.media :=
         Some (Installers.set_url Trees.latest (URLROOT ++ Trees.payload)%string);
       Installers.location := None |} = Installers.HTTP_200.
Proof.
  refine (proj2 (X19_update_offered_iff_hash_matches "/artifacts/installers"
                   String.leb (Trees.builds "d1ce") "linux-x64" "stable"
                   "older" _) _).
  exists Trees.latest, "abc123", "1.90.0", Trees.payload, "d1ce".
  repeat split; try reflexivity. discriminate.
Defined.

Lemma X20_redirect_witness :
  Installers.binary_on_get "/artifacts/installers" String.leb
    (Trees.builds "d1ce") "abc123" "linux-x64" "stable"
  = Ok {| Installers.status := Installers.HTTP_302;
          Installers.content := None;
          Installers.media := None;
          Installers.location := Some (URLROOT ++ Trees.payload)%string |} /\
  Installers.status
    {| Installers.status := Installers.HTTP_302;
       Installers.content := None;
       Installers.media := None;
       Installers.location := Some (URLROOT ++ Trees.payload)%string |}
  = Installers.HTTP_302.
Proof.
  refine (proj2 (X20_redirect_iff_hash_matches "/artifacts/installers"
                   String.leb (Trees.builds "d1ce") "abc123" "linux-x64"
                   "stable" _) _).
  exists Trees.latest, "1.90.0", Trees.payload, "d1ce".
  repeat split; reflexivity.
Defined.

(** ** The query engine: sorts are stable *)

(** X21: every sort is stable, in either direction: the records whose sort
    keys are tied come out in the order in which the criteria selected
    them. *)
Theorem X21_sorts_are_stable (dates : string -> option Z)
    (found sorted : list ExtensionRecord) (sortby sortorder : Z) :
  _sort dates found sortby sortorder = Ok sorted ->
  (sortby = SortBy.InstallCount ->
   forall k, filter (key_tied (stat_key "install") Z.leb k) sorted
             = filter (key_tied (stat_key "install") Z.leb k) found) /\
  (sortby = SortBy.PublisherName ->
   forall k, filter (key_tied publisher_key String.leb k) sorted
             = filter (key_tied publisher_key String.leb k) found) /\
  (~ In sortby [SortBy.PublisherName; SortBy.InstallCount;
                SortBy.AverageRating; SortBy.WeightedRating;
                SortBy.LastUpdatedDate; SortBy.PublishedDate] ->
   forall k, filter (key_tied display_key String.leb k) sorted
             = filter (key_tied display_key String.leb k) found).
Proof.
  intros H. split; [|split].
  - intros -> k. cbn in H.
    eapply sorted_by_stable; eauto using Zleb_trans.
  - intros -> k. cbn in H.
    eapply sorted_by_stable; eauto using String_leb_trans.
  - intros Hn k. unfold _sort in H.
    repeat match type of H with
           | context [(sortby =? ?c)%Z] =>
               destruct (Z.eqb_spec sortby c) as [E|_];
                 [exfalso; apply Hn; rewrite E; cbn; tauto|]
           end.
    unfold display_key.
    eapply sorted_by_stable; eauto using String_leb_trans.
Qed.

Lemma X21_sorts_are_stable_witness :
  _sort Sample.no_dates [Cases.zeta; Cases.alpha] SortBy.InstallCount
    SortOrder.Descending = Ok [Cases.zeta; Cases.alpha] /\
  filter (key_tied (stat_key "install") Z.leb 0%Z) [Cases.zeta; Cases.alpha]
  = [Cases.zeta; Cases.alpha].
Proof.
  split; [reflexivity|].
  exact (proj1 (X21_sorts_are_stable Sample.no_dates
                  [Cases.zeta; Cases.alpha] [Cases.zeta; Cases.alpha]
                  SortBy.InstallCount SortOrder.Descending eq_refl)
           eq_refl 0%Z).
Defined.
